(** * tinqerjs.org site generator: a shallow embedding of [src/build.js]

    The build script turns markdown documents into static pages.  Its pure
    part is text processing: a slug function for heading anchors, a scan of
    the markdown token stream for headings, and a handful of HTML fragment
    generators whose results are spliced into a page template.

    ECMAScript strings are sequences of UTF-16 code units; they are modelled
    as lists of numbers.  The string primitives of the host that the script
    calls ([trim], [toLowerCase], [replace], [encodeURIComponent],
    [parseInt], [substring]) are defined in [Module JS] after the ECMAScript
    specification; the case mapping of [toLowerCase] is that of the Unicode
    Character Database, version 14.0.  Exceptions are values of an error
    monad. *)

From Stdlib Require Import String Ascii.
From Stdlib Require Import List NArith ZArith Bool Lia.
From Equations Require Import Equations.
Import ListNotations.

(** ** Exceptions *)

Inductive exn : Type :=
| TypeError   (* property access on [undefined] *)
| URIError.   (* malformed UTF-16 handed to [encodeURIComponent] *)

Inductive result (A : Type) : Type :=
| Ok (a : A)
| Throw (e : exn).

Arguments Ok {A} a.
Arguments Throw {A} e.

Definition bind {A B} (r : result A) (k : A -> result B) : result B :=
  match r with
  | Ok a => k a
  | Throw e => Throw e
  end.

Notation "x <- r ;; k" := (bind r (fun x => k))
  (at level 61, r at next level, right associativity).

(** ** Host strings *)

Module JS.

Definition codeUnit := N.
Definition jstring := list codeUnit.

(** An ASCII literal of the script, as code units. *)
Definition lit (s : string) : jstring :=
  map N_of_ascii (list_ascii_of_string s).
Arguments lit s%_string.

Fixpoint jeqb (a b : jstring) : bool :=
  match a, b with
  | [], [] => true
  | x :: a', y :: b' => N.eqb x y && jeqb a' b'
  | _, _ => false
  end.

Definition between (lo hi c : N) : bool := N.leb lo c && N.leb c hi.

(** [WhiteSpace] and [LineTerminator] of ECMAScript: what [trim] strips and
    what the class [\s] matches. *)
Definition isWhiteSpace (c : codeUnit) : bool :=
  between 9 13 c || N.eqb c 32 || N.eqb c 160 || N.eqb c 5760
  || between 8192 8202 c || N.eqb c 8232 || N.eqb c 8233 || N.eqb c 8239
  || N.eqb c 8287 || N.eqb c 12288 || N.eqb c 65279.

Fixpoint dropWhile (p : codeUnit -> bool) (s : jstring) : jstring :=
  match s with
  | [] => []
  | c :: r => if p c then dropWhile p r else s
  end.

Definition trimStart (s : jstring) : jstring := dropWhile isWhiteSpace s.
Definition trimEnd (s : jstring) : jstring := rev (dropWhile isWhiteSpace (rev s)).

(** [String.prototype.trim] *)
Definition trim (s : jstring) : jstring := trimEnd (trimStart s).

(** *** UTF-16 *)

Definition isLeadSurrogate (c : codeUnit) : bool := between 55296 56319 c.
Definition isTrailSurrogate (c : codeUnit) : bool := between 56320 57343 c.

Definition surrogatePair (hi lo : codeUnit) : N :=
  ((hi - 55296) * 1024 + (lo - 56320) + 65536)%N.

(** [StringToCodePoints]: a lead surrogate and the trail surrogate after it
    are one code point; every other code unit, a lone surrogate too, is a
    code point by itself. *)
Fixpoint codePoints (s : jstring) : list N :=
  match s with
  | [] => []
  | c :: r =>
    match r with
    | d :: r' =>
      if isLeadSurrogate c && isTrailSurrogate d
      then surrogatePair c d :: codePoints r'
      else c :: codePoints r
    | [] => [c]
    end
  end.

(** [UTF16EncodeCodePoint].  Code points end at U+10FFFF; a larger number,
    which no string of 16-bit code units decodes to, is passed through. *)
Definition codeUnits (cp : N) : jstring :=
  if N.ltb cp 65536 then [cp]
  else if N.ltb cp 1114112 then
    [55296 + (cp - 65536) / 1024; 56320 + (cp - 65536) mod 1024]%N
  else [cp].

(** [CodePointsToString] *)
Definition fromCodePoints (cps : list N) : jstring := flat_map codeUnits cps.

(** *** [String.prototype.toLowerCase]

    The string is read as code points, each is mapped by the
    locale-insensitive case mappings of the Unicode Character Database, and
    the result is written back as code units.  The mappings are the simple
    ones of UnicodeData.txt and the two lower-case rules of
    SpecialCasing.txt that hold in every locale: U+0130 becomes U+0069
    U+0307, and capital sigma becomes final sigma where the condition
    [Final_Sigma] holds. *)

(** The simple lower-case mappings of the Unicode Character Database
    (UnicodeData.txt, Unicode 14.0) as runs [(first, last, step, target)]:
    the code points [first], [first + step], ... up to [last] map to
    [target], [target + step], ...; every other code point maps to
    itself. *)
Definition lowerRuns : list (N * N * N * N) :=
  [ (65, 90, 1, 97); (192, 214, 1, 224); (216, 222, 1, 248);
    (256, 302, 2, 257); (306, 310, 2, 307); (313, 327, 2, 314);
    (330, 374, 2, 331); (376, 376, 1, 255); (377, 381, 2, 378);
    (385, 385, 1, 595); (386, 388, 2, 387); (390, 390, 1, 596);
    (391, 391, 1, 392); (393, 394, 1, 598); (395, 395, 1, 396);
    (398, 398, 1, 477); (399, 399, 1, 601); (400, 400, 1, 603);
    (401, 401, 1, 402); (403, 403, 1, 608); (404, 404, 1, 611);
    (406, 406, 1, 617); (407, 407, 1, 616); (408, 408, 1, 409);
    (412, 412, 1, 623); (413, 413, 1, 626); (415, 415, 1, 629);
    (416, 420, 2, 417); (422, 422, 1, 640); (423, 423, 1, 424);
    (425, 425, 1, 643); (428, 428, 1, 429); (430, 430, 1, 648);
    (431, 431, 1, 432); (433, 434, 1, 650); (435, 437, 2, 436);
    (439, 439, 1, 658); (440, 440, 1, 441); (444, 444, 1, 445);
    (452, 452, 1, 454); (453, 453, 1, 454); (455, 455, 1, 457);
    (456, 456, 1, 457); (458, 458, 1, 460); (459, 475, 2, 460);
    (478, 494, 2, 479); (497, 497, 1, 499); (498, 500, 2, 499);
    (502, 502, 1, 405); (503, 503, 1, 447); (504, 542, 2, 505);
    (544, 544, 1, 414); (546, 562, 2, 547); (570, 570, 1, 11365);
    (571, 571, 1, 572); (573, 573, 1, 410); (574, 574, 1, 11366);
    (577, 577, 1, 578); (579, 579, 1, 384); (580, 580, 1, 649);
    (581, 581, 1, 652); (582, 590, 2, 583); (880, 882, 2, 881);
    (886, 886, 1, 887); (895, 895, 1, 1011); (902, 902, 1, 940);
    (904, 906, 1, 941); (908, 908, 1, 972); (910, 911, 1, 973);
    (913, 929, 1, 945); (931, 939, 1, 963); (975, 975, 1, 983);
    (984, 1006, 2, 985); (1012, 1012, 1, 952); (1015, 1015, 1, 1016);
    (1017, 1017, 1, 1010); (1018, 1018, 1, 1019); (1021, 1023, 1, 891);
    (1024, 1039, 1, 1104); (1040, 1071, 1, 1072); (1120, 1152, 2, 1121);
    (1162, 1214, 2, 1163); (1216, 1216, 1, 1231); (1217, 1229, 2, 1218);
    (1232, 1326, 2, 1233); (1329, 1366, 1, 1377); (4256, 4293, 1, 11520);
    (4295, 4295, 1, 11559); (4301, 4301, 1, 11565); (5024, 5103, 1, 43888);
    (5104, 5109, 1, 5112); (7312, 7354, 1, 4304); (7357, 7359, 1, 4349);
    (7680, 7828, 2, 7681); (7838, 7838, 1, 223); (7840, 7934, 2, 7841);
    (7944, 7951, 1, 7936); (7960, 7965, 1, 7952); (7976, 7983, 1, 7968);
    (7992, 7999, 1, 7984); (8008, 8013, 1, 8000); (8025, 8031, 2, 8017);
    (8040, 8047, 1, 8032); (8072, 8079, 1, 8064); (8088, 8095, 1, 8080);
    (8104, 8111, 1, 8096); (8120, 8121, 1, 8112); (8122, 8123, 1, 8048);
    (8124, 8124, 1, 8115); (8136, 8139, 1, 8050); (8140, 8140, 1, 8131);
    (8152, 8153, 1, 8144); (8154, 8155, 1, 8054); (8168, 8169, 1, 8160);
    (8170, 8171, 1, 8058); (8172, 8172, 1, 8165); (8184, 8185, 1, 8056);
    (8186, 8187, 1, 8060); (8188, 8188, 1, 8179); (8486, 8486, 1, 969);
    (8490, 8490, 1, 107); (8491, 8491, 1, 229); (8498, 8498, 1, 8526);
    (8544, 8559, 1, 8560); (8579, 8579, 1, 8580); (9398, 9423, 1, 9424);
    (11264, 11311, 1, 11312); (11360, 11360, 1, 11361);
    (11362, 11362, 1, 619); (11363, 11363, 1, 7549); (11364, 11364, 1, 637);
    (11367, 11371, 2, 11368); (11373, 11373, 1, 593); (11374, 11374, 1, 625);
    (11375, 11375, 1, 592); (11376, 11376, 1, 594); (11378, 11378, 1, 11379);
    (11381, 11381, 1, 11382); (11390, 11391, 1, 575);
    (11392, 11490, 2, 11393); (11499, 11501, 2, 11500);
    (11506, 11506, 1, 11507); (42560, 42604, 2, 42561);
    (42624, 42650, 2, 42625); (42786, 42798, 2, 42787);
    (42802, 42862, 2, 42803); (42873, 42875, 2, 42874);
    (42877, 42877, 1, 7545); (42878, 42886, 2, 42879);
    (42891, 42891, 1, 42892); (42893, 42893, 1, 613);
    (42896, 42898, 2, 42897); (42902, 42920, 2, 42903);
    (42922, 42922, 1, 614); (42923, 42923, 1, 604); (42924, 42924, 1, 609);
    (42925, 42925, 1, 620); (42926, 42926, 1, 618); (42928, 42928, 1, 670);
    (42929, 42929, 1, 647); (42930, 42930, 1, 669); (42931, 42931, 1, 43859);
    (42932, 42946, 2, 42933); (42948, 42948, 1, 42900);
    (42949, 42949, 1, 642); (42950, 42950, 1, 7566);
    (42951, 42953, 2, 42952); (42960, 42960, 1, 42961);
    (42966, 42968, 2, 42967); (42997, 42997, 1, 42998);
    (65313, 65338, 1, 65345); (66560, 66599, 1, 66600);
    (66736, 66771, 1, 66776); (66928, 66938, 1, 66967);
    (66940, 66954, 1, 66979); (66956, 66962, 1, 66995);
    (66964, 66965, 1, 67003); (68736, 68786, 1, 68800);
    (71840, 71871, 1, 71872); (93760, 93791, 1, 93792);
    (125184, 125217, 1, 125218) ]%N.

(** The code points with the property [Case_Ignorable]
    (DerivedCoreProperties.txt), as ranges [(first, last)]. *)
Definition caseIgnorableRanges : list (N * N) :=
  [ (39, 39); (46, 46); (58, 58); (94, 94); (96, 96); (168, 168); (173, 173);
    (175, 175); (180, 180); (183, 184); (688, 879); (884, 885); (890, 890);
    (900, 901); (903, 903); (1155, 1161); (1369, 1369); (1375, 1375);
    (1425, 1469); (1471, 1471); (1473, 1474); (1476, 1477); (1479, 1479);
    (1524, 1524); (1536, 1541); (1552, 1562); (1564, 1564); (1600, 1600);
    (1611, 1631); (1648, 1648); (1750, 1757); (1759, 1768); (1770, 1773);
    (1807, 1807); (1809, 1809); (1840, 1866); (1958, 1968); (2027, 2037);
    (2042, 2042); (2045, 2045); (2070, 2093); (2137, 2139); (2184, 2184);
    (2192, 2193); (2200, 2207); (2249, 2306); (2362, 2362); (2364, 2364);
    (2369, 2376); (2381, 2381); (2385, 2391); (2402, 2403); (2417, 2417);
    (2433, 2433); (2492, 2492); (2497, 2500); (2509, 2509); (2530, 2531);
    (2558, 2558); (2561, 2562); (2620, 2620); (2625, 2626); (2631, 2632);
    (2635, 2637); (2641, 2641); (2672, 2673); (2677, 2677); (2689, 2690);
    (2748, 2748); (2753, 2757); (2759, 2760); (2765, 2765); (2786, 2787);
    (2810, 2815); (2817, 2817); (2876, 2876); (2879, 2879); (2881, 2884);
    (2893, 2893); (2901, 2902); (2914, 2915); (2946, 2946); (3008, 3008);
    (3021, 3021); (3072, 3072); (3076, 3076); (3132, 3132); (3134, 3136);
    (3142, 3144); (3146, 3149); (3157, 3158); (3170, 3171); (3201, 3201);
    (3260, 3260); (3263, 3263); (3270, 3270); (3276, 3277); (3298, 3299);
    (3328, 3329); (3387, 3388); (3393, 3396); (3405, 3405); (3426, 3427);
    (3457, 3457); (3530, 3530); (3538, 3540); (3542, 3542); (3633, 3633);
    (3636, 3642); (3654, 3662); (3761, 3761); (3764, 3772); (3782, 3782);
    (3784, 3789); (3864, 3865); (3893, 3893); (3895, 3895); (3897, 3897);
    (3953, 3966); (3968, 3972); (3974, 3975); (3981, 3991); (3993, 4028);
    (4038, 4038); (4141, 4144); (4146, 4151); (4153, 4154); (4157, 4158);
    (4184, 4185); (4190, 4192); (4209, 4212); (4226, 4226); (4229, 4230);
    (4237, 4237); (4253, 4253); (4348, 4348); (4957, 4959); (5906, 5908);
    (5938, 5939); (5970, 5971); (6002, 6003); (6068, 6069); (6071, 6077);
    (6086, 6086); (6089, 6099); (6103, 6103); (6109, 6109); (6155, 6159);
    (6211, 6211); (6277, 6278); (6313, 6313); (6432, 6434); (6439, 6440);
    (6450, 6450); (6457, 6459); (6679, 6680); (6683, 6683); (6742, 6742);
    (6744, 6750); (6752, 6752); (6754, 6754); (6757, 6764); (6771, 6780);
    (6783, 6783); (6823, 6823); (6832, 6862); (6912, 6915); (6964, 6964);
    (6966, 6970); (6972, 6972); (6978, 6978); (7019, 7027); (7040, 7041);
    (7074, 7077); (7080, 7081); (7083, 7085); (7142, 7142); (7144, 7145);
    (7149, 7149); (7151, 7153); (7212, 7219); (7222, 7223); (7288, 7293);
    (7376, 7378); (7380, 7392); (7394, 7400); (7405, 7405); (7412, 7412);
    (7416, 7417); (7468, 7530); (7544, 7544); (7579, 7679); (8125, 8125);
    (8127, 8129); (8141, 8143); (8157, 8159); (8173, 8175); (8189, 8190);
    (8203, 8207); (8216, 8217); (8228, 8228); (8231, 8231); (8234, 8238);
    (8288, 8292); (8294, 8303); (8305, 8305); (8319, 8319); (8336, 8348);
    (8400, 8432); (11388, 11389); (11503, 11505); (11631, 11631);
    (11647, 11647); (11744, 11775); (11823, 11823); (12293, 12293);
    (12330, 12333); (12337, 12341); (12347, 12347); (12441, 12446);
    (12540, 12542); (40981, 40981); (42232, 42237); (42508, 42508);
    (42607, 42610); (42612, 42621); (42623, 42623); (42652, 42655);
    (42736, 42737); (42752, 42785); (42864, 42864); (42888, 42890);
    (42994, 42996); (43000, 43001); (43010, 43010); (43014, 43014);
    (43019, 43019); (43045, 43046); (43052, 43052); (43204, 43205);
    (43232, 43249); (43263, 43263); (43302, 43309); (43335, 43345);
    (43392, 43394); (43443, 43443); (43446, 43449); (43452, 43453);
    (43471, 43471); (43493, 43494); (43561, 43566); (43569, 43570);
    (43573, 43574); (43587, 43587); (43596, 43596); (43632, 43632);
    (43644, 43644); (43696, 43696); (43698, 43700); (43703, 43704);
    (43710, 43711); (43713, 43713); (43741, 43741); (43756, 43757);
    (43763, 43764); (43766, 43766); (43867, 43871); (43881, 43883);
    (44005, 44005); (44008, 44008); (44013, 44013); (64286, 64286);
    (64434, 64450); (65024, 65039); (65043, 65043); (65056, 65071);
    (65106, 65106); (65109, 65109); (65279, 65279); (65287, 65287);
    (65294, 65294); (65306, 65306); (65342, 65342); (65344, 65344);
    (65392, 65392); (65438, 65439); (65507, 65507); (65529, 65531);
    (66045, 66045); (66272, 66272); (66422, 66426); (67456, 67461);
    (67463, 67504); (67506, 67514); (68097, 68099); (68101, 68102);
    (68108, 68111); (68152, 68154); (68159, 68159); (68325, 68326);
    (68900, 68903); (69291, 69292); (69446, 69456); (69506, 69509);
    (69633, 69633); (69688, 69702); (69744, 69744); (69747, 69748);
    (69759, 69761); (69811, 69814); (69817, 69818); (69821, 69821);
    (69826, 69826); (69837, 69837); (69888, 69890); (69927, 69931);
    (69933, 69940); (70003, 70003); (70016, 70017); (70070, 70078);
    (70089, 70092); (70095, 70095); (70191, 70193); (70196, 70196);
    (70198, 70199); (70206, 70206); (70367, 70367); (70371, 70378);
    (70400, 70401); (70459, 70460); (70464, 70464); (70502, 70508);
    (70512, 70516); (70712, 70719); (70722, 70724); (70726, 70726);
    (70750, 70750); (70835, 70840); (70842, 70842); (70847, 70848);
    (70850, 70851); (71090, 71093); (71100, 71101); (71103, 71104);
    (71132, 71133); (71219, 71226); (71229, 71229); (71231, 71232);
    (71339, 71339); (71341, 71341); (71344, 71349); (71351, 71351);
    (71453, 71455); (71458, 71461); (71463, 71467); (71727, 71735);
    (71737, 71738); (71995, 71996); (71998, 71998); (72003, 72003);
    (72148, 72151); (72154, 72155); (72160, 72160); (72193, 72202);
    (72243, 72248); (72251, 72254); (72263, 72263); (72273, 72278);
    (72281, 72283); (72330, 72342); (72344, 72345); (72752, 72758);
    (72760, 72765); (72767, 72767); (72850, 72871); (72874, 72880);
    (72882, 72883); (72885, 72886); (73009, 73014); (73018, 73018);
    (73020, 73021); (73023, 73029); (73031, 73031); (73104, 73105);
    (73109, 73109); (73111, 73111); (73459, 73460); (78896, 78904);
    (92912, 92916); (92976, 92982); (92992, 92995); (94031, 94031);
    (94095, 94111); (94176, 94177); (94179, 94180); (110576, 110579);
    (110581, 110587); (110589, 110590); (113821, 113822); (113824, 113827);
    (118528, 118573); (118576, 118598); (119143, 119145); (119155, 119170);
    (119173, 119179); (119210, 119213); (119362, 119364); (121344, 121398);
    (121403, 121452); (121461, 121461); (121476, 121476); (121499, 121503);
    (121505, 121519); (122880, 122886); (122888, 122904); (122907, 122913);
    (122915, 122916); (122918, 122922); (123184, 123197); (123566, 123566);
    (123628, 123631); (125136, 125142); (125252, 125259); (127995, 127999);
    (917505, 917505); (917536, 917631); (917760, 917999) ]%N.

(** The code points with the property [Cased] that are not
    [Case_Ignorable]; the scan for a cased letter steps over the
    case-ignorable ones before it asks for [Cased]. *)
Definition casedRanges : list (N * N) :=
  [ (65, 90); (97, 122); (170, 170); (181, 181); (186, 186); (192, 214);
    (216, 246); (248, 442); (444, 447); (452, 659); (661, 687); (880, 883);
    (886, 887); (891, 893); (895, 895); (902, 902); (904, 906); (908, 908);
    (910, 929); (931, 1013); (1015, 1153); (1162, 1327); (1329, 1366);
    (1376, 1416); (4256, 4293); (4295, 4295); (4301, 4301); (4304, 4346);
    (4349, 4351); (5024, 5109); (5112, 5117); (7296, 7304); (7312, 7354);
    (7357, 7359); (7424, 7467); (7531, 7543); (7545, 7578); (7680, 7957);
    (7960, 7965); (7968, 8005); (8008, 8013); (8016, 8023); (8025, 8025);
    (8027, 8027); (8029, 8029); (8031, 8061); (8064, 8116); (8118, 8124);
    (8126, 8126); (8130, 8132); (8134, 8140); (8144, 8147); (8150, 8155);
    (8160, 8172); (8178, 8180); (8182, 8188); (8450, 8450); (8455, 8455);
    (8458, 8467); (8469, 8469); (8473, 8477); (8484, 8484); (8486, 8486);
    (8488, 8488); (8490, 8493); (8495, 8500); (8505, 8505); (8508, 8511);
    (8517, 8521); (8526, 8526); (8544, 8575); (8579, 8580); (9398, 9449);
    (11264, 11387); (11390, 11492); (11499, 11502); (11506, 11507);
    (11520, 11557); (11559, 11559); (11565, 11565); (42560, 42605);
    (42624, 42651); (42786, 42863); (42865, 42887); (42891, 42894);
    (42896, 42954); (42960, 42961); (42963, 42963); (42965, 42969);
    (42997, 42998); (43002, 43002); (43824, 43866); (43872, 43880);
    (43888, 43967); (64256, 64262); (64275, 64279); (65313, 65338);
    (65345, 65370); (66560, 66639); (66736, 66771); (66776, 66811);
    (66928, 66938); (66940, 66954); (66956, 66962); (66964, 66965);
    (66967, 66977); (66979, 66993); (66995, 67001); (67003, 67004);
    (68736, 68786); (68800, 68850); (71840, 71903); (93760, 93823);
    (119808, 119892); (119894, 119964); (119966, 119967); (119970, 119970);
    (119973, 119974); (119977, 119980); (119982, 119993); (119995, 119995);
    (119997, 120003); (120005, 120069); (120071, 120074); (120077, 120084);
    (120086, 120092); (120094, 120121); (120123, 120126); (120128, 120132);
    (120134, 120134); (120138, 120144); (120146, 120485); (120488, 120512);
    (120514, 120538); (120540, 120570); (120572, 120596); (120598, 120628);
    (120630, 120654); (120656, 120686); (120688, 120712); (120714, 120744);
    (120746, 120770); (120772, 120779); (122624, 122633); (122635, 122654);
    (125184, 125251); (127280, 127305); (127312, 127337);
    (127344, 127369) ]%N.

Definition inRun (run : N * N * N * N) (cp : N) : bool :=
  let '(first, last, step, _) := run in
  between first last cp && N.eqb ((cp - first) mod step) 0.

Fixpoint lookupRun (table : list (N * N * N * N)) (cp : N) : option N :=
  match table with
  | [] => None
  | (first, last, step, target) :: rest =>
    if inRun (first, last, step, target) cp then Some (target + (cp - first))%N
    else lookupRun rest cp
  end.

Definition simpleLower (cp : N) : N :=
  match lookupRun lowerRuns cp with
  | Some l => l
  | None => cp
  end.

Definition inRanges (ranges : list (N * N)) (cp : N) : bool :=
  existsb (fun r => between (fst r) (snd r) cp) ranges.

Definition isCaseIgnorable (cp : N) : bool := inRanges caseIgnorableRanges cp.
Definition isCased (cp : N) : bool := inRanges casedRanges cp.

(** The first code point that is not case-ignorable. *)
Fixpoint skipIgnorable (cps : list N) : option N :=
  match cps with
  | [] => None
  | cp :: rest => if isCaseIgnorable cp then skipIgnorable rest else Some cp
  end.

Definition casedNext (cps : list N) : bool :=
  match skipIgnorable cps with
  | Some cp => isCased cp
  | None => false
  end.

(** [Final_Sigma]: a cased letter comes before, case-ignorable code points
    aside, and none comes after.  [before] holds the code points before the
    sigma, the nearest first. *)
Definition finalSigma (before after : list N) : bool :=
  casedNext before && negb (casedNext after).

Definition lowerCodePoint (before : list N) (cp : N) (after : list N) : list N :=
  if N.eqb cp 931 && finalSigma before after then [962%N]
  else if N.eqb cp 304 then [105%N; 775%N]
  else [simpleLower cp].

Fixpoint lowerFrom (before cps : list N) : list N :=
  match cps with
  | [] => []
  | cp :: after => lowerCodePoint before cp after ++ lowerFrom (cp :: before) after
  end.

Definition toLowerCase (s : jstring) : jstring :=
  fromCodePoints (lowerFrom [] (codePoints s)).

(** [String.prototype.substring(1)] *)
Definition substring1 (s : jstring) : jstring := tl s.

(** [s.replace(/[cls]/g, rep)] when [greedy] is false and
    [s.replace(/[cls]+/g, rep)] when it is true: the matcher walks the
    string from the left; where the class matches, it consumes that code
    unit (and, under [+], every following one of the class), emits [rep]
    and resumes after the match; elsewhere it copies one code unit. *)
Equations? replaceClassG (cls : codeUnit -> bool) (greedy : bool)
  (rep : jstring) (s : jstring) : jstring by wf (length s) lt :=
  replaceClassG cls greedy rep [] := [];
  replaceClassG cls greedy rep (c :: r) with cls c := {
    | true := rep ++ replaceClassG cls greedy rep
                       (if greedy then dropWhile cls r else r);
    | false := c :: replaceClassG cls greedy rep r }.
Proof.
  destruct greedy; [|lia].
  assert (length (dropWhile cls r) <= length r); [|lia].
  clear; induction r as [|d r IH]; simpl; [lia|].
  destruct (cls d); simpl; lia.
Qed.

(** *** [encodeURIComponent] *)

Definition isAlnum (c : codeUnit) : bool :=
  between 48 57 c || between 65 90 c || between 97 122 c.

(** [uriUnescaped]: alphanumerics and the marks [- _ . ! ~ * ' ( )]. *)
Definition isUnreserved (c : codeUnit) : bool :=
  isAlnum c || N.eqb c 45 || N.eqb c 95 || N.eqb c 46 || N.eqb c 33
  || N.eqb c 126 || N.eqb c 42 || N.eqb c 39 || N.eqb c 40 || N.eqb c 41.

Definition hexDigit (d : N) : codeUnit :=
  if N.ltb d 10 then (48 + d)%N else (55 + d)%N.

Definition percent : codeUnit := 37%N.

Definition escapeByte (b : N) : jstring :=
  [percent; hexDigit (b / 16); hexDigit (b mod 16)].

Definition utf8 (cp : N) : list N :=
  if N.ltb cp 128 then [cp]
  else if N.ltb cp 2048 then [192 + cp / 64; 128 + cp mod 64]%N
  else if N.ltb cp 65536 then
    [224 + cp / 4096; 128 + (cp / 64) mod 64; 128 + cp mod 64]%N
  else
    [240 + (cp / 262144) mod 8; 128 + (cp / 4096) mod 64;
     128 + (cp / 64) mod 64; 128 + cp mod 64]%N.

Definition escapeCodePoint (cp : N) : jstring :=
  flat_map escapeByte (utf8 cp).

(** The [Encode] operation with the unreserved set of
    [encodeURIComponent]: a lone surrogate raises [URIError]. *)
Fixpoint encodeURIComponent (s : jstring) : result jstring :=
  match s with
  | [] => Ok []
  | c :: r =>
    if isUnreserved c then
      (t <- encodeURIComponent r ;; Ok (c :: t))
    else if isTrailSurrogate c then Throw URIError
    else if isLeadSurrogate c then
      match r with
      | d :: r' =>
        if isTrailSurrogate d then
          (t <- encodeURIComponent r' ;;
           Ok (escapeCodePoint (surrogatePair c d) ++ t))
        else Throw URIError
      | [] => Throw URIError
      end
    else
      (t <- encodeURIComponent r ;; Ok (escapeCodePoint c ++ t))
  end.

(** *** [parseInt] with no radix argument

    Leading white space is skipped, a sign is read, a [0x] prefix selects
    radix 16, and the longest prefix of digits is the value; [None] is
    [NaN].  The value is kept exact: the script only compares it with 2
    and 3. *)
Definition digitValue (c : codeUnit) : option Z :=
  if between 48 57 c then Some (Z.of_N c - 48)%Z
  else if between 97 122 c then Some (Z.of_N c - 87)%Z
  else if between 65 90 c then Some (Z.of_N c - 55)%Z
  else None.

Fixpoint parseDigits (radix : Z) (s : jstring) (acc : option Z) : option Z :=
  match s with
  | [] => acc
  | c :: r =>
    match digitValue c with
    | Some d =>
      if (d <? radix)%Z then
        parseDigits radix r
          (Some (match acc with Some a => a * radix + d | None => d end)%Z)
      else acc
    | None => acc
    end
  end.

Definition parseInt (s : jstring) : option Z :=
  let s := trimStart s in
  let '(sign, s) :=
    match s with
    | c :: r => if N.eqb c 45 then ((-1)%Z, r)
                else if N.eqb c 43 then (1%Z, r) else (1%Z, s)
    | [] => (1%Z, s)
    end in
  let '(radix, s) :=
    match s with
    | z :: x :: r =>
      if N.eqb z 48 && (N.eqb x 120 || N.eqb x 88) then (16%Z, r)
      else (10%Z, s)
    | _ => (10%Z, s)
    end in
  option_map (Z.mul sign) (parseDigits radix s None).

(** *** [String.prototype.replace] with a string pattern *)

Fixpoint isPrefix (p s : jstring) : bool :=
  match p, s with
  | [], _ => true
  | x :: p', y :: s' => N.eqb x y && isPrefix p' s'
  | _ :: _, [] => false
  end.

(** [StringIndexOf(s, pat, 0)] *)
Fixpoint indexOf (pat s : jstring) : option nat :=
  if isPrefix pat s then Some 0
  else match s with
       | [] => None
       | _ :: r => option_map S (indexOf pat r)
       end.

(** [GetSubstitution] without captures: [$$] is a dollar sign, [$&] the
    match, [$`] the text before it, [$'] the text after it; every other
    code unit of the replacement stands for itself. *)
Fixpoint getSubstitution (matched before after template : jstring) : jstring :=
  match template with
  | [] => []
  | c :: r =>
    if N.eqb c 36 then
      match r with
      | d :: r' =>
        if N.eqb d 36 then 36%N :: getSubstitution matched before after r'
        else if N.eqb d 38 then matched ++ getSubstitution matched before after r'
        else if N.eqb d 96 then before ++ getSubstitution matched before after r'
        else if N.eqb d 39 then after ++ getSubstitution matched before after r'
        else c :: getSubstitution matched before after r
      | [] => [c]
      end
    else c :: getSubstitution matched before after r
  end.

Definition replace (s pat replacement : jstring) : jstring :=
  match indexOf pat s with
  | None => s
  | Some p =>
    let before := firstn p s in
    let after := skipn (p + length pat) s in
    before ++ getSubstitution pat before after replacement ++ after
  end.

(** [a[i]] for a number [i]: [None] is [undefined]. *)
Definition item {A} (a : list A) (i : Z) : option A :=
  if (i <? 0)%Z then None else nth_error a (Z.to_nat i).

End JS.

Import JS.

(** ** The script *)

(** The class of the pattern [/\./g]. *)
Definition isPeriod (c : codeUnit) : bool := N.eqb c 46.

(** [slugify], build.js lines 29-31.  [String(s)] is the identity on the
    strings both callers pass. *)
Definition slugify (s : jstring) : result jstring :=
  encodeURIComponent
    (replaceClassG isWhiteSpace true (lit "-")
       (replaceClassG isPeriod false []
          (toLowerCase (trim s)))).

(** *** Fragments of markup *)

Definition dq : jstring := [34%N].
Definition nl : jstring := [10%N].
Definition larr : jstring := [8592%N].   (* U+2190 *)
Definition rarr : jstring := [8594%N].   (* U+2192 *)
Definition quoted (s : jstring) : jstring := dq ++ s ++ dq.

(** *** Page definitions, build.js lines 19-26 *)

Module Page.
Record t : Type := mk { src : jstring; dest : jstring; title : jstring; nav : jstring }.
End Page.

(** [generateNav], lines 58-67.  The module-level [pages] is passed
    explicitly. *)
Definition generateNav (pages : list Page.t) (currentPage : jstring) : jstring :=
  let nav := lit "<ul class=" ++ quoted (lit "nav-list") ++ lit ">" ++ nl in
  let nav :=
    fold_left
      (fun nav page =>
         let isActive := jeqb (Page.dest page) currentPage in
         let activeClass :=
           if isActive then lit " class=" ++ quoted (lit "active") else [] in
         nav ++ (lit "  <li" ++ activeClass ++ lit "><a href="
                   ++ quoted (Page.dest page) ++ lit ">" ++ Page.nav page
                   ++ lit "</a></li>" ++ nl))
      pages nav in
  let nav := nav ++ lit "</ul>" in
  nav.

(** [generateBreadcrumb], lines 70-75 *)
Definition generateBreadcrumb (pageTitle : jstring) : jstring :=
  if jeqb pageTitle (lit "Getting Started") then
    lit "<div class=" ++ quoted (lit "breadcrumb") ++ lit "><span>Home</span></div>"
  else
    lit "<div class=" ++ quoted (lit "breadcrumb") ++ lit "><a href="
      ++ quoted (lit "index.html") ++ lit ">Home</a> / <span>" ++ pageTitle
      ++ lit "</span></div>".

(** [generatePageNav], lines 78-95 *)
Definition generatePageNav (pages : list Page.t) (currentIndex : Z) : jstring :=
  let prev :=
    if (currentIndex >? 0)%Z then item pages (currentIndex - 1) else None in
  let next :=
    if (currentIndex <? Z.of_nat (length pages) - 1)%Z
    then item pages (currentIndex + 1) else None in
  let html := lit "<footer class=" ++ quoted (lit "page-nav") ++ lit ">" ++ nl in
  let html :=
    match prev with
    | Some prev =>
      html ++ (lit "  <a href=" ++ quoted (Page.dest prev) ++ lit " class="
                 ++ quoted (lit "prev") ++ lit ">" ++ larr ++ lit " "
                 ++ Page.nav prev ++ lit "</a>" ++ nl)
    | None => html ++ (lit "  <span></span>" ++ nl)
    end in
  let html :=
    match next with
    | Some next =>
      html ++ (lit "  <a href=" ++ quoted (Page.dest next) ++ lit " class="
                 ++ quoted (lit "next") ++ lit ">" ++ Page.nav next ++ lit " "
                 ++ rarr ++ lit "</a>" ++ nl)
    | None => html ++ (lit "  <span></span>" ++ nl)
    end in
  let html := html ++ lit "</footer>" in
  html.

(** The manifest.  [src] is the path below the companion repository, whose
    location [TINQER_REPO] is resolved when the script runs. *)
Definition pages : list Page.t :=
  [ Page.mk (lit "README.md") (lit "index.html")
            (lit "Getting Started") (lit "Getting Started");
    Page.mk (lit "docs/guide.md") (lit "guide.html") (lit "Guide") (lit "Guide");
    Page.mk (lit "docs/api-reference.md") (lit "api-reference.html")
            (lit "API Reference") (lit "API Reference");
    Page.mk (lit "docs/adapters.md") (lit "adapters.html")
            (lit "Adapters") (lit "Adapters");
    Page.mk (lit "docs/development.md") (lit "development.html")
            (lit "Development") (lit "Development");
    Page.mk (lit "ARCHITECTURE.md") (lit "architecture.html")
            (lit "Architecture") (lit "Architecture") ].

(** *** Tokens and headings *)

Module Token.
Record t : Type := mk { type : jstring; tag : jstring; content : jstring }.
End Token.

Module Heading.
Record t : Type := mk { level : Z; content : jstring; id : jstring }.
End Heading.

(** [level >= 2 && level <= 3]; comparisons with [NaN] are false. *)
Definition isTocLevel (level : option Z) : bool :=
  match level with
  | Some n => (2 <=? n)%Z && (n <=? 3)%Z
  | None => false
  end.

Definition isHeadingOpen (token : Token.t) : bool :=
  jeqb (Token.type token) (lit "heading_open").

(** Lines 106-108: [headings.push({ level, content, id })] under the level
    test. *)
Definition pushHeading (level : option Z) (content id : jstring)
  (headings : list Heading.t) : list Heading.t :=
  match level with
  | Some l =>
    if isTocLevel level then headings ++ [Heading.mk l content id]
    else headings
  | None => headings
  end.

(** The loop of [extractHeadings], lines 100-110: [n] iterations are left,
    [i] is the loop counter, [headings] the array built so far. *)
Fixpoint extractLoop (tokens : list Token.t) (n i : nat)
  (headings : list Heading.t) : result (list Heading.t) :=
  match n with
  | O => Ok headings
  | S n' =>
    match nth_error tokens i with
    | None => Ok headings
    | Some token =>
      if isHeadingOpen token then
        let level := parseInt (substring1 (Token.tag token)) in
        match nth_error tokens (i + 1) with
        | None => Throw TypeError
        | Some following =>
          let content := Token.content following in
          id <- slugify content ;;
          extractLoop tokens n' (i + 1) (pushHeading level content id headings)
        end
      else extractLoop tokens n' (i + 1) headings
    end
  end.

(** [extractHeadings], lines 98-112 *)
Definition extractHeadings (tokens : list Token.t) : result (list Heading.t) :=
  extractLoop tokens (length tokens) 0 [].

(** One list item of the table of contents, line 120-121. *)
Definition tocItem (h : Heading.t) : jstring :=
  let indent :=
    if (Heading.level h =? 3)%Z then lit " class=" ++ quoted (lit "toc-sub")
    else [] in
  lit "  <li" ++ indent ++ lit "><a href=" ++ quoted (lit "#" ++ Heading.id h)
    ++ lit ">" ++ Heading.content h ++ lit "</a></li>" ++ nl.

(** [generateTOC], lines 115-125 *)
Definition generateTOC (headings : list Heading.t) : jstring :=
  if Nat.eqb (length headings) 0 then []
  else
    let toc := lit "<nav class=" ++ quoted (lit "toc") ++ lit ">" ++ nl
                 ++ lit "<h2>On This Page</h2>" ++ nl ++ lit "<ul>" ++ nl in
    let toc := fold_left (fun toc h => toc ++ tocItem h) headings toc in
    let toc := toc ++ (lit "</ul>" ++ nl ++ lit "</nav>") in
    toc.

(** The text part of [buildPage], lines 139-151: the token stream and the
    rendered body come from the markdown engine, the template from disk. *)
Definition buildPage (template : jstring) (tokens : list Token.t)
  (content : jstring) (page : Page.t) (index : Z) : result jstring :=
  headings <- extractHeadings tokens ;;
  let toc := generateTOC headings in
  let html := template in
  let html := replace html (lit "{{TITLE}}") (Page.title page) in
  let html := replace html (lit "{{NAV}}") (generateNav pages (Page.dest page)) in
  let html := replace html (lit "{{BREADCRUMB}}") (generateBreadcrumb (Page.title page)) in
  let html := replace html (lit "{{TOC}}") toc in
  let html := replace html (lit "{{CONTENT}}") content in
  let html := replace html (lit "{{PAGE_NAV}}") (generatePageNav pages index) in
  Ok html.

(** ** Notions of the specification *)

(** *** Slug pipeline, as the specification words it *)

Definition removePeriods (s : jstring) : jstring :=
  filter (fun c => negb (isPeriod c)) s.

(** The maximal runs of [s]: consecutive code units that agree on [cls],
    each tagged with the class it belongs to. *)
Fixpoint runs (cls : codeUnit -> bool) (s : jstring) : list (bool * jstring) :=
  match s with
  | [] => []
  | c :: r =>
    match runs cls r with
    | (b, run) :: rest =>
      if Bool.eqb (cls c) b then (b, c :: run) :: rest
      else (cls c, [c]) :: (b, run) :: rest
    | [] => [(cls c, [c])]
    end
  end.

(** Neighbouring runs differ in class. *)
Fixpoint alternating (l : list (bool * jstring)) : Prop :=
  match l with
  | a :: ((b :: _) as tl) => fst a <> fst b /\ alternating tl
  | _ => True
  end.

Definition hyphenFor (r : bool * jstring) : jstring :=
  if fst r then lit "-" else snd r.

Definition hyphenateRuns (s : jstring) : jstring :=
  flat_map hyphenFor (runs isWhiteSpace s).

(** White space is one of these characters: the tabulation, the line
    feed, the vertical tabulation, the form feed, the carriage return, the
    space, the no-break space, the space separators U+1680, U+2000 to
    U+200A, U+202F, U+205F and U+3000, the line and paragraph separators
    U+2028 and U+2029, and the byte order mark U+FEFF. *)
Definition whiteSpaceUnits : list codeUnit :=
  [ 9; 10; 11; 12; 13; 32; 160; 5760; 8192; 8193; 8194; 8195; 8196; 8197;
    8198; 8199; 8200; 8201; 8202; 8232; 8233; 8239; 8287; 12288; 65279 ]%N.

Definition isSpace (c : codeUnit) : bool := existsb (N.eqb c) whiteSpaceUnits.

(** The text from its first character that is no white space on. *)
Fixpoint stripStart (s : jstring) : jstring :=
  match s with
  | [] => []
  | c :: r => if isSpace c then stripStart r else c :: r
  end.

(** The text up to its last character that is no white space. *)
Fixpoint stripEnd (s : jstring) : jstring :=
  match s with
  | [] => []
  | c :: r =>
    match stripEnd r with
    | [] => if isSpace c then [] else [c]
    | t => c :: t
    end
  end.

Definition specTrim (s : jstring) : jstring := stripEnd (stripStart s).

(** The lower-case form of an ASCII character. *)
Definition asciiLower (c : codeUnit) : codeUnit :=
  if between 65 90 c then (c + 32)%N else c.

Definition isSurrogate (c : codeUnit) : bool :=
  isLeadSurrogate c || isTrailSurrogate c.

(** Percent-encoding, character by character: an unreserved character
    stands for itself, any other is replaced by the escapes of the bytes of
    its UTF-8 form; a lone surrogate has no UTF-8 form. *)
Fixpoint percentEncode (cps : list N) : result jstring :=
  match cps with
  | [] => Ok []
  | cp :: rest =>
    if isUnreserved cp then (t <- percentEncode rest ;; Ok (cp :: t))
    else if isSurrogate cp then Throw URIError
    else (t <- percentEncode rest ;; Ok (escapeCodePoint cp ++ t))
  end.

Definition specEncode (s : jstring) : result jstring :=
  percentEncode (codePoints s).

Definition specSlug (s : jstring) : result jstring :=
  let trimmed := specTrim s in
  let lowered := toLowerCase trimmed in
  let dotless := removePeriods lowered in
  let hyphenated := hyphenateRuns dotless in
  specEncode hyphenated.

(** *** The case table *)

Definition runFirst (run : N * N * N * N) : N := fst (fst (fst run)).
Definition runLast (run : N * N * N * N) : N := snd (fst (fst run)).
Definition runTarget (run : N * N * N * N) : N := snd run.

(** The run maps into the interval from [lo] to [hi]. *)
Definition runInto (lo hi : N) (run : N * N * N * N) : bool :=
  N.leb lo (runTarget run)
  && N.leb (runTarget run + (runLast run - runFirst run)) hi.

(** Neither the run nor what it maps to holds a surrogate. *)
Definition runNoSurrogate (run : N * N * N * N) : bool :=
  (N.ltb (runLast run) 55296 || N.ltb 57343 (runFirst run))
  && (N.ltb (runTarget run + (runLast run - runFirst run)) 55296
      || N.ltb 57343 (runTarget run)).

(** A run of the Basic Multilingual Plane maps into it. *)
Definition runKeepsBmp (run : N * N * N * N) : bool :=
  N.leb 65536 (runFirst run)
  || N.ltb (runTarget run + (runLast run - runFirst run)) 65536.

(** [IsStringWellFormedUnicode]: no lone surrogate. *)
Fixpoint wellFormed (s : jstring) : bool :=
  match s with
  | [] => true
  | c :: r =>
    if isTrailSurrogate c then false
    else if isLeadSurrogate c then
      match r with
      | d :: r' => isTrailSurrogate d && wellFormed r'
      | [] => false
      end
    else wellFormed r
  end.

(** The text handed to the encoder. *)
Definition normalise (s : jstring) : jstring :=
  replaceClassG isWhiteSpace true (lit "-")
    (replaceClassG isPeriod false [] (toLowerCase (trim s))).

(** What a percent escape is made of: the percent sign and hexadecimal
    digits, which are unreserved and no period. *)
Definition escapeUnit (c : codeUnit) : bool :=
  N.eqb c percent || (isUnreserved c && negb (isPeriod c)).

(** Units that every step of [slugify] leaves alone. *)
Definition plainUnit (c : codeUnit) : bool :=
  isUnreserved c && negb (isPeriod c) && negb (between 65 90 c).

(** *** Anchor injection *)

(** Modelled from the spec: the anchor plugin [markdown-it-anchor] is an
    external package and not part of the script.  Section 4.4 of the
    specification has it attach to every heading an identifier computed by
    the slug function from the heading text, which the data model places in
    the token that follows the heading marker.  The slug function is the
    plugin's option, set to [slugify] at build.js line 49.  The result lists
    the identifiers of the rendered headings in document order. *)
Fixpoint markdownItAnchor (slugifyOption : jstring -> result jstring)
  (tokens : list Token.t) : result (list jstring) :=
  match tokens with
  | [] => Ok []
  | token :: rest =>
    if isHeadingOpen token then
      match rest with
      | [] => Ok []
      | following :: _ =>
        id <- slugifyOption (Token.content following) ;;
        ids <- markdownItAnchor slugifyOption rest ;;
        Ok (id :: ids)
      end
    else markdownItAnchor slugifyOption rest
  end.

(** The configuration of lines 48-55. *)
Definition renderedHeadingIds (tokens : list Token.t) : result (list jstring) :=
  markdownItAnchor slugify tokens.

(** The link target of a table-of-contents entry, line 121. *)
Definition tocTarget (h : Heading.t) : jstring := lit "#" ++ Heading.id h.

(** *** Headings of a document *)

(** Level and text of every heading of the token stream, in document
    order. *)
Fixpoint documentHeadings (tokens : list Token.t) : list (option Z * jstring) :=
  match tokens with
  | [] => []
  | token :: rest =>
    if isHeadingOpen token then
      match rest with
      | [] => []
      | following :: _ =>
        (parseInt (substring1 (Token.tag token)), Token.content following)
          :: documentHeadings rest
      end
    else documentHeadings rest
  end.

(** The loop of [extractHeadings] read as a recursion on the tokens that
    are left. *)
Fixpoint scanHeadings (tokens : list Token.t) (headings : list Heading.t)
  : result (list Heading.t) :=
  match tokens with
  | [] => Ok headings
  | token :: rest =>
    if isHeadingOpen token then
      match rest with
      | [] => Throw TypeError
      | following :: _ =>
        id <- slugify (Token.content following) ;;
        scanHeadings rest
          (pushHeading (parseInt (substring1 (Token.tag token)))
                       (Token.content following) id headings)
      end
    else scanHeadings rest headings
  end.

(** Every heading marker is followed by at least one more token. *)
Fixpoint everyHeadingFollowed (tokens : list Token.t) : bool :=
  match tokens with
  | [] => true
  | token :: rest =>
    (negb (isHeadingOpen token) || match rest with [] => false | _ => true end)
    && everyHeadingFollowed rest
  end.

Definition hasSlug (text : jstring) : bool :=
  match slugify text with Ok _ => true | Throw _ => false end.

(** Every heading text is well-formed UTF-16, so that it has a slug. *)
Definition headingsHaveSlugs (tokens : list Token.t) : bool :=
  forallb (fun h => hasSlug (snd h)) (documentHeadings tokens).

(** Every heading of the document is a level-2 or level-3 heading. *)
Definition onlyTocLevels (tokens : list Token.t) : bool :=
  forallb (fun h => isTocLevel (fst h)) (documentHeadings tokens).

Definition headingView (h : Heading.t) : option Z * jstring :=
  (Some (Heading.level h), Heading.content h).

(** *** Markup of the fragments *)

Definition occurs (pat s : jstring) : bool :=
  match indexOf pat s with Some _ => true | None => false end.

Definition pagerOpen : jstring :=
  lit "<footer class=" ++ quoted (lit "page-nav") ++ lit ">" ++ nl.
Definition pagerClose : jstring := lit "</footer>".
Definition emptySlot : jstring := lit "  <span></span>" ++ nl.

Definition prevLink (p : Page.t) : jstring :=
  lit "  <a href=" ++ quoted (Page.dest p) ++ lit " class=" ++ quoted (lit "prev")
    ++ lit ">" ++ larr ++ lit " " ++ Page.nav p ++ lit "</a>" ++ nl.

Definition nextLink (p : Page.t) : jstring :=
  lit "  <a href=" ++ quoted (Page.dest p) ++ lit " class=" ++ quoted (lit "next")
    ++ lit ">" ++ Page.nav p ++ lit " " ++ rarr ++ lit "</a>" ++ nl.

(** The text a browser shows for a piece of markup: everything outside
    the tags. *)
Fixpoint textContent (inTag : bool) (s : jstring) : jstring :=
  match s with
  | [] => []
  | c :: r =>
    if N.eqb c 60 then textContent true r
    else if N.eqb c 62 then textContent false r
    else if inTag then textContent inTag r
    else c :: textContent inTag r
  end.

Definition homeCrumb : jstring :=
  lit "<div class=" ++ quoted (lit "breadcrumb") ++ lit "><span>Home</span></div>".

Definition trailCrumb (title : jstring) : jstring :=
  lit "<div class=" ++ quoted (lit "breadcrumb") ++ lit "><a href="
    ++ quoted (lit "index.html") ++ lit ">Home</a> / <span>" ++ title
    ++ lit "</span></div>".

Definition tocOpen : jstring :=
  lit "<nav class=" ++ quoted (lit "toc") ++ lit ">" ++ nl
    ++ lit "<h2>On This Page</h2>" ++ nl ++ lit "<ul>" ++ nl.
Definition tocClose : jstring := lit "</ul>" ++ nl ++ lit "</nav>".

Definition subItemClass : jstring := lit " class=" ++ quoted (lit "toc-sub").

(** An entry of the table of contents as section 4.5 of the specification
    gives it: a list item, marked as a sub-item at level 3, that holds a
    link to [target] around the heading text. *)
Definition tocEntry (level : Z) (text target : jstring) : jstring :=
  lit "  <li" ++ (if (level =? 3)%Z then subItemClass else [])
    ++ lit "><a href=" ++ quoted target ++ lit ">" ++ text
    ++ lit "</a></li>" ++ nl.

(** The table of contents with the given entries, each a level, a text and
    a link target: nothing when there is none. *)
Definition tocOf (entries : list (Z * jstring * jstring)) : jstring :=
  match entries with
  | [] => []
  | _ :: _ =>
    tocOpen
      ++ flat_map (fun e => tocEntry (fst (fst e)) (snd (fst e)) (snd e)) entries
      ++ tocClose
  end.

(** The entry that links a heading to the fragment of its identifier. *)
Definition linkTo (h : Heading.t) : Z * jstring * jstring :=
  (Heading.level h, Heading.content h, lit "#" ++ Heading.id h).

(** *** Template composition *)

(** A run of replacements, each on the text the previous one left. *)
Definition compose (template : jstring) (steps : list (jstring * jstring)) : jstring :=
  fold_left (fun html step => replace html (fst step) (snd step)) steps template.

(** The six replacements of [buildPage], lines 146-151, in their order. *)
Definition pageSteps (toc content : jstring) (page : Page.t) (index : Z)
  : list (jstring * jstring) :=
  [ (lit "{{TITLE}}", Page.title page);
    (lit "{{NAV}}", generateNav pages (Page.dest page));
    (lit "{{BREADCRUMB}}", generateBreadcrumb (Page.title page));
    (lit "{{TOC}}", toc);
    (lit "{{CONTENT}}", content);
    (lit "{{PAGE_NAV}}", generatePageNav pages index) ].

(** *** A sample document

    Headings of levels 1, 2, 3, 4 and 2, each as the markdown engine emits
    it: an opening marker, the inline text, a closing marker. *)

Definition headingTokens (tag text : string) : list Token.t :=
  [ Token.mk (lit "heading_open") (lit tag) [];
    Token.mk (lit "inline") [] (lit text);
    Token.mk (lit "heading_close") (lit tag) [] ].

Definition sampleDocument : list Token.t :=
  headingTokens "h1" "Tinqer"
    ++ headingTokens "h2" "Getting Started"
    ++ headingTokens "h3" "Install v1.0"
    ++ headingTokens "h4" "Notes"
    ++ headingTokens "h2" "Why Tinqer?".

Definition sampleHeadings : list Heading.t :=
  [ Heading.mk 2 (lit "Getting Started") (lit "getting-started");
    Heading.mk 3 (lit "Install v1.0") (lit "install-v10");
    Heading.mk 2 (lit "Why Tinqer?") (lit "why-tinqer%3F") ].

(** A document of level-2 and level-3 headings only. *)
Definition sampleSections : list Token.t :=
  headingTokens "h2" "Getting Started"
    ++ headingTokens "h3" "Install v1.0"
    ++ headingTokens "h2" "Why Tinqer?".

(** A document whose one heading text is the body placeholder. *)
Definition placeholderDocument : list Token.t :=
  headingTokens "h2" "{{CONTENT}}".

Definition guidePage : Page.t :=
  Page.mk (lit "docs/guide.md") (lit "guide.html") (lit "Guide") (lit "Guide").

(** ** Notions for the further properties *)

(** *** Slugs *)

Definition isUpperHex (c : codeUnit) : bool :=
  between 48 57 c || between 65 70 c.

(** Every percent sign opens an escape of two upper-case hexadecimal
    digits. *)
Fixpoint wellEscaped (t : jstring) : bool :=
  match t with
  | [] => true
  | c :: r =>
    if N.eqb c percent then
      match r with
      | x :: y :: r' => isUpperHex x && isUpperHex y && wellEscaped r'
      | _ => false
      end
    else wellEscaped r
  end.

(** The units a slug is written with: the percent sign, ASCII letters and
    digits, and the marks [- _ ! ~ * ' ( )]. *)
Definition slugUnit (c : codeUnit) : bool :=
  N.eqb c percent || isAlnum c || N.eqb c 45 || N.eqb c 95 || N.eqb c 33
  || N.eqb c 126 || N.eqb c 42 || N.eqb c 39 || N.eqb c 40 || N.eqb c 41.

Definition allWhiteSpace (s : jstring) : bool := forallb isWhiteSpace s.

(** Every unit is a 16-bit code unit. *)
Definition sixteenBit (s : jstring) : bool :=
  forallb (fun c => N.ltb c 65536) s.

(** *** Lower-casing in context *)

(** [lowerFrom] inside a longer text: [trailing] comes after [cps]. *)
Fixpoint lowerBetween (before cps trailing : list N) : list N :=
  match cps with
  | [] => []
  | cp :: after =>
    lowerCodePoint before cp (after ++ trailing)
      ++ lowerBetween (cp :: before) after trailing
  end.

(** What a run maps to, code point by code point. *)
Definition runImage (run : N * N * N * N) : list N :=
  let '(first, last, step, target) := run in
  map (fun k => (target + step * N.of_nat k)%N)
      (seq 0 (S (N.to_nat ((last - first) / step)))).

(** A code point that lower-casing leaves as it is, wherever it stands. *)
Definition settled (cp : N) : bool :=
  negb (N.eqb cp 931) && negb (N.eqb cp 304)
  && match lookupRun lowerRuns cp with None => true | Some _ => false end.

Definition trailHead (l : list N) : bool :=
  match l with
  | c :: _ => isTrailSurrogate c
  | [] => false
  end.

(** No lone lead surrogate stands before a lone trail surrogate. *)
Fixpoint normal (l : list N) : bool :=
  match l with
  | [] => true
  | c :: r => negb (isLeadSurrogate c && trailHead r) && normal r
  end.

(** The text is empty or begins with a unit that is no white space. *)
Definition tight (t : jstring) : bool :=
  match t with
  | [] => true
  | c :: _ => negb (isWhiteSpace c)
  end.

(** What the case mapping has to know of a white-space character. *)
Definition spaceCheck (c : N) : bool :=
  negb (N.eqb c 931) && negb (N.eqb c 304) && N.eqb (simpleLower c) c
  && negb (isCased c) && negb (isSurrogate c) && N.ltb c 65536.

(** What the run maps to holds no white space. *)
Definition runAvoidsSpace (run : N * N * N * N) : bool :=
  forallb (fun w => negb (between (runTarget run)
                            (runTarget run + (runLast run - runFirst run)) w))
          whiteSpaceUnits.

(** *** Navigation list *)

Definition navOpen : jstring :=
  lit "<ul class=" ++ quoted (lit "nav-list") ++ lit ">" ++ nl.
Definition navClose : jstring := lit "</ul>".
Definition activeClass : jstring := lit " class=" ++ quoted (lit "active").

(** The list item of one page, lines 61-63. *)
Definition navItem (currentPage : jstring) (page : Page.t) : jstring :=
  lit "  <li" ++ (if jeqb (Page.dest page) currentPage then activeClass else [])
    ++ lit "><a href=" ++ quoted (Page.dest page) ++ lit ">" ++ Page.nav page
    ++ lit "</a></li>" ++ nl.

(** *** Templates made of slots *)

(** [s] holds no code unit [u]. *)
Definition noUnit (u : codeUnit) (s : jstring) : bool :=
  forallb (fun c => negb (N.eqb c u)) s.

Definition braceFree (s : jstring) : bool := noUnit 123%N s.
Definition dollarFree (s : jstring) : bool := noUnit 36%N s.

(** Text that a replacement inserts as it is and that no later
    replacement finds a token in. *)
Definition clean (s : jstring) : bool := braceFree s && dollarFree s.

(** A slot: the placeholder token, the fragment meant for it and the
    template text that follows the token. *)
Definition slot : Type := jstring * jstring * jstring.
Definition slotToken (sl : slot) : jstring := fst (fst sl).
Definition slotFragment (sl : slot) : jstring := snd (fst sl).
Definition slotTail (sl : slot) : jstring := snd sl.

Definition templateOf (head : jstring) (slots : list slot) : jstring :=
  head ++ flat_map (fun sl => slotToken sl ++ slotTail sl) slots.

Definition pageOf (head : jstring) (slots : list slot) : jstring :=
  head ++ flat_map (fun sl => slotFragment sl ++ slotTail sl) slots.

Definition stepsOf (slots : list slot) : list (jstring * jstring) :=
  map (fun sl => (slotToken sl, slotFragment sl)) slots.

(** Tokens open with a brace, the text between them has none, fragments
    have no dollar sign, and a fragment that later replacements pass over
    has no brace. *)
Fixpoint cleanSlots (slots : list slot) : bool :=
  match slots with
  | [] => true
  | sl :: rest =>
    match slotToken sl with c :: _ => N.eqb c 123 | [] => false end
    && dollarFree (slotFragment sl)
    && braceFree (slotTail sl)
    && match rest with [] => true | _ :: _ => braceFree (slotFragment sl) end
    && cleanSlots rest
  end.

(** ** A run of the script

    [buildPage] as a whole, lines 128-157, and [build], lines 160-185, act
    on the file system and the console.  A run is a function of the world:
    the files with their texts, the directories, the paths the system
    denies access to, and the lines written to the console.  Every call of
    the file system can fail: a read where there is no file or access is
    denied; a write where access is denied, where the path is a directory
    or where the directory of the path is none; the creation of a directory
    where a file is in the way or access is denied.  A read or a write that
    fails leaves the world as it was.  The paths of lines 13-16, [path.join]
    and the markdown engine are the environment of the run. *)

Module Run.

Record env : Type := Env {
  tinqerRepo : jstring;
  buildDir : jstring;
  templatePath : jstring;
  stylesPath : jstring;
  logoPath : jstring;
  join : jstring -> jstring -> jstring;
  mdParse : jstring -> list Token.t;
  mdRender : list Token.t -> jstring }.

Record world : Type := World {
  files : list (jstring * jstring);
  dirs : list jstring;
  locked : list jstring;
  console : list jstring }.

Inductive failure : Type :=
| Raised (e : exn)             (* an exception of the script's own text part *)
| NoEntry (path : jstring)     (* ENOENT: nothing to read, or no directory
                                  to write into *)
| Refused (path : jstring).    (* EACCES, EISDIR, ENOTDIR, EEXIST: what is at
                                  the path does not allow the call *)

Inductive outcome (A : Type) : Type :=
| Done (a : A)
| Failed (f : failure).

Arguments Done {A} a.
Arguments Failed {A} f.

Definition io (A : Type) : Type := world -> outcome A * world.

Definition ret {A} (a : A) : io A := fun w => (Done a, w).

Definition bind {A B} (m : io A) (k : A -> io B) : io B :=
  fun w =>
    match m w with
    | (Done a, w') => k a w'
    | (Failed f, w') => (Failed f, w')
    end.

Definition lift {A} (r : result A) : io A :=
  fun w =>
    match r with
    | Ok a => (Done a, w)
    | Throw e => (Failed (Raised e), w)
    end.

(** The text of the file at [path]: the latest write comes first. *)
Fixpoint lookup (path : jstring) (fs : list (jstring * jstring)) : option jstring :=
  match fs with
  | [] => None
  | (p, text) :: rest => if jeqb path p then Some text else lookup path rest
  end.

Definition isFile (w : world) (path : jstring) : bool :=
  match lookup path (files w) with Some _ => true | None => false end.

(** The empty path is the root, which is always there. *)
Definition isDirectory (w : world) (path : jstring) : bool :=
  match path with
  | [] => true
  | _ :: _ => existsb (jeqb path) (dirs w)
  end.

Definition isLocked (w : world) (path : jstring) : bool :=
  existsb (jeqb path) (locked w).

(** The directory of a path: the text before its last separator. *)
Definition dirname (path : jstring) : jstring :=
  rev (tl (dropWhile (fun c => negb (N.eqb c 47)) (rev path))).

(** The directories above a path, the nearest first, up to the root. *)
Fixpoint ancestorsFrom (n : nat) (path : jstring) : list jstring :=
  match n with
  | O => []
  | S n' =>
    match dirname path with
    | [] => []
    | c :: d => (c :: d) :: ancestorsFrom n' (c :: d)
    end
  end.

Definition ancestors (path : jstring) : list jstring :=
  ancestorsFrom (length path) path.

Definition read (w : world) (path : jstring) : outcome jstring :=
  if isLocked w path then Failed (Refused path)
  else match lookup path (files w) with
       | Some text => Done text
       | None => Failed (NoEntry path)
       end.

Definition readFileSync (path : jstring) : io jstring :=
  fun w => (read w path, w).

(** Why a write to [path] fails, if it does. *)
Definition writeFailure (w : world) (path : jstring) : option failure :=
  if isLocked w path then Some (Refused path)
  else if isDirectory w path then Some (Refused path)
  else if isDirectory w (dirname path) then None
  else if isFile w (dirname path) then Some (Refused path)
  else Some (NoEntry path).

Definition writeFileSync (path data : jstring) : io unit :=
  fun w =>
    match writeFailure w path with
    | Some f => (Failed f, w)
    | None =>
      (Done tt, World ((path, data) :: files w) (dirs w) (locked w) (console w))
    end.

Definition copyFileSync (from to : jstring) : io unit :=
  bind (readFileSync from) (fun data => writeFileSync to data).

Definition existsSync (path : jstring) : io bool :=
  fun w => (Done (isDirectory w path || isFile w path), w).

(** The directories of [chain], which runs from the root down, are made
    one after the other, those that are there aside; a file in the place
    of one, or one that may not be made, ends the call with the
    directories made so far. *)
Fixpoint makeDirs (w : world) (chain made : list jstring)
  : option failure * list jstring :=
  match chain with
  | [] => (None, made)
  | d :: rest =>
    if isDirectory w d then makeDirs w rest made
    else if isFile w d || isLocked w d then (Some (Refused d), made)
    else makeDirs w rest (d :: made)
  end.

(** [mkdirSync(path, { recursive: true })]: nothing is done where the
    directory is there; else it is made, with those above it. *)
Definition mkdirSync (path : jstring) : io unit :=
  fun w =>
    if isDirectory w path then (Done tt, w)
    else
      let '(failure, made) := makeDirs w (rev (path :: ancestors path)) [] in
      (match failure with Some f => Failed f | None => Done tt end,
       World (files w) (made ++ dirs w) (locked w) (console w)).

(** Why the call fails, if it does. *)
Definition mkdirFailure (w : world) (path : jstring) : option failure :=
  if isDirectory w path then None
  else fst (makeDirs w (rev (path :: ancestors path)) []).

Definition log (line : jstring) : io unit :=
  fun w => (Done tt, World (files w) (dirs w) (locked w) (console w ++ [line])).

End Run.

Notation "x <~ m ;; k" := (Run.bind m (fun x => k))
  (at level 61, m at next level, right associativity).
Notation "m ;;; k" := (Run.bind m (fun _ => k))
  (at level 61, right associativity).

Definition check : jstring := [10003%N].   (* U+2713 *)

(** [buildPage] with its reads and writes, lines 128-157.  The manifest
    entry holds the source path below the companion repository. *)
Definition buildPageRun (e : Run.env) (page : Page.t) (index : Z) : Run.io unit :=
  Run.log (lit "Building " ++ Page.dest page ++ lit "...") ;;;
  markdown <~ Run.readFileSync (Run.join e (Run.tinqerRepo e) (Page.src page)) ;;
  let tokens := Run.mdParse e markdown in
  let content := Run.mdRender e tokens in
  headings <~ Run.lift (extractHeadings tokens) ;;
  let toc := generateTOC headings in
  html <~ Run.readFileSync (Run.templatePath e) ;;
  let html := replace html (lit "{{TITLE}}") (Page.title page) in
  let html := replace html (lit "{{NAV}}") (generateNav pages (Page.dest page)) in
  let html := replace html (lit "{{BREADCRUMB}}") (generateBreadcrumb (Page.title page)) in
  let html := replace html (lit "{{TOC}}") toc in
  let html := replace html (lit "{{CONTENT}}") content in
  let html := replace html (lit "{{PAGE_NAV}}") (generatePageNav pages index) in
  let outputPath := Run.join e (Run.buildDir e) (Page.dest page) in
  Run.writeFileSync outputPath html ;;;
  Run.log (lit "  " ++ check ++ lit " Created " ++ Page.dest page).

(** [pages.forEach((page, index) => buildPage(page, index))], lines 180-182,
    from the entry at [index] on. *)
Fixpoint forEachPage (e : Run.env) (ps : list Page.t) (index : Z) : Run.io unit :=
  match ps with
  | [] => Run.ret tt
  | page :: rest => buildPageRun e page index ;;; forEachPage e rest (index + 1)
  end.

(** [build], lines 160-185 *)
Definition build (e : Run.env) : Run.io unit :=
  Run.log (lit "Building Tinqer documentation..." ++ nl) ;;;
  present <~ Run.existsSync (Run.buildDir e) ;;
  (if negb present then Run.mkdirSync (Run.buildDir e) else Run.ret tt) ;;;
  Run.log (lit "Copying styles.css...") ;;;
  Run.copyFileSync (Run.stylesPath e) (Run.join e (Run.buildDir e) (lit "styles.css")) ;;;
  Run.log (lit "  " ++ check ++ lit " Copied styles.css") ;;;
  Run.log (lit "Copying logo.svg...") ;;;
  Run.copyFileSync (Run.logoPath e) (Run.join e (Run.buildDir e) (lit "logo.svg")) ;;;
  Run.log (lit "  " ++ check ++ lit " Copied logo.svg" ++ nl) ;;;
  forEachPage e pages 0 ;;;
  Run.log (nl ++ check ++ lit " Build complete! Output in build/").

(** The paths a run writes to. *)
Definition outputPaths (e : Run.env) : list jstring :=
  Run.join e (Run.buildDir e) (lit "styles.css")
    :: Run.join e (Run.buildDir e) (lit "logo.svg")
    :: map (fun page => Run.join e (Run.buildDir e) (Page.dest page)) pages.

Definition sourcePath (e : Run.env) (page : Page.t) : jstring :=
  Run.join e (Run.tinqerRepo e) (Page.src page).

Definition outputPath (e : Run.env) (page : Page.t) : jstring :=
  Run.join e (Run.buildDir e) (Page.dest page).

(** The paths a run reads after its first write. *)
Definition inputPaths (e : Run.env) : list jstring :=
  Run.templatePath e :: Run.logoPath e :: map (sourcePath e) pages.

(** No path that is read later is a path that is written. *)
Definition separate (e : Run.env) : bool :=
  forallb (fun i => forallb (fun o => negb (jeqb i o)) (outputPaths e))
          (inputPaths e).

(** A write to [path] goes through in every world with these directories
    and these locked paths: the path is not locked and no directory, and
    its directory is there. *)
Definition canWrite (w : Run.world) (path : jstring) : bool :=
  negb (Run.isLocked w path) && negb (Run.isDirectory w path)
  && Run.isDirectory w (Run.dirname path).

(** Every output path lies in the build directory itself, is not locked,
    and is no directory, nor one that making the build directory makes. *)
Definition outputsFree (e : Run.env) (w : Run.world) : bool :=
  forallb
    (fun out =>
       jeqb (Run.dirname out) (Run.buildDir e)
       && negb (Run.isLocked w out)
       && negb (existsb (jeqb out)
                  (Run.buildDir e :: Run.ancestors (Run.buildDir e)
                     ++ Run.dirs w)))
    (outputPaths e).

(** The text of a page, from the files of [w]: the source is read and
    parsed, the headings are extracted, the template is read and filled. *)
Definition renderPage (e : Run.env) (w : Run.world)
  (page : Page.t) (index : Z) : Run.outcome jstring :=
  match Run.read w (sourcePath e page) with
  | Run.Failed f => Run.Failed f
  | Run.Done markdown =>
    let tokens := Run.mdParse e markdown in
    match extractHeadings tokens with
    | Throw x => Run.Failed (Run.Raised x)
    | Ok _ =>
      match Run.read w (Run.templatePath e) with
      | Run.Failed f => Run.Failed f
      | Run.Done template =>
        match buildPage template tokens (Run.mdRender e tokens) page index with
        | Ok html => Run.Done html
        | Throw x => Run.Failed (Run.Raised x)
        end
      end
    end
  end.

(** The pages of [ps] up to the first that fails, each with its output
    path, and that failure. *)
Fixpoint planPages (e : Run.env) (w : Run.world)
  (ps : list Page.t) (index : Z)
  : list (jstring * jstring) * option Run.failure :=
  match ps with
  | [] => ([], None)
  | page :: rest =>
    match renderPage e w page index with
    | Run.Done html =>
      let '(written, failure) := planPages e w rest (index + 1) in
      ((outputPath e page, html) :: written, failure)
    | Run.Failed f => ([], Some f)
    end
  end.

(** The source of the page can be read and its headings can be extracted,
    and the template can be read. *)
Definition pageReady (e : Run.env) (w : Run.world) (page : Page.t) : bool :=
  match Run.read w (sourcePath e page) with
  | Run.Failed _ => false
  | Run.Done markdown =>
    match extractHeadings (Run.mdParse e markdown) with
    | Throw _ => false
    | Ok _ =>
      match Run.read w (Run.templatePath e) with
      | Run.Failed _ => false
      | Run.Done _ => true
      end
    end
  end.

Definition outcomeOf (failure : option Run.failure) : Run.outcome unit :=
  match failure with
  | None => Run.Done tt
  | Some f => Run.Failed f
  end.

(** The files of [w'] are those of [w] under writes to [outs] only. *)
Definition writesWithin (outs : list jstring) (w w' : Run.world) : Prop :=
  exists written,
    Run.files w' = written ++ Run.files w /\
    Forall (fun x => In (fst x) outs) written.

(** A sample world: the companion repository, the script's own files and
    a markdown engine that reads a line [## text] as one heading. *)
Definition samplePath (dir name : jstring) : jstring := dir ++ lit "/" ++ name.

Definition sampleParse (markdown : jstring) : list Token.t :=
  if isPrefix (lit "## ") markdown then
    [ Token.mk (lit "heading_open") (lit "h2") [];
      Token.mk (lit "inline") [] (skipn 3 markdown);
      Token.mk (lit "heading_close") (lit "h2") [] ]
  else [ Token.mk (lit "inline") [] markdown ].

Definition sampleRender (tokens : list Token.t) : jstring :=
  flat_map (fun t => lit "<p>" ++ Token.content t ++ lit "</p>") tokens.

Definition sampleEnv : Run.env :=
  Run.Env (lit "/tinqer") (lit "/site/build") (lit "/site/src/template.html")
    (lit "/site/src/styles.css") (lit "/site/src/logo.svg")
    samplePath sampleParse sampleRender.

Definition sampleFiles : list (jstring * jstring) :=
  [ (lit "/site/src/template.html", lit "<h1>{{TITLE}}</h1>{{TOC}}{{CONTENT}}");
    (lit "/site/src/styles.css", lit "body{}");
    (lit "/site/src/logo.svg", lit "<svg/>");
    (lit "/tinqer/README.md", lit "## Install");
    (lit "/tinqer/docs/guide.md", lit "## Queries");
    (lit "/tinqer/docs/api-reference.md", lit "## Functions");
    (lit "/tinqer/docs/adapters.md", lit "## Postgres");
    (lit "/tinqer/docs/development.md", lit "## Tests");
    (lit "/tinqer/ARCHITECTURE.md", lit "## Layers") ].

Definition sampleDirs : list jstring :=
  [ lit "/site"; lit "/site/src"; lit "/tinqer"; lit "/tinqer/docs" ].

(** The build directory is not there yet. *)
Definition sampleWorld : Run.world := Run.World sampleFiles sampleDirs [] [].

(** The same world without the third source. *)
Definition brokenWorld : Run.world :=
  Run.World
    (filter (fun x => negb (jeqb (fst x) (lit "/tinqer/docs/api-reference.md")))
            sampleFiles) sampleDirs [] [].

(** The same world with a file where the build directory should be. *)
Definition blockedWorld : Run.world :=
  Run.World ((lit "/site/build", lit "stale") :: sampleFiles) sampleDirs [] [].

(** ** Lemmas on the host primitives *)

Section ReplaceClass.

Variables (cls : codeUnit -> bool) (greedy : bool) (rep : jstring).

Lemma replaceClassG_cons c r :
  replaceClassG cls greedy rep (c :: r) =
  if cls c
  then rep ++ replaceClassG cls greedy rep (if greedy then dropWhile cls r else r)
  else c :: replaceClassG cls greedy rep r.
Proof.
  simp replaceClassG. destruct (cls c); reflexivity.
Qed.

Lemma replaceClassG_none s :
  forallb (fun c => negb (cls c)) s = true ->
  replaceClassG cls greedy rep s = s.
Proof.
  induction s as [|c r IH]; intros H.
  - now simp replaceClassG.
  - simpl in H. apply andb_true_iff in H as [Hc Hr].
    rewrite replaceClassG_cons.
    apply negb_true_iff in Hc. rewrite Hc, IH; auto.
Qed.

End ReplaceClass.

Lemma dropWhile_le p s : length (dropWhile p s) <= length s.
Proof.
  induction s as [|c r IH]; simpl; [lia|].
  destruct (p c); simpl; lia.
Qed.

Lemma dropWhile_none p s :
  forallb (fun c => negb (p c)) s = true -> dropWhile p s = s.
Proof.
  destruct s as [|c r]; simpl; auto.
  intros H. apply andb_true_iff in H as [Hc _].
  apply negb_true_iff in Hc. now rewrite Hc.
Qed.

Lemma dropWhile_all p a : forallb p a = true -> dropWhile p a = [].
Proof.
  induction a as [|c a IH]; [reflexivity|].
  cbn [forallb dropWhile]. intros H. apply andb_true_iff in H as [Hc Ha].
  rewrite Hc. auto.
Qed.

Lemma dropWhile_app p s b :
  dropWhile p (s ++ b) =
  if forallb p s then dropWhile p b else dropWhile p s ++ b.
Proof.
  induction s as [|c s IH]; [reflexivity|].
  cbn [app dropWhile forallb]. destruct (p c); [exact IH | reflexivity].
Qed.

(** A single-unit class without [+] is a filter. *)
Lemma replace_single_filter cls s :
  replaceClassG cls false [] s = filter (fun c => negb (cls c)) s.
Proof.
  induction s as [|c r IH].
  - now simp replaceClassG.
  - rewrite replaceClassG_cons. simpl.
    destruct (cls c); simpl; now rewrite IH.
Qed.

Lemma runs_head cls c r :
  exists run rest, runs cls (c :: r) = (cls c, c :: run) :: rest.
Proof.
  simpl. destruct (runs cls r) as [|[b run] rest].
  - now exists [], [].
  - destruct (Bool.eqb (cls c) b) eqn:E.
    + apply eqb_prop in E. subst b. now exists run, rest.
    + now exists [], ((b, run) :: rest).
Qed.

Lemma hyphen_runs_other cls c r :
  cls c = false ->
  flat_map hyphenFor (runs cls (c :: r)) = c :: flat_map hyphenFor (runs cls r).
Proof.
  intros Hc. simpl. rewrite Hc.
  destruct (runs cls r) as [|[b run] rest]; [reflexivity|].
  destruct b; reflexivity.
Qed.

Lemma hyphen_runs_class cls c r :
  cls c = true ->
  flat_map hyphenFor (runs cls (c :: r)) =
  lit "-" ++ flat_map hyphenFor (runs cls (dropWhile cls r)).
Proof.
  revert c. induction r as [|d r IH]; intros c Hc.
  - simpl. now rewrite Hc.
  - destruct (cls d) eqn:Hd.
    + specialize (IH d Hd).
      destruct (runs_head cls d r) as (run & rest & E).
      cbn [dropWhile]. rewrite Hd, <- IH.
      change (runs cls (c :: d :: r)) with
        (match runs cls (d :: r) with
         | (b, run) :: rest =>
           if Bool.eqb (cls c) b then (b, c :: run) :: rest
           else (cls c, [c]) :: (b, run) :: rest
         | [] => [(cls c, [c])]
         end).
      rewrite E, Hc, Hd. reflexivity.
    + cbn [dropWhile]. rewrite Hd.
      destruct (runs_head cls d r) as (run & rest & E).
      change (runs cls (c :: d :: r)) with
        (match runs cls (d :: r) with
         | (b, run) :: rest =>
           if Bool.eqb (cls c) b then (b, c :: run) :: rest
           else (cls c, [c]) :: (b, run) :: rest
         | [] => [(cls c, [c])]
         end).
      rewrite E, Hc, Hd. reflexivity.
Qed.

(** The class under [+] rewrites each maximal run once. *)
Lemma replace_greedy_runs cls s :
  replaceClassG cls true (lit "-") s = flat_map hyphenFor (runs cls s).
Proof.
  remember (length s) as n eqn:Hn. revert s Hn.
  induction n as [n IH] using lt_wf_ind. intros s Hn.
  destruct s as [|c r]; [now simp replaceClassG|].
  rewrite replaceClassG_cons.
  destruct (cls c) eqn:Hc.
  - rewrite hyphen_runs_class by assumption. f_equal.
    apply (IH (length (dropWhile cls r))); [|reflexivity].
    pose proof (dropWhile_le cls r). simpl in Hn. lia.
  - rewrite hyphen_runs_other by assumption. f_equal.
    apply (IH (length r)); [simpl in Hn; lia | reflexivity].
Qed.

(** The runs partition the string, are homogeneous, and neighbours
    differ in class: they are the maximal runs. *)
Lemma runs_concat cls s : flat_map snd (runs cls s) = s.
Proof.
  induction s as [|c r IH]; [reflexivity|].
  simpl. destruct (runs cls r) as [|[b run] rest].
  - simpl in *. now rewrite <- IH.
  - destruct (Bool.eqb (cls c) b); simpl in *; now rewrite <- IH.
Qed.

Lemma runs_homogeneous cls s :
  Forall (fun r => snd r <> [] /\ Forall (fun c => cls c = fst r) (snd r))
         (runs cls s).
Proof.
  induction s as [|c r IH]; [constructor|].
  simpl. destruct (runs cls r) as [|[b run] rest].
  - repeat constructor. discriminate.
  - inversion IH as [|x l [Hne Hall] Hrest]; subst.
    destruct (Bool.eqb (cls c) b) eqn:E.
    + apply eqb_prop in E. constructor; [|assumption].
      split; [discriminate|]. constructor; assumption.
    + constructor; [|assumption].
      split; [discriminate|]. repeat constructor.
Qed.

Lemma runs_alternating cls s : alternating (runs cls s).
Proof.
  induction s as [|c r IH]; [exact I|].
  simpl. destruct (runs cls r) as [|[b run] rest]; [exact I|].
  destruct (Bool.eqb (cls c) b) eqn:E.
  - destruct rest; [exact I|]. exact IH.
  - split; [|exact IH]. simpl. intros H.
    rewrite H, eqb_reflx in E. discriminate.
Qed.

(** *** Character classes *)

Ltac class_props :=
  unfold isSurrogate, isUnreserved, isAlnum, isWhiteSpace, isPeriod,
    isLeadSurrogate, isTrailSurrogate, between, percent in *;
  repeat match goal with
  | H : _ = false |- _ => apply not_true_iff_false in H
  | |- _ = false => apply not_true_iff_false; intro
  end;
  repeat rewrite ?orb_true_iff, ?andb_true_iff, ?N.leb_le, ?N.eqb_eq,
    ?N.ltb_lt in *.

Lemma unreserved_not_space c : isUnreserved c = true -> isWhiteSpace c = false.
Proof. intros H. class_props. lia. Qed.

Lemma hexDigit_unreserved d : (d < 16)%N -> isUnreserved (hexDigit d) = true.
Proof.
  intros H. unfold hexDigit. destruct (N.ltb_spec d 10); class_props; lia.
Qed.

Lemma hexDigit_not_period d : (d < 16)%N -> isPeriod (hexDigit d) = false.
Proof.
  intros H. unfold hexDigit. destruct (N.ltb_spec d 10); class_props; lia.
Qed.

Lemma utf8_bytes cp : Forall (fun b => (b < 256)%N) (utf8 cp).
Proof.
  unfold utf8.
  destruct (N.ltb_spec cp 128); [repeat constructor; lia|].
  destruct (N.ltb_spec cp 2048).
  { assert (cp / 64 < 32)%N by (apply N.Div0.div_lt_upper_bound; lia).
    pose proof (N.mod_lt cp 64 ltac:(lia)).
    repeat constructor; lia. }
  destruct (N.ltb_spec cp 65536).
  { assert (cp / 4096 < 16)%N by (apply N.Div0.div_lt_upper_bound; lia).
    pose proof (N.mod_lt cp 64 ltac:(lia)).
    pose proof (N.mod_lt (cp / 64) 64 ltac:(lia)).
    repeat constructor; lia. }
  pose proof (N.mod_lt cp 64 ltac:(lia)).
  pose proof (N.mod_lt (cp / 64) 64 ltac:(lia)).
  pose proof (N.mod_lt (cp / 4096) 64 ltac:(lia)).
  pose proof (N.mod_lt (cp / 262144) 8 ltac:(lia)).
  repeat constructor; lia.
Qed.

Lemma escapeByte_units b : (b < 256)%N -> forallb escapeUnit (escapeByte b) = true.
Proof.
  intros H. unfold escapeByte, escapeUnit.
  assert (b / 16 < 16)%N by (apply N.Div0.div_lt_upper_bound; lia).
  pose proof (N.mod_lt b 16 ltac:(lia)).
  cbn [forallb]. rewrite N.eqb_refl.
  rewrite !hexDigit_unreserved, !hexDigit_not_period by assumption.
  now rewrite !orb_true_r.
Qed.

Lemma escapeCodePoint_units cp : forallb escapeUnit (escapeCodePoint cp) = true.
Proof.
  unfold escapeCodePoint. pose proof (utf8_bytes cp) as H.
  induction H as [|b l Hb _ IH]; [reflexivity|].
  cbn [flat_map]. rewrite forallb_app, escapeByte_units, IH; auto.
Qed.

Lemma escapeCodePoint_shape cp :
  exists x y t, escapeCodePoint cp = percent :: x :: y :: t.
Proof.
  unfold escapeCodePoint, utf8.
  destruct (N.ltb cp 128); [|destruct (N.ltb cp 2048); [|destruct (N.ltb cp 65536)]];
    cbn [flat_map escapeByte app]; eauto.
Qed.

(** *** [encodeURIComponent] *)

(** Induction that follows the encoder: it steps over one code unit or
    over a surrogate pair. *)
Lemma pair_step_ind (P : jstring -> Prop) :
  P [] ->
  (forall c r, P r -> (forall d r', r = d :: r' -> P r') -> P (c :: r)) ->
  forall s, P s.
Proof.
  intros Hnil Hcons s.
  enough (P s /\ (forall d r', s = d :: r' -> P r')) by tauto.
  induction s as [|c r [IH1 IH2]].
  - split; [assumption | discriminate].
  - split.
    + apply Hcons; assumption.
    + intros d r' E. injection E as _ <-. assumption.
Qed.

Ltac encode_cases c r d r' :=
  cbn [encodeURIComponent];
  destruct (isUnreserved c) eqn:?;
  [| destruct (isTrailSurrogate c) eqn:?;
     [| destruct (isLeadSurrogate c) eqn:?;
        [ destruct r as [|d r'];
          [| match goal with
             | |- context [isTrailSurrogate ?d] =>
               destruct (isTrailSurrogate d) eqn:?
             end ]
        | ] ] ].

Ltac bind_inv :=
  match goal with
  | H : bind ?e _ = Ok _ |- _ =>
    let t := fresh "t" in let E := fresh "E" in
    destruct e as [t|] eqn:E; cbn [bind] in H; [|discriminate];
    injection H as <-
  | H : Throw _ = Ok _ |- _ => discriminate H
  end.

Lemma encode_unreserved x :
  forallb isUnreserved x = true -> encodeURIComponent x = Ok x.
Proof.
  induction x as [|c r IH]; [reflexivity|].
  cbn [forallb]. intros H. apply andb_true_iff in H as [Hc Hr].
  cbn [encodeURIComponent]. rewrite Hc, (IH Hr). reflexivity.
Qed.

(** The output consists of percent signs, unreserved units other than the
    period, and unreserved units of the input. *)
Lemma encode_units x : forall t,
  encodeURIComponent x = Ok t ->
  forallb (fun c => escapeUnit c || (isUnreserved c && existsb (N.eqb c) x)) t
  = true.
Proof.
  induction x as [|c r IH1 IH2] using pair_step_ind; intros t H.
  - injection H as <-. reflexivity.
  - assert (W : forall (y : jstring) u, forallb (fun c => escapeUnit c
               || (isUnreserved c && existsb (N.eqb c) y)) u = true ->
             forall z, forallb (fun c0 => escapeUnit c0
               || (isUnreserved c0 && existsb (N.eqb c0) (z ++ y))) u = true).
    { intros y u Hu z. rewrite forallb_forall in *. intros a Ha.
      specialize (Hu a Ha). cbv beta in *.
      apply orb_true_iff in Hu as [Hu|Hu]; [now rewrite Hu|].
      apply andb_true_iff in Hu as [Hu1 Hu2].
      apply orb_true_iff. right. apply andb_true_iff. split; [exact Hu1|].
      rewrite existsb_app. apply orb_true_iff. right. exact Hu2. }
    assert (V : forall (u : jstring) y, forallb escapeUnit u = true ->
              forallb (fun c0 => escapeUnit c0
               || (isUnreserved c0 && existsb (N.eqb c0) y)) u = true).
    { intros u y Hu. rewrite forallb_forall in *. intros a Ha.
      cbv beta. now rewrite (Hu a Ha). }
    revert H. encode_cases c r d r'; intros H; try bind_inv.
    + cbn [forallb existsb]. rewrite N.eqb_refl.
      match goal with Hc : isUnreserved c = true |- _ => rewrite Hc end.
      rewrite orb_true_r. cbn [andb].
      exact (W r t0 (IH1 _ eq_refl) [c]).
    + rewrite forallb_app. rewrite V by apply escapeCodePoint_units.
      exact (W r' t0 (IH2 _ _ eq_refl _ ltac:(eassumption)) [c; d]).
    + rewrite forallb_app. rewrite V by apply escapeCodePoint_units.
      exact (W r t0 (IH1 _ eq_refl) [c]).
Qed.

(** Without a percent sign in the output, nothing was escaped. *)
Lemma encode_no_percent x : forall t,
  encodeURIComponent x = Ok t -> ~ In percent t ->
  t = x /\ forallb isUnreserved x = true.
Proof.
  induction x as [|c r IH1 IH2] using pair_step_ind; intros t H N.
  - injection H as <-. auto.
  - revert H. encode_cases c r d r'; intros H; try bind_inv.
    + destruct (IH1 t0 eq_refl) as [-> Hr].
      { intros Hin. apply N. now right. }
      split; [reflexivity|]. cbn [forallb].
      match goal with Hc : isUnreserved c = true |- _ => now rewrite Hc end.
    + destruct (escapeCodePoint_shape (surrogatePair c d)) as (x & y & u & S).
      rewrite S in N. exfalso. apply N. now left.
    + destruct (escapeCodePoint_shape c) as (x & y & u & S).
      rewrite S in N. exfalso. apply N. now left.
Qed.

(** Every percent sign of the input costs two more units. *)
Lemma encode_length x : forall t,
  encodeURIComponent x = Ok t ->
  length x + 2 * count_occ N.eq_dec x percent <= length t.
Proof.
  induction x as [|c r IH1 IH2] using pair_step_ind; intros t H.
  - injection H as <-. simpl. lia.
  - assert (P : isUnreserved percent = false) by reflexivity.
    revert H. encode_cases c r d r'; intros H; try bind_inv.
    + specialize (IH1 _ eq_refl). cbn [length count_occ].
      destruct (N.eq_dec c percent) as [->|]; [congruence|]. lia.
    + specialize (IH2 _ _ eq_refl _ ltac:(eassumption)).
      destruct (escapeCodePoint_shape (surrogatePair c d)) as (x & y & u & S).
      rewrite S. cbn [length count_occ app].
      rewrite length_app.
      destruct (N.eq_dec c percent) as [->|]; [discriminate|].
      destruct (N.eq_dec d percent) as [->|]; [discriminate|]. lia.
    + specialize (IH1 _ eq_refl).
      destruct (escapeCodePoint_shape c) as (x & y & u & S).
      rewrite S. cbn [length count_occ app]. rewrite length_app.
      destruct (N.eq_dec c percent); lia.
Qed.

(** *** The case mapping *)

Lemma lookupRun_some table cp l :
  lookupRun table cp = Some l ->
  exists run, In run table /\ (runFirst run <= cp <= runLast run)%N /\
              l = (runTarget run + (cp - runFirst run))%N.
Proof.
  induction table as [|[[[f la] st] t] rest IH]; [discriminate|].
  cbn [lookupRun]. destruct (inRun (f, la, st, t) cp) eqn:E.
  - intros [= <-]. exists (f, la, st, t). split; [now left|].
    unfold inRun, between in E.
    apply andb_true_iff in E as [E _]. apply andb_true_iff in E as [A B].
    apply N.leb_le in A, B. cbn. split; [lia|reflexivity].
  - intros H. destruct (IH H) as (run & I & R). exists run. split; [now right|exact R].
Qed.

Lemma lookupRun_into lo hi table cp l :
  forallb (runInto lo hi) table = true ->
  lookupRun table cp = Some l -> (lo <= l <= hi)%N.
Proof.
  intros C H. apply lookupRun_some in H as (run & I & R & ->).
  rewrite forallb_forall in C. specialize (C run I). unfold runInto in C.
  apply andb_true_iff in C as [A B]. apply N.leb_le in A, B. lia.
Qed.

Lemma lookupRun_below bound table cp :
  forallb (fun run => N.leb bound (runFirst run)) table = true ->
  (cp < bound)%N -> lookupRun table cp = None.
Proof.
  intros C H. destruct (lookupRun table cp) as [l|] eqn:E; [|reflexivity].
  apply lookupRun_some in E as (run & I & R & _).
  rewrite forallb_forall in C. specialize (C run I). apply N.leb_le in C. lia.
Qed.

Lemma lowerRuns_head : lowerRuns = (65, 90, 1, 97)%N :: tl lowerRuns.
Proof. reflexivity. Qed.

Lemma simpleLower_ascii cp : (cp < 128)%N -> simpleLower cp = asciiLower cp.
Proof.
  intros H. unfold simpleLower, asciiLower. rewrite lowerRuns_head.
  cbn [lookupRun inRun]. rewrite N.mod_1_r. cbn [N.eqb]. rewrite andb_true_r.
  destruct (between 65 90 cp) eqn:B.
  - unfold between in B. apply andb_true_iff in B as [A _]. apply N.leb_le in A. lia.
  - rewrite (lookupRun_below 128); [reflexivity| now vm_compute |exact H].
Qed.

Lemma simpleLower_not_upper cp : between 65 90 (simpleLower cp) = false.
Proof.
  unfold simpleLower. destruct (lookupRun lowerRuns cp) as [l|] eqn:E.
  - apply (lookupRun_into 97 1114111) in E; [|now vm_compute].
    unfold between. apply andb_false_iff. right. apply N.leb_gt. lia.
  - destruct (between 65 90 cp) eqn:B; [|reflexivity].
    rewrite lowerRuns_head in E. cbn [lookupRun inRun] in E.
    rewrite B, N.mod_1_r in E. discriminate.
Qed.

Lemma lookupRun_checked (check : N * N * N * N -> bool) table cp l :
  forallb check table = true ->
  lookupRun table cp = Some l ->
  exists run, check run = true /\ (runFirst run <= cp <= runLast run)%N /\
              l = (runTarget run + (cp - runFirst run))%N.
Proof.
  intros C H. apply lookupRun_some in H as (run & I & R).
  rewrite forallb_forall in C. eauto.
Qed.

Lemma simpleLower_surrogate cp :
  isSurrogate cp = false -> isSurrogate (simpleLower cp) = false.
Proof.
  intros S. unfold simpleLower.
  destruct (lookupRun lowerRuns cp) as [l|] eqn:E; [|exact S].
  apply (lookupRun_checked runNoSurrogate) in E as (run & C & R & ->);
    [|now vm_compute].
  unfold runNoSurrogate in C. class_props. lia.
Qed.

Lemma simpleLower_bmp cp : (cp < 65536)%N -> (simpleLower cp < 65536)%N.
Proof.
  intros S. unfold simpleLower.
  destruct (lookupRun lowerRuns cp) as [l|] eqn:E; [|exact S].
  apply (lookupRun_checked runKeepsBmp) in E as (run & C & R & ->);
    [|now vm_compute].
  unfold runKeepsBmp in C. rewrite orb_true_iff, N.leb_le, N.ltb_lt in C. lia.
Qed.

Lemma simpleLower_bound cp : (cp < 1114112)%N -> (simpleLower cp < 1114112)%N.
Proof.
  intros S. unfold simpleLower.
  destruct (lookupRun lowerRuns cp) as [l|] eqn:E; [|exact S].
  apply (lookupRun_into 97 1114111) in E; [lia | now vm_compute].
Qed.

Lemma surrogatePair_range c d :
  isLeadSurrogate c = true -> isTrailSurrogate d = true ->
  (65536 <= surrogatePair c d < 2097152)%N.
Proof. intros L T. unfold surrogatePair. class_props. lia. Qed.

Lemma codePoints_cons c r :
  isLeadSurrogate c = false -> codePoints (c :: r) = c :: codePoints r.
Proof. intros H. cbn [codePoints]. rewrite H. now destruct r. Qed.

Lemma codePoints_plain s :
  forallb (fun c => negb (isSurrogate c)) s = true -> codePoints s = s.
Proof.
  induction s as [|c r IH]; [reflexivity|].
  cbn [forallb]. intros H. apply andb_true_iff in H as [Hc Hr].
  apply negb_true_iff in Hc. unfold isSurrogate in Hc.
  apply orb_false_iff in Hc as [L _].
  now rewrite codePoints_cons, IH.
Qed.

Lemma codePoints_bound s :
  sixteenBit s = true -> Forall (fun cp => (cp < 1114112)%N) (codePoints s).
Proof.
  unfold sixteenBit.
  induction s as [|c r IH1 IH2] using pair_step_ind; [constructor|].
  cbn [forallb]. intros H. apply andb_true_iff in H as [Hc Hr].
  apply N.ltb_lt in Hc. cbn [codePoints].
  destruct r as [|d r']; [repeat constructor; lia|].
  destruct (isLeadSurrogate c && isTrailSurrogate d) eqn:E.
  - cbn [forallb] in Hr. apply andb_true_iff in Hr as [_ Hr'].
    constructor; [|eapply IH2; eauto].
    apply andb_true_iff in E as [L T]. unfold surrogatePair. class_props. lia.
  - constructor; [lia | now apply IH1].
Qed.

(** *** The mapping *)

Lemma lowerFrom_In cps : forall before x,
  In x (lowerFrom before cps) ->
  x = 962%N \/ x = 105%N \/ x = 775%N \/
  exists cp, In cp cps /\ x = simpleLower cp.
Proof.
  induction cps as [|cp after IH]; intros before x H; [destruct H|].
  cbn [lowerFrom] in H. apply in_app_or in H as [H|H].
  - unfold lowerCodePoint in H.
    destruct (N.eqb cp 931 && finalSigma before after).
    { destruct H as [<-|[]]. now left. }
    destruct (N.eqb cp 304).
    { destruct H as [<-|[<-|[]]]; auto. }
    destruct H as [<-|[]]. right. right. right. exists cp. split; [now left|reflexivity].
  - apply IH in H as [H|[H|[H|(c & I & E)]]]; auto.
    right. right. right. exists c. split; [now right|exact E].
Qed.

Lemma lowerFrom_all (P : N -> Prop) cps before :
  P 962%N -> P 105%N -> P 775%N ->
  (forall cp, In cp cps -> P (simpleLower cp)) ->
  Forall P (lowerFrom before cps).
Proof.
  intros A B C D. apply Forall_forall. intros x H.
  apply lowerFrom_In in H as [->|[->|[->|(cp & I & ->)]]]; auto.
Qed.

Lemma codeUnits_In cp c :
  In c (codeUnits cp) ->
  (c = cp /\ (cp < 65536 \/ 1114112 <= cp)%N) \/
  (isSurrogate c = true /\ (65536 <= cp < 1114112)%N).
Proof.
  unfold codeUnits.
  destruct (N.ltb_spec cp 65536); [intros [<-|[]]; left; split; [reflexivity|lia]|].
  destruct (N.ltb_spec cp 1114112); [|intros [<-|[]]; left; split; [reflexivity|lia]].
  assert ((cp - 65536) / 1024 < 1024)%N by (apply N.Div0.div_lt_upper_bound; lia).
  pose proof (N.mod_lt (cp - 65536) 1024 ltac:(lia)).
  set (q := ((cp - 65536) / 1024)%N) in *. set (m := ((cp - 65536) mod 1024)%N) in *.
  clearbody q m.
  intros [<-|[<-|[]]]; right; (split; [|lia]); class_props; lia.
Qed.

(** No capital letter of the Basic Latin block is left. *)
Lemma toLowerCase_not_upper s c :
  In c (toLowerCase s) -> between 65 90 c = false.
Proof.
  unfold toLowerCase, fromCodePoints. intros H.
  apply in_flat_map in H as (x & Hx & Hc).
  apply codeUnits_In in Hc as [[-> _]|[S _]].
  - apply lowerFrom_In in Hx as [->|[->|[->|(cp & _ & ->)]]];
      try reflexivity. apply simpleLower_not_upper.
  - class_props. lia.
Qed.

Lemma fromCodePoints_bmp cps :
  Forall (fun cp => (cp < 65536)%N) cps -> fromCodePoints cps = cps.
Proof.
  induction 1 as [|cp cps H _ IH]; [reflexivity|].
  unfold fromCodePoints in *. cbn [flat_map]. rewrite IH.
  unfold codeUnits. apply N.ltb_lt in H. now rewrite H.
Qed.

Lemma lowerFrom_ascii cps : forall before,
  Forall (fun cp => (cp < 128)%N) cps ->
  lowerFrom before cps = map asciiLower cps.
Proof.
  induction cps as [|cp after IH]; intros before H; [reflexivity|].
  inversion_clear H as [|? ? Hc Ha]. cbn [lowerFrom map].
  rewrite (IH _ Ha). unfold lowerCodePoint.
  destruct (N.eqb_spec cp 931); [lia|]. destruct (N.eqb_spec cp 304); [lia|].
  cbn [andb app]. now rewrite simpleLower_ascii.
Qed.

Lemma asciiLower_bound c : (c < 128)%N -> (asciiLower c < 128)%N.
Proof.
  unfold asciiLower, between. intros H.
  destruct (N.leb_spec 65 c); destruct (N.leb_spec c 90); cbn [andb]; lia.
Qed.

(** On ASCII text only the letters A-Z change. *)
Lemma toLowerCase_ascii t :
  Forall (fun c => (c < 128)%N) t -> toLowerCase t = map asciiLower t.
Proof.
  intros H. unfold toLowerCase.
  rewrite codePoints_plain.
  - rewrite (lowerFrom_ascii _ _ H). apply fromCodePoints_bmp.
    apply Forall_forall. intros x Hx. apply in_map_iff in Hx as (c & <- & Hc).
    rewrite Forall_forall in H. specialize (H c Hc).
    apply asciiLower_bound in H. lia.
  - apply forallb_forall. intros c Hc. rewrite Forall_forall in H.
    specialize (H c Hc). apply negb_true_iff. class_props. lia.
Qed.

Lemma toLowerCase_sixteenBit s :
  sixteenBit s = true -> sixteenBit (toLowerCase s) = true.
Proof.
  intros H. apply codePoints_bound in H.
  unfold sixteenBit, toLowerCase, fromCodePoints.
  apply forallb_forall. intros c Hc. apply N.ltb_lt.
  apply in_flat_map in Hc as (x & Hx & Hc).
  assert (B : (x < 1114112)%N).
  { rewrite Forall_forall in H.
    apply lowerFrom_In in Hx as [->|[->|[->|(cp & I & ->)]]]; try lia.
    apply simpleLower_bound. auto. }
  apply codeUnits_In in Hc as [[-> R]|[S _]]; [lia|].
  class_props. lia.
Qed.

(** *** Well-formed strings *)

Lemma wellFormed_codeUnits cp r :
  isSurrogate cp = false -> wellFormed (codeUnits cp ++ r) = wellFormed r.
Proof.
  intros S. unfold codeUnits.
  destruct (N.ltb_spec cp 65536).
  { cbn [app wellFormed]. unfold isSurrogate in S.
    apply orb_false_iff in S as [L T]. now rewrite L, T. }
  destruct (N.ltb_spec cp 1114112).
  - assert ((cp - 65536) / 1024 < 1024)%N by (apply N.Div0.div_lt_upper_bound; lia).
    pose proof (N.mod_lt (cp - 65536) 1024 ltac:(lia)).
    set (q := ((cp - 65536) / 1024)%N) in *. set (m := ((cp - 65536) mod 1024)%N) in *.
    clearbody q m. cbn [app wellFormed].
    assert (isTrailSurrogate (55296 + q)%N = false) as -> by (class_props; lia).
    assert (isLeadSurrogate (55296 + q)%N = true) as -> by (class_props; lia).
    assert (isTrailSurrogate (56320 + m)%N = true) as -> by (class_props; lia).
    reflexivity.
  - cbn [app wellFormed]. unfold isSurrogate in S.
    apply orb_false_iff in S as [L T]. now rewrite L, T.
Qed.

Lemma wellFormed_fromCodePoints cps :
  Forall (fun cp => isSurrogate cp = false) cps ->
  wellFormed (fromCodePoints cps) = true.
Proof.
  induction 1 as [|cp cps H _ IH]; [reflexivity|].
  unfold fromCodePoints in *. cbn [flat_map]. now rewrite wellFormed_codeUnits.
Qed.

(** Lower-casing a text without surrogates leaves no lone surrogate. *)
Lemma toLowerCase_wellFormed s :
  forallb (fun c => negb (isSurrogate c)) s = true ->
  wellFormed (toLowerCase s) = true.
Proof.
  intros H. unfold toLowerCase. rewrite (codePoints_plain _ H).
  apply wellFormed_fromCodePoints, lowerFrom_all; try reflexivity.
  intros cp Hc. apply simpleLower_surrogate.
  rewrite forallb_forall in H. now apply negb_true_iff, H.
Qed.

(** *** The normal form behind a slug *)

Lemma slugify_normalise s : slugify s = encodeURIComponent (normalise s).
Proof. reflexivity. Qed.

Lemma dropWhile_incl p s c : In c (dropWhile p s) -> In c s.
Proof.
  induction s as [|d r IH]; simpl; [tauto|].
  destruct (p d); simpl; tauto.
Qed.

Lemma replaceClassG_units cls greedy rep s c :
  In c (replaceClassG cls greedy rep s) ->
  In c rep \/ (In c s /\ cls c = false).
Proof.
  remember (length s) as n eqn:Hn. revert s Hn.
  induction n as [n IH] using lt_wf_ind. intros s Hn.
  destruct s as [|d r]; [now simp replaceClassG|].
  rewrite replaceClassG_cons. simpl in Hn.
  destruct (cls d) eqn:Hd.
  - intros H. apply in_app_or in H as [H|H]; [now left|].
    destruct greedy.
    + apply IH with (m := length (dropWhile cls r)) in H;
        [| pose proof (dropWhile_le cls r); lia | reflexivity].
      destruct H as [H|[H1 H2]]; [now left|].
      right. split; [|assumption]. right. eapply dropWhile_incl; eauto.
    + apply IH with (m := length r) in H; [| lia | reflexivity].
      destruct H as [H|[H1 H2]]; [now left|]. right. split; [now right|assumption].
  - intros [<-|H]; [right; split; [now left|assumption]|].
    apply IH with (m := length r) in H; [| lia | reflexivity].
    destruct H as [H|[H1 H2]]; [now left|]. right. split; [now right|assumption].
Qed.

Lemma normalise_units s c :
  In c (normalise s) ->
  isPeriod c = false /\ between 65 90 c = false /\ isWhiteSpace c = false.
Proof.
  unfold normalise. intros H.
  apply replaceClassG_units in H as [H|[H Hw]].
  - destruct H as [<-|[]]. repeat split; reflexivity.
  - apply replaceClassG_units in H as [[]|[H Hp]].
    repeat split; eauto using toLowerCase_not_upper.
Qed.

Lemma trim_none s :
  forallb (fun c => negb (isWhiteSpace c)) s = true -> trim s = s.
Proof.
  intros H. unfold trim, trimStart, trimEnd.
  rewrite (dropWhile_none _ _ H).
  rewrite dropWhile_none; [apply rev_involutive|].
  rewrite forallb_forall in *. intros c Hc. apply H. now apply in_rev.
Qed.

Lemma plainUnit_props c :
  plainUnit c = true ->
  isUnreserved c = true /\ isPeriod c = false /\ isWhiteSpace c = false
  /\ (c < 128)%N /\ asciiLower c = c.
Proof.
  unfold plainUnit. intros H.
  apply andb_true_iff in H as [H U]. apply andb_true_iff in H as [R P].
  apply negb_true_iff in U, P.
  repeat split; auto using unreserved_not_space.
  - class_props. lia.
  - unfold asciiLower. now rewrite U.
Qed.

(** A string of plain units is its own normal form and its own slug. *)
Lemma normalise_plain t : forallb plainUnit t = true -> normalise t = t.
Proof.
  intros H. rewrite forallb_forall in H. unfold normalise.
  assert (L : toLowerCase t = t).
  { rewrite toLowerCase_ascii.
    - rewrite <- (map_id t) at 2. apply map_ext_in.
      intros c Hc. now apply plainUnit_props, H.
    - apply Forall_forall. intros c Hc. now apply plainUnit_props, H. }
  rewrite trim_none, L.
  - rewrite (replaceClassG_none isPeriod).
    + apply replaceClassG_none. apply forallb_forall. intros c Hc.
      apply negb_true_iff. now apply plainUnit_props, H.
    + apply forallb_forall. intros c Hc.
      apply negb_true_iff. now apply plainUnit_props, H.
  - apply forallb_forall. intros c Hc.
    apply negb_true_iff. now apply plainUnit_props, H.
Qed.

Lemma asciiLower_keeps c :
  isWhiteSpace c = false -> isPeriod c = false ->
  isWhiteSpace (asciiLower c) = false /\ isPeriod (asciiLower c) = false.
Proof.
  intros W P. unfold asciiLower.
  destruct (between 65 90 c) eqn:E; [|auto].
  split; class_props; lia.
Qed.

(** On an ASCII string without white space and periods only the case
    mapping acts, letter by letter. *)
Lemma normalise_solid t :
  Forall (fun c => (c < 128)%N) t ->
  forallb (fun c => negb (isWhiteSpace c) && negb (isPeriod c)) t = true ->
  normalise t = map asciiLower t.
Proof.
  intros A H. rewrite forallb_forall in H. unfold normalise.
  assert (K : forall c, In c t -> isWhiteSpace c = false /\ isPeriod c = false).
  { intros c Hc. specialize (H c Hc). apply andb_true_iff in H as [X Y].
    now apply negb_true_iff in X, Y. }
  rewrite trim_none.
  - rewrite (toLowerCase_ascii _ A), (replaceClassG_none isPeriod).
    + apply replaceClassG_none. apply forallb_forall. intros c Hc.
      apply in_map_iff in Hc as (a & <- & Ha).
      apply negb_true_iff. destruct (K a Ha). now apply asciiLower_keeps.
    + apply forallb_forall. intros c Hc.
      apply in_map_iff in Hc as (a & <- & Ha).
      apply negb_true_iff. destruct (K a Ha). now apply asciiLower_keeps.
  - apply forallb_forall. intros c Hc. apply negb_true_iff. now apply K.
Qed.

Lemma slug_solid s t :
  slugify s = Ok t ->
  forallb (fun c => negb (isWhiteSpace c) && negb (isPeriod c)) t = true.
Proof.
  rewrite slugify_normalise. intros H. apply encode_units in H.
  rewrite forallb_forall in *. intros c Hc. specialize (H c Hc). cbv beta in H.
  apply orb_true_iff in H as [H|H].
  - unfold escapeUnit in H. apply orb_true_iff in H as [H|H].
    + apply N.eqb_eq in H. subst c. reflexivity.
    + apply andb_true_iff in H as [U P]. rewrite P.
      now rewrite (unreserved_not_space _ U).
  - apply andb_true_iff in H as [U E].
    apply existsb_exists in E as (a & Ha & Eq). apply N.eqb_eq in Eq. subst a.
    destruct (normalise_units _ _ Ha) as (P & _ & W). now rewrite P, W.
Qed.

Lemma slug_units s t : slugify s = Ok t -> forallb slugUnit t = true.
Proof.
  intros H. pose proof (slug_solid _ _ H) as Solid.
  rewrite slugify_normalise in H. apply encode_units in H.
  rewrite forallb_forall in *. intros c Hc.
  specialize (H c Hc). specialize (Solid c Hc). cbv beta in *.
  apply andb_true_iff in Solid as [_ P]. apply negb_true_iff in P.
  assert (U : c = percent \/ isUnreserved c = true).
  { apply orb_true_iff in H as [H|H].
    - unfold escapeUnit in H. apply orb_true_iff in H as [H|H].
      + left. now apply N.eqb_eq.
      + right. now apply andb_true_iff in H as [H _].
    - right. now apply andb_true_iff in H as [H _]. }
  destruct U as [->|U]; [reflexivity|].
  unfold slugUnit. unfold isUnreserved in U. unfold isPeriod in P.
  rewrite !orb_true_iff in *. rewrite P in U.
  intuition (auto; discriminate).
Qed.

Lemma slugUnit_ascii c : slugUnit c = true -> (c < 128)%N.
Proof. unfold slugUnit. intros H. class_props. lia. Qed.

(** *** The pipeline of the specification *)

Lemma isWhiteSpace_isSpace c : isWhiteSpace c = isSpace c.
Proof.
  apply eq_true_iff_eq. unfold isSpace, whiteSpaceUnits. cbn [existsb].
  rewrite orb_false_r. class_props. lia.
Qed.

Lemma stripStart_trimStart s : stripStart s = trimStart s.
Proof.
  unfold trimStart. induction s as [|c r IH]; [reflexivity|].
  cbn [stripStart dropWhile]. rewrite <- isWhiteSpace_isSpace, IH. reflexivity.
Qed.

Lemma dropWhile_nil p l : dropWhile p l = [] -> forallb p l = true.
Proof.
  induction l as [|c r IH]; [reflexivity|].
  cbn [dropWhile forallb]. destruct (p c); [exact IH | discriminate].
Qed.

Lemma trimEnd_cons c r :
  trimEnd (c :: r) =
  match trimEnd r with
  | [] => if isWhiteSpace c then [] else [c]
  | t => c :: t
  end.
Proof.
  unfold trimEnd. cbn [rev]. rewrite dropWhile_app.
  destruct (forallb isWhiteSpace (rev r)) eqn:E.
  - rewrite (dropWhile_all _ _ E). cbn [rev dropWhile].
    now destruct (isWhiteSpace c).
  - rewrite rev_app_distr. cbn [rev app].
    destruct (dropWhile isWhiteSpace (rev r)) as [|d l] eqn:D.
    + apply dropWhile_nil in D. congruence.
    + destruct (rev (d :: l)) eqn:R; [|reflexivity].
      apply (f_equal (@length _)) in R. rewrite length_rev in R. discriminate.
Qed.

Lemma stripEnd_trimEnd s : stripEnd s = trimEnd s.
Proof.
  induction s as [|c r IH]; [reflexivity|].
  cbn [stripEnd]. now rewrite trimEnd_cons, IH, isWhiteSpace_isSpace.
Qed.

Lemma specTrim_trim s : specTrim s = trim s.
Proof.
  unfold specTrim, trim. now rewrite stripStart_trimStart, stripEnd_trimEnd.
Qed.

(** The encoder of the script, which walks the code units, escapes the
    characters of the text. *)
Lemma encode_percentEncode s : encodeURIComponent s = specEncode s.
Proof.
  unfold specEncode.
  induction s as [|c r IH1 IH2] using pair_step_ind; [reflexivity|].
  cbn [encodeURIComponent].
  destruct (isUnreserved c) eqn:U.
  { rewrite codePoints_cons by (class_props; lia).
    cbn [percentEncode]. now rewrite U, IH1. }
  destruct (isTrailSurrogate c) eqn:T.
  { rewrite codePoints_cons by (class_props; lia).
    cbn [percentEncode]. unfold isSurrogate. now rewrite U, T, orb_true_r. }
  destruct (isLeadSurrogate c) eqn:L.
  - destruct r as [|d r'].
    + cbn [codePoints percentEncode]. unfold isSurrogate. now rewrite U, L.
    + cbn [codePoints]. rewrite L. cbn [andb].
      destruct (isTrailSurrogate d) eqn:Td.
      * cbn [percentEncode].
        pose proof (surrogatePair_range c d L Td) as R.
        assert (isUnreserved (surrogatePair c d) = false) as ->
          by (class_props; lia).
        assert (isSurrogate (surrogatePair c d) = false) as ->
          by (class_props; lia).
        now rewrite (IH2 _ _ eq_refl).
      * cbn [percentEncode]. unfold isSurrogate. now rewrite U, L.
  - rewrite codePoints_cons by exact L.
    cbn [percentEncode]. unfold isSurrogate. now rewrite U, L, T, IH1.
Qed.

(** ** The slug function *)

(** C2: for every string, [slugify] returns what the pipeline of the
    specification returns: trim the surrounding white space, lowercase,
    remove every period, replace each maximal run of white space with one
    hyphen, percent-encode as [encodeURIComponent] does (which raises on a
    lone surrogate in both).  The runs of the pipeline are the maximal ones:
    they partition the string, each is non-empty and of one class, and
    neighbours differ in class.  Lower-casing is the case mapping of the
    host: on ASCII text it changes the letters A to Z and nothing else;
    beyond ASCII it maps capitals of every script, one code point to two
    code units where Unicode says so, sigma by its position in the word and
    a surrogate pair as one character.  The slugs of three sample texts are
    those the script computes. *)
Theorem slugify_is_pipeline :
  (forall s, slugify s = specSlug s) /\
  (forall s,
     flat_map snd (runs isWhiteSpace s) = s /\
     Forall (fun r => snd r <> [] /\
                      Forall (fun c => isWhiteSpace c = fst r) (snd r))
            (runs isWhiteSpace s) /\
     alternating (runs isWhiteSpace s)) /\
  (forall t, Forall (fun c => (c < 128)%N) t ->
     toLowerCase t = map asciiLower t) /\
  toLowerCase [381; 937; 8490; 304; 55297; 56320]%N
    = [382; 969; 107; 105; 775; 55297; 56360]%N /\
  toLowerCase [927; 916; 927; 931; 32; 931]%N
    = [959; 948; 959; 962; 32; 963]%N /\
  slugify (lit "  Hello World v1.0  ") = Ok (lit "hello-world-v10") /\
  slugify ([381%N] ++ lit "ivot " ++ [937%N] ++ lit "mega")
    = Ok (lit "%C5%BEivot-%CF%89mega") /\
  slugify [55357%N] = Throw URIError.
Proof.
  split; [|split; [|split; [|repeat split]]].
  - intros s. unfold slugify, specSlug, hyphenateRuns, removePeriods.
    now rewrite replace_single_filter, replace_greedy_runs,
      encode_percentEncode, specTrim_trim.
  - intros s.
    auto using runs_concat, runs_homogeneous, runs_alternating.
  - exact toLowerCase_ascii.
Qed.

Lemma slugify_is_pipeline_witness :
  slugify (lit " A.b  C ") = specSlug (lit " A.b  C ") /\
  specSlug (lit " A.b  C ") = Ok (lit "ab-c") /\
  toLowerCase (lit "Tinqer V1") = map asciiLower (lit "Tinqer V1").
Proof.
  split; [apply (proj1 slugify_is_pipeline)|]. split; [reflexivity|].
  apply (proj1 (proj2 (proj2 slugify_is_pipeline))).
  repeat constructor.
Defined.

Example slugify_hello :
  slugify (lit "  Hello World v1.0  ") = Ok (lit "hello-world-v10").
Proof. reflexivity. Qed.

Example slugify_query :
  slugify (lit "What? Why") = Ok (lit "what%3F-why").
Proof. reflexivity. Qed.

Example slugify_percent : slugify (lit "%") = Ok (lit "%25").
Proof. reflexivity. Qed.

Example slugify_percent_again : slugify (lit "%25") = Ok (lit "%2525").
Proof. reflexivity. Qed.

(** C3 as the specification states it fails: the slug of the slug of a
    percent sign is not the slug of the percent sign. *)
Lemma slugify_not_idempotent :
  slugify (lit "%") = Ok (lit "%25") /\
  slugify (lit "%25") = Ok (lit "%2525") /\
  lit "%25" <> lit "%2525".
Proof. repeat split. discriminate. Qed.

(** C3, amended: [slugify] is deterministic, and a slug is its own slug
    exactly when it holds no percent escape. *)
Theorem slugify_reapplied :
  (forall s r1 r2, slugify s = r1 -> slugify s = r2 -> r1 = r2) /\
  (forall s t, slugify s = Ok t -> (slugify t = Ok t <-> ~ In percent t)).
Proof.
  split; [congruence|].
  intros s t Hs. split.
  - intros Ht Hin.
    pose proof (slug_solid _ _ Hs) as Solid.
    assert (A : Forall (fun c => (c < 128)%N) t).
    { apply Forall_forall. intros c Hc. apply slugUnit_ascii.
      pose proof (slug_units _ _ Hs) as U. rewrite forallb_forall in U. auto. }
    rewrite slugify_normalise, (normalise_solid _ A Solid) in Ht.
    apply encode_length in Ht. rewrite length_map in Ht.
    assert (In percent (map asciiLower t)) as Hl
      by (change percent with (asciiLower percent); now apply in_map).
    apply (count_occ_In N.eq_dec) in Hl. lia.
  - intros Hn. rewrite slugify_normalise in Hs.
    destruct (encode_no_percent _ _ Hs Hn) as [-> U].
    assert (P : forallb plainUnit (normalise s) = true).
    { rewrite forallb_forall in *. intros c Hc. unfold plainUnit.
      destruct (normalise_units _ _ Hc) as (A & B & _).
      now rewrite (U c Hc), A, B. }
    rewrite slugify_normalise, (normalise_plain _ P).
    now apply encode_unreserved.
Qed.

Lemma slugify_reapplied_witness :
  slugify (lit "Getting Started") = Ok (lit "getting-started") /\
  (slugify (lit "getting-started") = Ok (lit "getting-started")
   <-> ~ In percent (lit "getting-started")).
Proof.
  split; [reflexivity|].
  apply (proj2 slugify_reapplied (lit "Getting Started")). reflexivity.
Defined.

(** ** The heading extractor *)

Lemma skipn_nth_error {A} (l : list A) i :
  skipn i l = match nth_error l i with
              | Some x => x :: skipn (S i) l
              | None => []
              end.
Proof.
  revert i. induction l as [|a l IH]; intros [|i]; try reflexivity.
  simpl. rewrite IH. reflexivity.
Qed.

Lemma nth_error_succ_skipn {A} (l : list A) i :
  nth_error l (i + 1) = hd_error (skipn (S i) l).
Proof.
  rewrite Nat.add_1_r.
  revert i. induction l as [|a l IH]; intros [|i]; try reflexivity.
  apply (IH i).
Qed.

(** The counting loop visits the tokens one after the other. *)
Lemma extractLoop_scan tokens : forall n i headings,
  i + n = length tokens ->
  extractLoop tokens n i headings = scanHeadings (skipn i tokens) headings.
Proof.
  induction n as [|n IH]; intros i headings Hn.
  - rewrite skipn_all2 by lia. reflexivity.
  - cbn [extractLoop]. rewrite skipn_nth_error.
    destruct (nth_error tokens i) as [token|] eqn:E.
    2:{ apply nth_error_None in E. lia. }
    cbn [scanHeadings]. rewrite nth_error_succ_skipn.
    destruct (isHeadingOpen token).
    + destruct (skipn (S i) tokens) as [|following rest] eqn:K; [reflexivity|].
      cbn [hd_error]. destruct (slugify (Token.content following)) as [id|e];
        [|reflexivity].
      cbn [bind]. rewrite <- K, Nat.add_1_r. apply IH. lia.
    + rewrite Nat.add_1_r. apply IH. lia.
Qed.

Lemma extractHeadings_scan tokens :
  extractHeadings tokens = scanHeadings tokens [].
Proof.
  unfold extractHeadings. now rewrite extractLoop_scan.
Qed.

Lemma encode_throws x e : encodeURIComponent x = Throw e -> e = URIError.
Proof.
  induction x as [|c r IH1 IH2] using pair_step_ind; [discriminate|].
  encode_cases c r d r'; intros H;
    try (injection H as <-; reflexivity);
    match type of H with
    | bind ?m _ = _ =>
      destruct m eqn:M; cbn [bind] in H; [discriminate|];
      injection H as <-; eauto
    end.
Qed.

Lemma slugify_throws s e : slugify s = Throw e -> e = URIError.
Proof. rewrite slugify_normalise. apply encode_throws. Qed.

Lemma pushHeading_app level content id headings :
  pushHeading level content id headings =
  headings ++ pushHeading level content id [].
Proof.
  unfold pushHeading. destruct level as [l|]; [|now rewrite app_nil_r].
  destruct (isTocLevel (Some l)); [reflexivity | now rewrite app_nil_r].
Qed.

Lemma pushHeading_view level content id :
  map headingView (pushHeading level content id []) =
  filter (fun h => isTocLevel (fst h)) [(level, content)].
Proof.
  unfold pushHeading. cbn [filter fst]. destruct level as [l|]; [|reflexivity].
  destruct (isTocLevel (Some l)); reflexivity.
Qed.

(** On a stream whose headings are followed and have slugs the scan
    succeeds, and it appends the level-2 and level-3 headings in order. *)
Lemma scanHeadings_ok tokens : forall headings,
  everyHeadingFollowed tokens = true ->
  headingsHaveSlugs tokens = true ->
  exists hs,
    scanHeadings tokens headings = Ok (headings ++ hs) /\
    map headingView hs =
      filter (fun h => isTocLevel (fst h)) (documentHeadings tokens) /\
    Forall (fun h => slugify (Heading.content h) = Ok (Heading.id h)) hs.
Proof.
  unfold headingsHaveSlugs.
  induction tokens as [|token rest IH]; intros headings F S.
  - exists []. rewrite app_nil_r. repeat split; constructor.
  - cbn [everyHeadingFollowed] in F. apply andb_true_iff in F as [F1 F2].
    cbn [scanHeadings documentHeadings] in *.
    destruct (isHeadingOpen token).
    + destruct rest as [|following rest']; [discriminate|].
      cbn [forallb snd] in S. apply andb_true_iff in S as [S1 S2].
      unfold hasSlug in S1.
      destruct (slugify (Token.content following)) as [id|] eqn:E;
        [|discriminate].
      cbn [bind].
      destruct (IH (pushHeading (parseInt (substring1 (Token.tag token)))
                      (Token.content following) id headings) F2 S2)
        as (hs & R & V & I).
      exists (pushHeading (parseInt (substring1 (Token.tag token)))
                (Token.content following) id [] ++ hs).
      split; [|split].
      * rewrite R, pushHeading_app, app_assoc. reflexivity.
      * rewrite map_app, pushHeading_view, V.
        cbn [filter fst]. now destruct (isTocLevel _).
      * apply Forall_app. split; [|assumption].
        unfold pushHeading.
        destruct (parseInt (substring1 (Token.tag token))) as [l|];
          [|constructor].
        destruct (isTocLevel (Some l)); repeat constructor. exact E.
    + apply IH; assumption.
Qed.

(** A scan that succeeds met followed headings with slugs only. *)
Lemma scanHeadings_inv tokens : forall headings out,
  scanHeadings tokens headings = Ok out ->
  everyHeadingFollowed tokens = true /\ headingsHaveSlugs tokens = true.
Proof.
  unfold headingsHaveSlugs.
  induction tokens as [|token rest IH]; intros headings out H;
    [split; reflexivity|].
  cbn [scanHeadings everyHeadingFollowed documentHeadings] in *.
  destruct (isHeadingOpen token).
  - destruct rest as [|following rest']; [discriminate|].
    destruct (slugify (Token.content following)) as [id|] eqn:E;
      [|discriminate].
    cbn [bind] in H. apply IH in H as [F S].
    cbn [forallb snd negb orb andb]. unfold hasSlug at 1. now rewrite E, F, S.
  - apply IH in H. tauto.
Qed.

(** The scan raises [TypeError] only at a heading marker that ends the
    stream. *)
Lemma scanHeadings_type_error tokens : forall headings,
  scanHeadings tokens headings = Throw TypeError ->
  everyHeadingFollowed tokens = false.
Proof.
  induction tokens as [|token rest IH]; intros headings H; [discriminate|].
  cbn [scanHeadings everyHeadingFollowed] in *.
  destruct (isHeadingOpen token).
  - destruct rest as [|following rest']; [reflexivity|].
    destruct (slugify (Token.content following)) as [id|e] eqn:E.
    + cbn [bind] in H. apply IH in H. now rewrite H, andb_false_r.
    + cbn [bind] in H. apply slugify_throws in E. congruence.
  - apply IH in H. now rewrite H, andb_false_r.
Qed.

Lemma scanHeadings_unfollowed tokens : forall headings,
  everyHeadingFollowed tokens = false ->
  exists e, scanHeadings tokens headings = Throw e.
Proof.
  intros headings F.
  destruct (scanHeadings tokens headings) as [out|e] eqn:E; [|eauto].
  apply scanHeadings_inv in E as [E _]. congruence.
Qed.

Lemma everyHeadingFollowed_last tokens token :
  isHeadingOpen token = true ->
  everyHeadingFollowed (tokens ++ [token]) = false.
Proof.
  intros H. induction tokens as [|t rest IH].
  - cbn. now rewrite H.
  - cbn [app everyHeadingFollowed]. now rewrite IH, andb_false_r.
Qed.

(** The identifiers the anchor plugin attaches are the slugs the scan
    computes. *)
Lemma scanHeadings_anchors tokens : forall headings out,
  scanHeadings tokens headings = Ok out ->
  exists hs ids,
    out = headings ++ hs /\
    markdownItAnchor slugify tokens = Ok ids /\
    (forall h, In h hs -> In (Heading.id h) ids) /\
    (onlyTocLevels tokens = true -> map Heading.id hs = ids).
Proof.
  unfold onlyTocLevels.
  induction tokens as [|token rest IH]; intros headings out H.
  - injection H as <-. exists [], []. rewrite app_nil_r.
    repeat split; auto; intros h [].
  - cbn [scanHeadings markdownItAnchor documentHeadings] in *.
    destruct (isHeadingOpen token).
    + destruct rest as [|following rest']; [discriminate|].
      destruct (slugify (Token.content following)) as [id|] eqn:E;
        [|discriminate].
      cbn [bind] in *.
      apply IH in H as (hs & ids & -> & A & I & L). rewrite A. cbn [bind].
      exists (pushHeading (parseInt (substring1 (Token.tag token)))
                (Token.content following) id [] ++ hs), (id :: ids).
      split; [|split; [reflexivity|split]].
      * now rewrite pushHeading_app, app_assoc.
      * intros h Hin. apply in_app_or in Hin as [Hin|Hin]; [|right; auto].
        left. unfold pushHeading in Hin.
        destruct (parseInt (substring1 (Token.tag token))) as [l|]; [|destruct Hin].
        destruct (isTocLevel (Some l)); [|destruct Hin].
        destruct Hin as [<-|[]]. reflexivity.
      * cbn [forallb fst]. intros T. apply andb_true_iff in T as [T1 T2].
        unfold pushHeading.
        destruct (parseInt (substring1 (Token.tag token))) as [l|];
          [|discriminate].
        rewrite T1. cbn. now rewrite (L T2).
    + apply IH in H as (hs & ids & -> & A & I & L). eauto 10.
Qed.

Lemma isTocLevel_two_or_three n :
  isTocLevel (Some n) = true <-> n = 2%Z \/ n = 3%Z.
Proof.
  unfold isTocLevel. rewrite andb_true_iff, !Z.leb_le. lia.
Qed.

Lemma filtered_levels hs views :
  map headingView hs = filter (fun h => isTocLevel (fst h)) views ->
  Forall (fun h => Heading.level h = 2%Z \/ Heading.level h = 3%Z) hs.
Proof.
  intros V. apply Forall_forall. intros h Hin.
  apply (in_map headingView) in Hin. rewrite V in Hin.
  apply filter_In in Hin as [_ T]. now apply isTocLevel_two_or_three.
Qed.

(** C4: on every token stream whose heading markers are followed and whose
    heading texts have slugs, [extractHeadings] returns; and whenever it
    returns, it returns the headings of the document whose level is 2 or 3
    and no others, in document order, each with the slug of its text. *)
Theorem extractHeadings_levels : forall tokens,
  (everyHeadingFollowed tokens = true -> headingsHaveSlugs tokens = true ->
   exists hs, extractHeadings tokens = Ok hs) /\
  (forall hs, extractHeadings tokens = Ok hs ->
     map headingView hs =
       filter (fun h => isTocLevel (fst h)) (documentHeadings tokens) /\
     Forall (fun h => Heading.level h = 2%Z \/ Heading.level h = 3%Z) hs /\
     Forall (fun h => slugify (Heading.content h) = Ok (Heading.id h)) hs).
Proof.
  intros tokens. rewrite extractHeadings_scan. split.
  - intros F S. destruct (scanHeadings_ok tokens [] F S) as (hs & R & _).
    eauto.
  - intros hs H. destruct (scanHeadings_inv _ _ _ H) as [F S].
    destruct (scanHeadings_ok tokens [] F S) as (hs' & R & V & I).
    rewrite R in H. injection H as <-. eauto using filtered_levels.
Qed.

(** C9: [extractHeadings] reads [tokens[i + 1]] unchecked.  When every
    heading marker is followed by a token the [TypeError] of that read is
    unreachable; when one is not, the call fails; a stream that ends in a
    heading marker is such a stream. *)
Theorem extractHeadings_lookahead :
  (forall tokens, everyHeadingFollowed tokens = true ->
     extractHeadings tokens <> Throw TypeError) /\
  (forall tokens, everyHeadingFollowed tokens = false ->
     exists e, extractHeadings tokens = Throw e) /\
  (forall tokens token, isHeadingOpen token = true ->
     exists e, extractHeadings (tokens ++ [token]) = Throw e) /\
  extractHeadings [Token.mk (lit "heading_open") (lit "h2") []]
    = Throw TypeError.
Proof.
  repeat split.
  - intros tokens F H. rewrite extractHeadings_scan in H.
    apply scanHeadings_type_error in H. congruence.
  - intros tokens F. rewrite extractHeadings_scan.
    now apply scanHeadings_unfollowed.
  - intros tokens token H. rewrite extractHeadings_scan.
    now apply scanHeadings_unfollowed, everyHeadingFollowed_last.
Qed.

(** ** Page furniture *)

Lemma item_in_range {A} (a : list A) i :
  (0 <= i < Z.of_nat (length a))%Z -> exists x, item a i = Some x.
Proof.
  intros H. unfold item.
  destruct (Z.ltb_spec i 0); [lia|].
  destruct (nth_error a (Z.to_nat i)) as [x|] eqn:E; [eauto|].
  apply nth_error_None in E. lia.
Qed.

Lemma prevLink_not_empty p : prevLink p <> emptySlot.
Proof. unfold prevLink, emptySlot. cbn. discriminate. Qed.

Lemma nextLink_not_empty p : nextLink p <> emptySlot.
Proof. unfold nextLink, emptySlot. cbn. discriminate. Qed.

(** C5: at every position of a manifest, the pager is the opening tag, a
    slot for the previous page, a slot for the next page and the closing
    tag; the first slot is a link to the entry before the current one
    exactly when the current index is positive, the second a link to the
    entry after it exactly when the index is below the last, and a slot
    without a link is the empty placeholder. *)
Theorem generatePageNav_slots : forall pages i,
  (0 <= i < Z.of_nat (length pages))%Z ->
  exists prevSlot nextSlot,
    generatePageNav pages i = pagerOpen ++ prevSlot ++ nextSlot ++ pagerClose /\
    ((0 < i)%Z <->
       exists p, item pages (i - 1) = Some p /\ prevSlot = prevLink p) /\
    ((i <= 0)%Z <-> prevSlot = emptySlot) /\
    ((i < Z.of_nat (length pages) - 1)%Z <->
       exists p, item pages (i + 1) = Some p /\ nextSlot = nextLink p) /\
    ((Z.of_nat (length pages) - 1 <= i)%Z <-> nextSlot = emptySlot).
Proof.
  intros pages i R. unfold generatePageNav.
  assert (P : exists prevSlot,
    (forall html,
       match (if (i >? 0)%Z then item pages (i - 1) else None) with
       | Some prev =>
         html ++ (lit "  <a href=" ++ quoted (Page.dest prev) ++ lit " class="
                    ++ quoted (lit "prev") ++ lit ">" ++ larr ++ lit " "
                    ++ Page.nav prev ++ lit "</a>" ++ nl)
       | None => html ++ (lit "  <span></span>" ++ nl)
       end = html ++ prevSlot) /\
    ((0 < i)%Z <->
       exists p, item pages (i - 1) = Some p /\ prevSlot = prevLink p) /\
    ((i <= 0)%Z <-> prevSlot = emptySlot)).
  { destruct (Z.gtb_spec i 0) as [G|G].
    - destruct (item_in_range pages (i - 1)) as [p E]; [lia|]. rewrite E.
      exists (prevLink p). split; [reflexivity|]. split; split; try lia; eauto.
      intros X. now apply prevLink_not_empty in X.
    - exists emptySlot. split; [reflexivity|]. split; split; try lia; auto.
      intros (p & _ & X). symmetry in X. now apply prevLink_not_empty in X. }
  assert (Q : exists nextSlot,
    (forall html,
       match (if (i <? Z.of_nat (length pages) - 1)%Z
              then item pages (i + 1) else None) with
       | Some next =>
         html ++ (lit "  <a href=" ++ quoted (Page.dest next) ++ lit " class="
                    ++ quoted (lit "next") ++ lit ">" ++ Page.nav next ++ lit " "
                    ++ rarr ++ lit "</a>" ++ nl)
       | None => html ++ (lit "  <span></span>" ++ nl)
       end = html ++ nextSlot) /\
    ((i < Z.of_nat (length pages) - 1)%Z <->
       exists p, item pages (i + 1) = Some p /\ nextSlot = nextLink p) /\
    ((Z.of_nat (length pages) - 1 <= i)%Z <-> nextSlot = emptySlot)).
  { destruct (Z.ltb_spec i (Z.of_nat (length pages) - 1)) as [G|G].
    - destruct (item_in_range pages (i + 1)) as [p E]; [lia|]. rewrite E.
      exists (nextLink p). split; [reflexivity|]. split; split; try lia; eauto.
      intros X. now apply nextLink_not_empty in X.
    - exists emptySlot. split; [reflexivity|]. split; split; try lia; auto.
      intros (p & _ & X). symmetry in X. now apply nextLink_not_empty in X. }
  destruct P as (prevSlot & P1 & P2 & P3).
  destruct Q as (nextSlot & Q1 & Q2 & Q3).
  exists prevSlot, nextSlot. cbv zeta. rewrite P1, Q1.
  split; [|tauto]. unfold pagerOpen, pagerClose.
  now rewrite <- !app_assoc.
Qed.

(** C10: the pager of a one-page manifest holds two empty placeholders and
    no anchor element. *)
Theorem generatePageNav_single : forall p,
  generatePageNav [p] 0 = pagerOpen ++ emptySlot ++ emptySlot ++ pagerClose /\
  occurs (lit "<a") (generatePageNav [p] 0) = false.
Proof. intros p. split; reflexivity. Qed.

(** C6: for every entry of the manifest, the breadcrumb of the first entry
    is the lone home crumb, whose text is [Home] with no separator after it,
    and the breadcrumb of every other entry is a link to the home page, a
    slash and the title, whose text is [Home / <title>]. *)
Theorem generateBreadcrumb_trail : forall i p,
  item pages i = Some p ->
  (i = 0%Z ->
     generateBreadcrumb (Page.title p) = homeCrumb /\
     textContent false (generateBreadcrumb (Page.title p)) = lit "Home") /\
  (i <> 0%Z ->
     generateBreadcrumb (Page.title p) = trailCrumb (Page.title p) /\
     textContent false (generateBreadcrumb (Page.title p))
       = lit "Home / " ++ Page.title p).
Proof.
  intros i p. unfold item. destruct (Z.ltb_spec i 0) as [|G]; [discriminate|].
  destruct (Z.to_nat i) as [|n] eqn:E.
  - intros H. injection H as <-. split; [|lia]. intros _. split; reflexivity.
  - intros H. split; [lia|]. intros _.
    do 5 (destruct n as [|n]; [injection H as <-; split; reflexivity|]).
    destruct n; discriminate.
Qed.

(** ** Table of contents *)

Lemma fold_left_append {A} (f : A -> jstring) l : forall acc,
  fold_left (fun s x => s ++ f x) l acc = acc ++ flat_map f l.
Proof.
  induction l as [|x l IH]; intros acc; cbn [fold_left flat_map].
  - now rewrite app_nil_r.
  - now rewrite IH, app_assoc.
Qed.

(** The identifiers the anchor plugin attaches are the slugs of the heading
    texts. *)
Lemma anchors_are_slugs tokens : forall ids,
  markdownItAnchor slugify tokens = Ok ids ->
  Forall2 (fun d id => slugify (snd d) = Ok id) (documentHeadings tokens) ids.
Proof.
  induction tokens as [|token rest IH]; intros ids H.
  - injection H as <-. constructor.
  - cbn [markdownItAnchor documentHeadings] in *.
    destruct (isHeadingOpen token); [|auto].
    destruct rest as [|following rest']; [injection H as <-; constructor|].
    destruct (slugify (Token.content following)) as [id|] eqn:E;
      [|discriminate].
    cbn [bind] in H.
    destruct (markdownItAnchor slugify (following :: rest')) as [ids'|] eqn:M;
      [|discriminate].
    injection H as <-. constructor; [exact E | now apply IH].
Qed.

Lemma generateTOC_entries hs : generateTOC hs = tocOf (map linkTo hs).
Proof.
  destruct hs as [|h hs]; [reflexivity|].
  unfold generateTOC. cbn [length Nat.eqb]. cbv zeta.
  rewrite fold_left_append. unfold tocOf. cbn [map].
  rewrite (flat_map_concat_map _ (map linkTo (h :: hs))), map_map,
    <- flat_map_concat_map.
  unfold tocOpen, tocClose. now rewrite <- !app_assoc.
Qed.

(** C1: the table of contents that [generateTOC] makes of the extracted
    headings has one entry per heading, in order, and the link of the entry
    is the fragment [#id] of the heading's identifier.  That identifier is
    [slugify] of the heading text, and so is the identifier the anchor
    plugin attaches to the heading in the rendered page: every link target
    is the identifier of a rendered heading.  When all headings of the
    document are of level 2 or 3 the entries are the headings of the
    document, and their identifiers are the identifiers of the rendered
    headings, one for one and in order. *)
Theorem toc_links_resolve : forall tokens hs,
  extractHeadings tokens = Ok hs ->
  exists ids,
    renderedHeadingIds tokens = Ok ids /\
    Forall2 (fun d id => slugify (snd d) = Ok id) (documentHeadings tokens) ids /\
    generateTOC hs = tocOf (map linkTo hs) /\
    (forall h, In h hs ->
       slugify (Heading.content h) = Ok (Heading.id h) /\
       In (Heading.id h) ids) /\
    (onlyTocLevels tokens = true ->
       map headingView hs = documentHeadings tokens /\
       map Heading.id hs = ids).
Proof.
  intros tokens hs H. rewrite extractHeadings_scan in H.
  destruct (scanHeadings_inv _ _ _ H) as [F S].
  destruct (scanHeadings_ok tokens [] F S) as (hs' & R & V & I).
  rewrite R in H. injection H as <-.
  destruct (scanHeadings_anchors _ _ _ R) as (hs2 & ids & E & A & In' & L).
  cbn [app] in E. subst hs2. exists ids.
  split; [exact A|]. split; [now apply anchors_are_slugs|].
  split; [apply generateTOC_entries|]. split.
  - intros h Hin. rewrite Forall_forall in I. auto.
  - intros T. split; [|auto]. rewrite V.
    unfold onlyTocLevels in T. rewrite forallb_forall in T.
    apply forallb_filter_id. now apply forallb_forall.
Qed.

(** C8: [generateTOC] returns the empty string for no headings; for one or
    more it returns the opening markup, one list item per heading in order
    and the closing markup.  An item is a function of its heading alone: a
    link to [#id] around the heading text, in a list element that carries
    the sub-item class exactly when the level is 3.  A level-3 heading
    ahead of every level-2 heading is an item like any other. *)
Theorem generateTOC_flat :
  generateTOC [] = [] /\
  (forall h hs,
     generateTOC (h :: hs) = tocOpen ++ flat_map tocItem (h :: hs) ++ tocClose) /\
  (forall h,
     tocItem h =
       lit "  <li" ++ (if (Heading.level h =? 3)%Z then subItemClass else [])
         ++ lit "><a href=" ++ quoted (tocTarget h) ++ lit ">"
         ++ Heading.content h ++ lit "</a></li>" ++ nl) /\
  (forall h,
     isPrefix (lit "  <li" ++ subItemClass) (tocItem h) = true
     <-> Heading.level h = 3%Z) /\
  (forall sub top,
     generateTOC [sub; top] = tocOpen ++ tocItem sub ++ tocItem top ++ tocClose).
Proof.
  assert (G : forall h hs,
    generateTOC (h :: hs) = tocOpen ++ flat_map tocItem (h :: hs) ++ tocClose).
  { intros h hs. unfold generateTOC. cbn [length Nat.eqb]. cbv zeta.
    rewrite fold_left_append. unfold tocOpen, tocClose.
    now rewrite <- !app_assoc. }
  split; [reflexivity|]. split; [exact G|]. split; [reflexivity|]. split.
  - intros h. unfold tocItem. cbv zeta.
    destruct (Z.eqb_spec (Heading.level h) 3) as [E|E].
    + split; [intros _; exact E | intros _; reflexivity].
    + split; [intros H; cbn in H; discriminate | intros H; contradiction].
  - intros sub top. rewrite G. cbn [flat_map].
    now rewrite app_nil_r, <- !app_assoc.
Qed.

(** ** Template composition *)

Lemma isPrefix_split pat s :
  isPrefix pat s = true -> s = pat ++ skipn (length pat) s.
Proof.
  revert s. induction pat as [|x pat IH]; intros s H; [reflexivity|].
  destruct s as [|y s]; [discriminate|].
  cbn [isPrefix] in H. apply andb_true_iff in H as [E H].
  apply N.eqb_eq in E. subst y. cbn [length skipn app].
  now rewrite <- IH.
Qed.

Lemma indexOf_first pat s : forall p,
  indexOf pat s = Some p ->
  isPrefix pat (skipn p s) = true /\
  (forall q, q < p -> isPrefix pat (skipn q s) = false).
Proof.
  induction s as [|c r IH]; intros p H.
  - cbn [indexOf] in H. destruct (isPrefix pat []) eqn:E; [|discriminate].
    injection H as <-. split; [exact E | lia].
  - cbn [indexOf] in H. destruct (isPrefix pat (c :: r)) eqn:E.
    + injection H as <-. split; [exact E | lia].
    + destruct (indexOf pat r) as [p'|]; [|discriminate].
      injection H as <-. destruct (IH p' eq_refl) as [A B].
      split; [exact A|]. intros [|q] Hq; [exact E|]. apply B. lia.
Qed.

Lemma getSubstitution_plain matched before after frag :
  ~ In 36%N frag -> getSubstitution matched before after frag = frag.
Proof.
  induction frag as [|c r IH]; intros H; [reflexivity|].
  cbn [getSubstitution].
  destruct (N.eqb_spec c 36) as [->|_]; [exfalso; apply H; now left|].
  rewrite IH; [reflexivity|]. intros X. apply H. now right.
Qed.

Lemma compose_app html xs ys :
  compose html (xs ++ ys) = compose (compose html xs) ys.
Proof. apply fold_left_app. Qed.

(** C7 as the specification states it fails: a template without the body
    placeholder still receives the body when the table of contents,
    substituted one step earlier, carries the placeholder token in a
    heading text. *)
Lemma absent_placeholder_filled :
  indexOf (lit "{{CONTENT}}") (lit "<main>{{TOC}}</main>") = None /\
  buildPage (lit "<main>{{TOC}}</main>") placeholderDocument
    (lit "<p>body</p>") guidePage 1
  = Ok (lit "<main>" ++ tocOpen
          ++ lit "  <li><a href=" ++ quoted (lit "#%7B%7Bcontent%7D%7D")
          ++ lit "><p>body</p></a></li>" ++ nl
          ++ tocClose ++ lit "</main>") /\
  buildPage (lit "<main>{{TOC}}</main>") placeholderDocument
    (lit "<p>body</p>") guidePage 1
  <> Ok (lit "<main>" ++ tocOpen
          ++ lit "  <li><a href=" ++ quoted (lit "#%7B%7Bcontent%7D%7D")
          ++ lit ">{{CONTENT}}</a></li>" ++ nl
          ++ tocClose ++ lit "</main>").
Proof.
  split; [reflexivity|]. split; [reflexivity|].
  intros H. vm_compute in H. discriminate H.
Qed.

(** C7, amended: a replacement rewrites the first occurrence of its
    placeholder in the text it is applied to and nothing else; when the
    placeholder does not occur in that text, which is the template after
    the earlier replacements, the text is returned as it is, the fragment
    is dropped and the later replacements go ahead.  The composition
    itself raises nothing. *)
Theorem replace_first_or_drop :
  (forall html tok frag,
     indexOf tok html = None -> replace html tok frag = html) /\
  (forall html tok frag p,
     indexOf tok html = Some p ->
     html = firstn p html ++ tok ++ skipn (p + length tok) html /\
     (forall q, q < p -> isPrefix tok (skipn q html) = false) /\
     replace html tok frag =
       firstn p html
         ++ getSubstitution tok (firstn p html) (skipn (p + length tok) html) frag
         ++ skipn (p + length tok) html /\
     (~ In 36%N frag ->
      replace html tok frag =
        firstn p html ++ frag ++ skipn (p + length tok) html)) /\
  (forall template done tok frag rest,
     indexOf tok (compose template done) = None ->
     compose template (done ++ (tok, frag) :: rest)
       = compose template (done ++ rest)) /\
  (forall template tokens content page index hs,
     extractHeadings tokens = Ok hs ->
     buildPage template tokens content page index
       = Ok (compose template (pageSteps (generateTOC hs) content page index))).
Proof.
  split; [|split; [|split]].
  - intros html tok frag H. unfold replace. now rewrite H.
  - intros html tok frag p H.
    destruct (indexOf_first _ _ _ H) as [A B].
    assert (R : replace html tok frag =
      firstn p html
        ++ getSubstitution tok (firstn p html) (skipn (p + length tok) html) frag
        ++ skipn (p + length tok) html)
      by (unfold replace; now rewrite H).
    repeat split; auto.
    + apply isPrefix_split in A. rewrite skipn_skipn in A.
      rewrite (Nat.add_comm p), <- A. symmetry. apply firstn_skipn.
    + intros D. now rewrite R, getSubstitution_plain.
  - intros template done tok frag rest H.
    rewrite !compose_app. cbn [compose fold_left fst snd].
    fold (compose (replace (compose template done) tok frag) rest).
    unfold replace. now rewrite H.
  - intros template tokens content page index hs H.
    unfold buildPage. rewrite H. reflexivity.
Qed.

(** ** The claims at concrete inputs *)

Example extractHeadings_sample : extractHeadings sampleDocument = Ok sampleHeadings.
Proof. reflexivity. Qed.

Lemma toc_links_resolve_witness :
  extractHeadings sampleSections = Ok sampleHeadings /\
  renderedHeadingIds sampleSections
    = Ok [lit "getting-started"; lit "install-v10"; lit "why-tinqer%3F"] /\
  exists ids,
    renderedHeadingIds sampleSections = Ok ids /\
    Forall2 (fun d id => slugify (snd d) = Ok id)
            (documentHeadings sampleSections) ids /\
    generateTOC sampleHeadings = tocOf (map linkTo sampleHeadings) /\
    (forall h, In h sampleHeadings ->
       slugify (Heading.content h) = Ok (Heading.id h) /\
       In (Heading.id h) ids) /\
    (onlyTocLevels sampleSections = true ->
       map headingView sampleHeadings = documentHeadings sampleSections /\
       map Heading.id sampleHeadings = ids).
Proof.
  split; [reflexivity|]. split; [reflexivity|].
  apply (toc_links_resolve sampleSections). reflexivity.
Defined.

Lemma extractHeadings_levels_witness :
  everyHeadingFollowed sampleDocument = true /\
  headingsHaveSlugs sampleDocument = true /\
  (exists hs, extractHeadings sampleDocument = Ok hs) /\
  map headingView sampleHeadings =
    filter (fun h => isTocLevel (fst h)) (documentHeadings sampleDocument) /\
  Forall (fun h => Heading.level h = 2%Z \/ Heading.level h = 3%Z)
         sampleHeadings /\
  Forall (fun h => slugify (Heading.content h) = Ok (Heading.id h))
         sampleHeadings.
Proof.
  split; [reflexivity|]. split; [reflexivity|]. split.
  - apply (proj1 (extractHeadings_levels sampleDocument)); reflexivity.
  - apply (proj2 (extractHeadings_levels sampleDocument)). reflexivity.
Defined.

Lemma extractHeadings_lookahead_witness :
  everyHeadingFollowed sampleDocument = true /\
  extractHeadings sampleDocument <> Throw TypeError /\
  everyHeadingFollowed (firstn 4 sampleDocument) = false /\
  (exists e, extractHeadings (firstn 4 sampleDocument) = Throw e) /\
  isHeadingOpen (Token.mk (lit "heading_open") (lit "h3") []) = true /\
  (exists e, extractHeadings
               (sampleDocument ++ [Token.mk (lit "heading_open") (lit "h3") []])
             = Throw e).
Proof.
  split; [reflexivity|]. split.
  - apply (proj1 extractHeadings_lookahead). reflexivity.
  - split; [reflexivity|]. split.
    + apply (proj1 (proj2 extractHeadings_lookahead)). reflexivity.
    + split; [reflexivity|].
      apply (proj1 (proj2 (proj2 extractHeadings_lookahead))). reflexivity.
Defined.

Lemma generatePageNav_slots_witness :
  (0 <= 1 < Z.of_nat (length pages))%Z /\
  exists prevSlot nextSlot,
    generatePageNav pages 1 = pagerOpen ++ prevSlot ++ nextSlot ++ pagerClose /\
    ((0 < 1)%Z <->
       exists p, item pages (1 - 1) = Some p /\ prevSlot = prevLink p) /\
    ((1 <= 0)%Z <-> prevSlot = emptySlot) /\
    ((1 < Z.of_nat (length pages) - 1)%Z <->
       exists p, item pages (1 + 1) = Some p /\ nextSlot = nextLink p) /\
    ((Z.of_nat (length pages) - 1 <= 1)%Z <-> nextSlot = emptySlot).
Proof.
  split; [cbn; lia|]. apply (generatePageNav_slots pages 1). cbn. lia.
Defined.

Lemma generateBreadcrumb_trail_witness :
  item pages 1 = Some guidePage /\
  (generateBreadcrumb (Page.title guidePage) = trailCrumb (Page.title guidePage) /\
   textContent false (generateBreadcrumb (Page.title guidePage))
     = lit "Home / " ++ Page.title guidePage) /\
  (exists home,
     item pages 0 = Some home /\
     generateBreadcrumb (Page.title home) = homeCrumb /\
     textContent false (generateBreadcrumb (Page.title home)) = lit "Home").
Proof.
  split; [reflexivity|]. split.
  - apply (proj2 (generateBreadcrumb_trail 1 guidePage eq_refl)). discriminate.
  - eexists. split; [reflexivity|].
    apply (proj1 (generateBreadcrumb_trail 0 _ eq_refl)). reflexivity.
Defined.

Lemma replace_first_or_drop_witness :
  indexOf (lit "{{TOC}}") (lit "<h1>{{TITLE}}</h1>{{CONTENT}}") = None /\
  replace (lit "<h1>{{TITLE}}</h1>{{CONTENT}}") (lit "{{TOC}}") (lit "<nav/>")
    = lit "<h1>{{TITLE}}</h1>{{CONTENT}}" /\
  indexOf (lit "{{X}}") (lit "a{{X}}b{{X}}") = Some 1 /\
  replace (lit "a{{X}}b{{X}}") (lit "{{X}}") (lit "-") = lit "a-b{{X}}" /\
  compose (lit "<h1>{{TITLE}}</h1>{{CONTENT}}")
    ([(lit "{{TITLE}}", lit "Guide")]
       ++ (lit "{{TOC}}", lit "<nav/>") :: [(lit "{{CONTENT}}", lit "<p/>")])
    = lit "<h1>Guide</h1><p/>" /\
  (exists html,
     buildPage (lit "<h1>{{TITLE}}</h1>{{CONTENT}}") sampleDocument (lit "<p/>")
       guidePage 1 = Ok html).
Proof.
  split; [reflexivity|]. split.
  - apply (proj1 replace_first_or_drop). reflexivity.
  - split; [reflexivity|]. split.
    + transitivity (firstn 1 (lit "a{{X}}b{{X}}") ++ lit "-"
                      ++ skipn (1 + length (lit "{{X}}")) (lit "a{{X}}b{{X}}"));
        [|reflexivity].
      apply (proj1 (proj2 replace_first_or_drop) (lit "a{{X}}b{{X}}")
               (lit "{{X}}") (lit "-") 1 eq_refl).
      cbn. intros [H|[]]. discriminate H.
    + split.
      * transitivity (compose (lit "<h1>{{TITLE}}</h1>{{CONTENT}}")
                        ([(lit "{{TITLE}}", lit "Guide")]
                           ++ [(lit "{{CONTENT}}", lit "<p/>")]));
          [|reflexivity].
        apply (proj1 (proj2 (proj2 replace_first_or_drop))). reflexivity.
      * eexists.
        apply (proj2 (proj2 (proj2 replace_first_or_drop))
                 _ sampleDocument _ _ _ sampleHeadings).
        reflexivity.
Defined.

Lemma generateTOC_flat_witness :
  Heading.level (Heading.mk 3 (lit "Install v1.0") (lit "install-v10")) = 3%Z /\
  isPrefix (lit "  <li" ++ subItemClass)
    (tocItem (Heading.mk 3 (lit "Install v1.0") (lit "install-v10"))) = true.
Proof.
  split; [reflexivity|].
  apply (proj1 (proj2 (proj2 (proj2 generateTOC_flat)))). reflexivity.
Defined.

(** * Further properties of the script *)

(** ** Slugs *)

Lemma hexDigit_upper d : (d < 16)%N -> isUpperHex (hexDigit d) = true.
Proof.
  intros H. unfold hexDigit, isUpperHex, between.
  destruct (N.ltb_spec d 10);
    rewrite ?orb_true_iff, ?andb_true_iff, ?N.leb_le; lia.
Qed.

Lemma wellEscaped_escape cp t :
  wellEscaped (escapeCodePoint cp ++ t) = wellEscaped t.
Proof.
  unfold escapeCodePoint. pose proof (utf8_bytes cp) as H.
  induction H as [|b l Hb _ IH]; [reflexivity|].
  cbn [flat_map]. rewrite <- app_assoc. unfold escapeByte at 1.
  cbn [app wellEscaped]. rewrite N.eqb_refl.
  assert (b / 16 < 16)%N by (apply N.Div0.div_lt_upper_bound; lia).
  pose proof (N.mod_lt b 16 ltac:(lia)).
  now rewrite !hexDigit_upper, IH by assumption.
Qed.

Lemma encode_wellEscaped x : forall t,
  encodeURIComponent x = Ok t -> wellEscaped t = true.
Proof.
  induction x as [|c r IH1 IH2] using pair_step_ind; intros t H.
  - injection H as <-. reflexivity.
  - revert H. encode_cases c r d r'; intros H; try bind_inv.
    + cbn [wellEscaped].
      destruct (N.eqb_spec c percent) as [->|_]; [discriminate|].
      now apply IH1.
    + rewrite wellEscaped_escape. eapply IH2; eauto.
    + rewrite wellEscaped_escape. now apply IH1.
Qed.

Lemma trim_incl s c : In c (trim s) -> In c s.
Proof.
  unfold trim, trimEnd, trimStart. intros H.
  apply in_rev, dropWhile_incl, in_rev, dropWhile_incl in H. exact H.
Qed.

Lemma encode_wellFormed x :
  wellFormed x = true -> exists t, encodeURIComponent x = Ok t.
Proof.
  induction x as [|c r IH1 IH2] using pair_step_ind; [now exists []|].
  cbn [encodeURIComponent wellFormed]. intros W.
  destruct (isUnreserved c) eqn:U.
  { assert (isTrailSurrogate c = false /\ isLeadSurrogate c = false) as [T L]
      by (split; class_props; lia).
    rewrite T, L in W. destruct (IH1 W) as [t ->]. cbn [bind]. eauto. }
  destruct (isTrailSurrogate c); [discriminate|].
  destruct (isLeadSurrogate c).
  - destruct r as [|d r']; [discriminate|].
    apply andb_true_iff in W as [T W]. rewrite T.
    destruct (IH2 _ _ eq_refl W) as [t ->]. cbn [bind]. eauto.
  - destruct (IH1 W) as [t ->]. cbn [bind]. eauto.
Qed.

Lemma wellFormed_cons c r :
  isSurrogate c = false -> wellFormed (c :: r) = wellFormed r.
Proof.
  unfold isSurrogate. intros S. apply orb_false_iff in S as [L T].
  cbn [wellFormed]. now rewrite L, T.
Qed.

Lemma wellFormed_app rep y :
  forallb (fun c => negb (isSurrogate c)) rep = true ->
  wellFormed (rep ++ y) = wellFormed y.
Proof.
  induction rep as [|c rep IH]; [reflexivity|].
  cbn [forallb app]. intros H. apply andb_true_iff in H as [Hc Hr].
  apply negb_true_iff in Hc. now rewrite wellFormed_cons, IH.
Qed.

Section ReplaceWellFormed.

Variable cls : codeUnit -> bool.
Variable greedy : bool.
Variable rep : jstring.
Hypothesis cls_plain : forall c, cls c = true -> isSurrogate c = false.
Hypothesis rep_plain : forallb (fun c => negb (isSurrogate c)) rep = true.

Lemma wellFormed_dropWhile r :
  wellFormed r = true -> wellFormed (dropWhile cls r) = true.
Proof.
  induction r as [|d r IH]; [reflexivity|].
  cbn [dropWhile]. destruct (cls d) eqn:D; [|auto].
  rewrite (wellFormed_cons _ _ (cls_plain _ D)). exact IH.
Qed.

(** Replacing units that are no surrogates splits no surrogate pair. *)
Lemma replaceClassG_wellFormed s :
  wellFormed s = true -> wellFormed (replaceClassG cls greedy rep s) = true.
Proof.
  remember (length s) as n eqn:Hn. revert s Hn.
  induction n as [n IH] using lt_wf_ind. intros s Hn W.
  destruct s as [|c r]; [now simp replaceClassG|].
  rewrite replaceClassG_cons. cbn [length] in Hn.
  destruct (cls c) eqn:C.
  - rewrite (wellFormed_cons _ _ (cls_plain _ C)) in W.
    rewrite (wellFormed_app _ _ rep_plain).
    destruct greedy.
    + apply (IH (length (dropWhile cls r)));
        [pose proof (dropWhile_le cls r); lia | reflexivity |].
      now apply wellFormed_dropWhile.
    + apply (IH (length r)); [lia | reflexivity | exact W].
  - cbn [wellFormed] in W |- *.
    destruct (isTrailSurrogate c); [discriminate|].
    destruct (isLeadSurrogate c).
    + destruct r as [|d r']; [discriminate|].
      apply andb_true_iff in W as [T W].
      assert (D : cls d = false).
      { destruct (cls d) eqn:D; [|reflexivity].
        apply cls_plain in D. unfold isSurrogate in D.
        rewrite T, orb_true_r in D. discriminate. }
      rewrite replaceClassG_cons, D, T. cbn [andb length] in *.
      apply (IH (length r')); [lia | reflexivity | exact W].
    + apply (IH (length r)); [lia | reflexivity | exact W].
Qed.

End ReplaceWellFormed.

(** The normal form of a text without surrogates has no lone surrogate. *)
Lemma normalise_wellFormed s :
  forallb (fun c => negb (isSurrogate c)) s = true ->
  wellFormed (normalise s) = true.
Proof.
  intros H. unfold normalise.
  apply replaceClassG_wellFormed; [|reflexivity|].
  { intros c W. class_props. lia. }
  apply replaceClassG_wellFormed; [|reflexivity|].
  { intros c W. class_props. lia. }
  apply toLowerCase_wellFormed.
  rewrite forallb_forall in *. intros c Hc. now apply H, trim_incl.
Qed.

(** X1: a slug is written with percent signs, ASCII letters and digits and
    the marks [- _ ! ~ * ' ( )] only, and each of its percent signs opens an
    escape of two upper-case hexadecimal digits. *)
Theorem slug_alphabet : forall s t,
  slugify s = Ok t ->
  forallb slugUnit t = true /\ wellEscaped t = true.
Proof.
  intros s t H. split.
  - now apply slug_units in H.
  - rewrite slugify_normalise in H. now apply encode_wellEscaped in H.
Qed.

Lemma slug_alphabet_witness :
  slugify (lit "  Why Tinqer? v1.0 ") = Ok (lit "why-tinqer%3F-v10") /\
  forallb slugUnit (lit "why-tinqer%3F-v10") = true /\
  wellEscaped (lit "why-tinqer%3F-v10") = true.
Proof.
  split; [reflexivity|].
  apply (slug_alphabet (lit "  Why Tinqer? v1.0 ")). reflexivity.
Defined.

(** X2: [slugify] returns a slug for every string without surrogate code
    units, and the only exception it ever raises is [URIError]. *)
Theorem slugify_succeeds :
  (forall s, forallb (fun c => negb (isSurrogate c)) s = true ->
     exists t, slugify s = Ok t) /\
  (forall s e, slugify s = Throw e -> e = URIError).
Proof.
  split.
  - intros s H. rewrite slugify_normalise.
    now apply encode_wellFormed, normalise_wellFormed.
  - intros s e. rewrite slugify_normalise. apply encode_throws.
Qed.

Lemma slugify_succeeds_witness :
  forallb (fun c => negb (isSurrogate c)) (lit "API Reference") = true /\
  (exists t, slugify (lit "API Reference") = Ok t) /\
  slugify [55357%N] = Throw URIError.
Proof.
  split; [reflexivity|]. split.
  - apply (proj1 slugify_succeeds). reflexivity.
  - assert (E : exists e, slugify [55357%N] = Throw e) by (eexists; reflexivity).
    destruct E as [e E]. rewrite E. f_equal.
    exact (proj2 slugify_succeeds _ _ E).
Defined.

Lemma trimEnd_app_space x b :
  allWhiteSpace b = true -> trimEnd (x ++ b) = trimEnd x.
Proof.
  intros H. unfold trimEnd. rewrite rev_app_distr, dropWhile_app.
  assert (R : forallb isWhiteSpace (rev b) = true).
  { unfold allWhiteSpace in H. rewrite forallb_forall in *.
    intros c Hc. apply H. now apply in_rev. }
  now rewrite R.
Qed.

Lemma trim_surrounded a s b :
  allWhiteSpace a = true -> allWhiteSpace b = true ->
  trim (a ++ s ++ b) = trim s.
Proof.
  intros Ha Hb. unfold trim, trimStart.
  rewrite (dropWhile_app isWhiteSpace a). unfold allWhiteSpace in Ha. rewrite Ha.
  rewrite dropWhile_app. destruct (forallb isWhiteSpace s) eqn:E.
  - rewrite (dropWhile_all _ _ Hb), (dropWhile_all _ _ E). reflexivity.
  - now apply trimEnd_app_space.
Qed.

(** X3: white space around a heading text does not show in its slug. *)
Theorem slugify_surrounding_space : forall a s b,
  allWhiteSpace a = true -> allWhiteSpace b = true ->
  slugify (a ++ s ++ b) = slugify s.
Proof.
  intros a s b Ha Hb. unfold slugify. now rewrite trim_surrounded.
Qed.

Lemma slugify_surrounding_space_witness :
  slugify ([9%N; 32%N] ++ lit "Guide" ++ [160%N; 10%N]) = slugify (lit "Guide").
Proof.
  apply slugify_surrounding_space; reflexivity.
Defined.

(** X4: a text made of lower-case ASCII letters, digits and the marks
    [- _ ! ~ * ' ( )] only is its own slug. *)
Theorem slugify_plain : forall t,
  forallb plainUnit t = true -> slugify t = Ok t.
Proof.
  intros t H. rewrite slugify_normalise, (normalise_plain _ H).
  apply encode_unreserved. rewrite forallb_forall in *.
  intros c Hc. now apply plainUnit_props, H.
Qed.

Lemma slugify_plain_witness :
  slugify (lit "api-reference_(v2)") = Ok (lit "api-reference_(v2)").
Proof. apply slugify_plain. reflexivity. Defined.

(** *** Letter case *)

Lemma lookupRun_inRun table cp l :
  lookupRun table cp = Some l ->
  exists run, In run table /\ inRun run cp = true /\
              l = (runTarget run + (cp - runFirst run))%N.
Proof.
  induction table as [|[[[f la] st] t] rest IH]; [discriminate|].
  cbn [lookupRun]. destruct (inRun (f, la, st, t) cp) eqn:E.
  - intros [= <-]. exists (f, la, st, t). split; [now left|]. now split.
  - intros H. destruct (IH H) as (run & I & R). exists run.
    split; [now right | exact R].
Qed.

Lemma runImage_In run cp :
  inRun run cp = true -> In (runTarget run + (cp - runFirst run))%N (runImage run).
Proof.
  destruct run as [[[f la] st] t]. unfold inRun, runImage, between.
  cbn [runTarget runFirst fst snd]. intros H.
  apply andb_true_iff in H as [H M]. apply andb_true_iff in H as [A B].
  apply N.leb_le in A, B. apply N.eqb_eq in M.
  apply in_map_iff. exists (N.to_nat ((cp - f) / st)). split.
  - rewrite N2Nat.id. pose proof (N.Div0.div_mod (cp - f) st) as D.
    rewrite M, N.add_0_r in D. now rewrite <- D.
  - assert (Q : ((cp - f) / st <= (la - f) / st)%N)
      by (apply N.Div0.div_le_mono; lia).
    set (q := ((cp - f) / st)%N) in *. set (m := ((la - f) / st)%N) in *.
    clearbody q m. apply in_seq. lia.
Qed.

Lemma images_settled :
  forallb (fun run => forallb settled (runImage run)) lowerRuns = true.
Proof. vm_compute. reflexivity. Qed.

Lemma simpleLower_settled cp : N.eqb cp 304 = false -> settled (simpleLower cp) = true.
Proof.
  intros H. unfold simpleLower.
  destruct (lookupRun lowerRuns cp) as [l|] eqn:E.
  - apply lookupRun_inRun in E as (run & I & R & ->).
    pose proof images_settled as S. rewrite forallb_forall in S.
    specialize (S run I). rewrite forallb_forall in S.
    now apply S, runImage_In.
  - unfold settled. rewrite E, H.
    destruct (N.eqb_spec cp 931) as [->|]; [|reflexivity].
    vm_compute in E. discriminate.
Qed.


Lemma lowerFrom_between cps : forall before,
  lowerFrom before cps = lowerBetween before cps [].
Proof.
  induction cps as [|cp after IH]; intros before; [reflexivity|].
  cbn [lowerFrom lowerBetween]. now rewrite app_nil_r, IH.
Qed.

Lemma lowerBetween_app l1 : forall before l2 trailing,
  lowerBetween before (l1 ++ l2) trailing =
  lowerBetween before l1 (l2 ++ trailing)
    ++ lowerBetween (rev l1 ++ before) l2 trailing.
Proof.
  induction l1 as [|c l1 IH]; intros before l2 trailing; [reflexivity|].
  cbn [app lowerBetween rev]. rewrite IH, <- !app_assoc. reflexivity.
Qed.

Lemma space_facts c :
  isWhiteSpace c = true ->
  N.eqb c 931 = false /\ N.eqb c 304 = false /\ simpleLower c = c /\
  isCased c = false /\ isSurrogate c = false /\ (c < 65536)%N.
Proof.
  rewrite isWhiteSpace_isSpace. unfold isSpace. intros H.
  apply existsb_exists in H as (w & I & E). apply N.eqb_eq in E. subst w.
  assert (C : forallb spaceCheck whiteSpaceUnits = true)
    by (vm_compute; reflexivity).
  rewrite forallb_forall in C. specialize (C c I). unfold spaceCheck in C.
  repeat (apply andb_true_iff in C as [C ?]).
  repeat match goal with
  | H : negb _ = true |- _ => apply negb_true_iff in H
  end.
  repeat split; try assumption; [now apply N.eqb_eq | now apply N.ltb_lt].
Qed.

Lemma space_lowered before c after :
  isWhiteSpace c = true -> lowerCodePoint before c after = [c].
Proof.
  intros W. destruct (space_facts c W) as (A & B & C & _).
  unfold lowerCodePoint. now rewrite A, B, C.
Qed.

Lemma lowerBetween_space a : forall before trailing,
  allWhiteSpace a = true -> lowerBetween before a trailing = a.
Proof.
  unfold allWhiteSpace.
  induction a as [|c a IH]; intros before trailing H; [reflexivity|].
  cbn [forallb] in H. apply andb_true_iff in H as [Hc Ha].
  cbn [lowerBetween]. now rewrite space_lowered, IH.
Qed.

Lemma casedNext_space l a :
  allWhiteSpace a = true -> casedNext (l ++ a) = casedNext l.
Proof.
  unfold allWhiteSpace, casedNext. intros H.
  induction l as [|c l IH]; cbn [app skipIgnorable].
  - induction a as [|w a IH]; [reflexivity|].
    cbn [forallb] in H. apply andb_true_iff in H as [Hw Ha].
    cbn [skipIgnorable]. destruct (isCaseIgnorable w); [auto|].
    now destruct (space_facts w Hw) as (_ & _ & _ & C & _).
  - destruct (isCaseIgnorable c); [exact IH | reflexivity].
Qed.

Lemma lowerCodePoint_space before a' cp after b :
  allWhiteSpace a' = true -> allWhiteSpace b = true ->
  lowerCodePoint (before ++ a') cp (after ++ b) = lowerCodePoint before cp after.
Proof.
  intros Ha Hb. unfold lowerCodePoint, finalSigma.
  now rewrite !casedNext_space.
Qed.

Lemma lowerBetween_context x : forall before a' b,
  allWhiteSpace a' = true -> allWhiteSpace b = true ->
  lowerBetween (before ++ a') x b = lowerBetween before x [].
Proof.
  induction x as [|cp after IH]; intros before a' b Ha Hb; [reflexivity|].
  cbn [lowerBetween]. rewrite lowerCodePoint_space, app_nil_r by assumption.
  f_equal. exact (IH (cp :: before) a' b Ha Hb).
Qed.

Lemma allWhiteSpace_rev a : allWhiteSpace a = true -> allWhiteSpace (rev a) = true.
Proof.
  unfold allWhiteSpace. rewrite !forallb_forall. intros H c Hc.
  apply H. now apply in_rev.
Qed.

Lemma lowerFrom_surrounded a x b :
  allWhiteSpace a = true -> allWhiteSpace b = true ->
  lowerFrom [] (a ++ x ++ b) = a ++ lowerFrom [] x ++ b.
Proof.
  intros Ha Hb. rewrite !lowerFrom_between, lowerBetween_app, !app_nil_r.
  rewrite (lowerBetween_space a) by assumption. f_equal.
  rewrite lowerBetween_app, app_nil_r.
  pose proof (lowerBetween_context x [] (rev a) b
                (allWhiteSpace_rev a Ha) Hb) as C.
  f_equal; [exact C | now apply lowerBetween_space].
Qed.

Lemma space_plain a :
  allWhiteSpace a = true ->
  forallb (fun c => negb (isSurrogate c)) a = true /\
  Forall (fun c => (c < 65536)%N) a.
Proof.
  unfold allWhiteSpace. rewrite !forallb_forall, Forall_forall. intros H.
  split; intros c Hc; destruct (space_facts c (H c Hc)) as (_ & _ & _ & _ & S & B);
    [now rewrite S | exact B].
Qed.

Lemma codePoints_app_l a : forall y,
  forallb (fun c => negb (isSurrogate c)) a = true ->
  codePoints (a ++ y) = a ++ codePoints y.
Proof.
  induction a as [|c a IH]; intros y H; [reflexivity|].
  cbn [forallb] in H. apply andb_true_iff in H as [Hc Ha].
  apply negb_true_iff in Hc. unfold isSurrogate in Hc.
  apply orb_false_iff in Hc as [L _].
  cbn [app]. now rewrite codePoints_cons, IH.
Qed.

Lemma codePoints_app_r (x : jstring) : forall b,
  forallb (fun c => negb (isSurrogate c)) b = true ->
  codePoints (x ++ b) = codePoints x ++ b.
Proof.
  induction x as [|c r IH1 IH2] using pair_step_ind; intros b H.
  - now apply codePoints_plain.
  - destruct r as [|d r'].
    + cbn [app codePoints]. destruct b as [|d b']; [reflexivity|].
      assert (T : isTrailSurrogate d = false).
      { cbn [forallb] in H. apply andb_true_iff in H as [Hd _].
        apply negb_true_iff in Hd. unfold isSurrogate in Hd.
        now apply orb_false_iff in Hd as [_ T]. }
      rewrite T, andb_false_r. f_equal. now apply codePoints_plain.
    + cbn [app codePoints].
      destruct (isLeadSurrogate c && isTrailSurrogate d).
      * cbn [app]. f_equal. now apply (IH2 d r' eq_refl).
      * cbn [app]. f_equal. exact (IH1 b H).
Qed.

Lemma fromCodePoints_app l1 l2 :
  fromCodePoints (l1 ++ l2) = fromCodePoints l1 ++ fromCodePoints l2.
Proof. apply flat_map_app. Qed.

(** Lower-casing passes over white space around a text. *)
Lemma toLowerCase_surrounded a x b :
  allWhiteSpace a = true -> allWhiteSpace b = true ->
  toLowerCase (a ++ x ++ b) = a ++ toLowerCase x ++ b.
Proof.
  intros Ha Hb. unfold toLowerCase.
  destruct (space_plain a Ha) as [Sa Ba]. destruct (space_plain b Hb) as [Sb Bb].
  rewrite codePoints_app_l, codePoints_app_r by assumption.
  rewrite lowerFrom_surrounded by assumption.
  rewrite !fromCodePoints_app.
  now rewrite (fromCodePoints_bmp a), (fromCodePoints_bmp b).
Qed.


Lemma trailHead_codePoints (d : codeUnit) (r : jstring) :
  trailHead (codePoints (d :: r)) = isTrailSurrogate d.
Proof.
  cbn [codePoints]. destruct r as [|e r']; [reflexivity|].
  destruct (isLeadSurrogate d && isTrailSurrogate e) eqn:E; [|reflexivity].
  apply andb_true_iff in E as [L T]. cbn [trailHead].
  pose proof (surrogatePair_range d e L T) as R.
  assert (isTrailSurrogate (surrogatePair d e) = false) as ->
    by (class_props; lia).
  symmetry. class_props. lia.
Qed.

Lemma codePoints_step (c d : codeUnit) (r : jstring) :
  codePoints (c :: d :: r) =
  if isLeadSurrogate c && isTrailSurrogate d
  then surrogatePair c d :: codePoints r
  else c :: codePoints (d :: r).
Proof. reflexivity. Qed.

Lemma codePoints_normal (s : jstring) : normal (codePoints s) = true.
Proof.
  induction s as [|c r IH1 IH2] using pair_step_ind; [reflexivity|].
  destruct r as [|d r'].
  - cbn [codePoints normal trailHead]. now rewrite andb_false_r.
  - rewrite codePoints_step.
    destruct (isLeadSurrogate c && isTrailSurrogate d) eqn:E.
    + apply andb_true_iff in E as [L T].
      pose proof (surrogatePair_range c d L T) as R.
      cbn [normal]. rewrite (IH2 d r' eq_refl), andb_true_r.
      assert (isLeadSurrogate (surrogatePair c d) = false) as ->
        by (class_props; lia).
      reflexivity.
    + cbn [normal]. rewrite trailHead_codePoints, E, IH1. reflexivity.
Qed.

Lemma surrogate_unmapped cp :
  isSurrogate cp = true -> lookupRun lowerRuns cp = None.
Proof.
  intros S. destruct (lookupRun lowerRuns cp) as [l|] eqn:E; [|reflexivity].
  apply (lookupRun_checked runNoSurrogate) in E as (run & C & R & _);
    [|now vm_compute].
  exfalso. unfold runNoSurrogate in C. class_props. lia.
Qed.

Lemma block_surrogate before cp after :
  isSurrogate cp = true -> lowerCodePoint before cp after = [cp].
Proof.
  intros S. unfold lowerCodePoint, simpleLower.
  rewrite (surrogate_unmapped _ S).
  assert (N.eqb cp 931 = false /\ N.eqb cp 304 = false) as [-> ->]
    by (split; apply N.eqb_neq; intros ->; discriminate S).
  reflexivity.
Qed.

Lemma block_plain before cp after :
  isSurrogate cp = false ->
  exists y block,
    lowerCodePoint before cp after = y :: block /\
    Forall (fun y => isSurrogate y = false) (y :: block).
Proof.
  intros S. unfold lowerCodePoint.
  destruct (N.eqb cp 931 && finalSigma before after).
  { eexists _, _. split; [reflexivity|]. repeat constructor. }
  destruct (N.eqb cp 304).
  { eexists _, _. split; [reflexivity|]. repeat constructor. }
  eexists _, _. split; [reflexivity|]. repeat constructor.
  now apply simpleLower_surrogate.
Qed.

Lemma trailHead_lower L : forall before trailing,
  trailHead (lowerBetween before L trailing) = trailHead L.
Proof.
  destruct L as [|cp L]; intros before trailing; [reflexivity|].
  cbn [lowerBetween trailHead]. destruct (isSurrogate cp) eqn:S.
  - now rewrite block_surrogate.
  - destruct (block_plain before cp (L ++ trailing) S) as (y & block & -> & F).
    cbn [app trailHead]. inversion_clear F as [|? ? Hy _].
    unfold isSurrogate in *. apply orb_false_iff in S as [_ ->].
    now apply orb_false_iff in Hy as [_ ->].
Qed.

Lemma normal_plain_app block rest :
  Forall (fun y => isSurrogate y = false) block ->
  normal (block ++ rest) = normal rest.
Proof.
  induction 1 as [|y block Hy _ IH]; [reflexivity|].
  cbn [app normal]. unfold isSurrogate in Hy.
  apply orb_false_iff in Hy as [-> _]. exact IH.
Qed.

Lemma lower_normal L : forall before trailing,
  normal L = true -> normal (lowerBetween before L trailing) = true.
Proof.
  induction L as [|cp L IH]; intros before trailing H; [reflexivity|].
  cbn [normal] in H. apply andb_true_iff in H as [Hc HL].
  cbn [lowerBetween]. destruct (isSurrogate cp) eqn:S.
  - rewrite block_surrogate by exact S. cbn [app normal].
    now rewrite trailHead_lower, Hc, IH.
  - destruct (block_plain before cp (L ++ trailing) S) as (y & block & -> & F).
    rewrite normal_plain_app by exact F. now apply IH.
Qed.

Lemma trailHead_units L : trailHead (fromCodePoints L) = trailHead L.
Proof.
  destruct L as [|cp L]; [reflexivity|].
  unfold fromCodePoints. cbn [flat_map trailHead]. unfold codeUnits.
  destruct (N.ltb_spec cp 65536); [reflexivity|].
  destruct (N.ltb_spec cp 1114112); [|reflexivity].
  cbn [app trailHead].
  assert ((cp - 65536) / 1024 < 1024)%N by (apply N.Div0.div_lt_upper_bound; lia).
  set (q := ((cp - 65536) / 1024)%N) in *. clearbody q.
  assert (isTrailSurrogate (55296 + q)%N = false) as -> by (class_props; lia).
  symmetry. class_props. lia.
Qed.

(** Code points written as units are read back as they were. *)
Lemma codePoints_units L :
  normal L = true -> codePoints (fromCodePoints L) = L.
Proof.
  induction L as [|cp L IH]; intros H; [reflexivity|].
  cbn [normal] in H. apply andb_true_iff in H as [Hc HL].
  specialize (IH HL). pose proof (trailHead_units L) as T.
  unfold fromCodePoints in *. cbn [flat_map]. unfold codeUnits at 1.
  destruct (N.ltb_spec cp 65536).
  { cbn [app]. destruct (isLeadSurrogate cp) eqn:Lc.
    - cbn [andb negb] in Hc. apply negb_true_iff in Hc. rewrite Hc in T.
      destruct (flat_map _ L) as [|u U] eqn:E.
      + cbn [codePoints] in *. now rewrite <- IH.
      + cbn [trailHead] in T. rewrite codePoints_step, T, andb_false_r.
        now rewrite IH.
    - now rewrite codePoints_cons, IH. }
  destruct (N.ltb_spec cp 1114112).
  - assert (Q : ((cp - 65536) / 1024 < 1024)%N)
      by (apply N.Div0.div_lt_upper_bound; lia).
    pose proof (N.mod_lt (cp - 65536) 1024 ltac:(lia)) as M.
    pose proof (N.div_mod (cp - 65536) 1024 ltac:(lia)) as D.
    set (q := ((cp - 65536) / 1024)%N) in *.
    set (m := ((cp - 65536) mod 1024)%N) in *. clearbody q m.
    cbn [app codePoints].
    assert (isLeadSurrogate (55296 + q)%N = true) as -> by (class_props; lia).
    assert (isTrailSurrogate (56320 + m)%N = true) as -> by (class_props; lia).
    cbn [andb]. rewrite IH. f_equal. unfold surrogatePair. lia.
  - cbn [app]. rewrite codePoints_cons, IH; [reflexivity|]. class_props. lia.
Qed.

Lemma lower_elements_settled L : forall before trailing y,
  In y (lowerBetween before L trailing) -> settled y = true.
Proof.
  induction L as [|cp L IH]; intros before trailing y H; [destruct H|].
  cbn [lowerBetween] in H. apply in_app_or in H as [H|H]; [|eauto].
  unfold lowerCodePoint in H.
  destruct (N.eqb cp 931 && finalSigma before (L ++ trailing)).
  { destruct H as [<-|[]]. now vm_compute. }
  destruct (N.eqb cp 304) eqn:E.
  { destruct H as [<-|[<-|[]]]; now vm_compute. }
  destruct H as [<-|[]]. now apply simpleLower_settled.
Qed.

Lemma lower_settled L : forall before trailing,
  forallb settled L = true -> lowerBetween before L trailing = L.
Proof.
  induction L as [|cp L IH]; intros before trailing H; [reflexivity|].
  cbn [forallb] in H. apply andb_true_iff in H as [Hc HL].
  cbn [lowerBetween]. rewrite IH by exact HL.
  unfold settled in Hc. apply andb_true_iff in Hc as [Hc U].
  apply andb_true_iff in Hc as [A B]. apply negb_true_iff in A, B.
  unfold lowerCodePoint, simpleLower. rewrite A, B. cbn [andb].
  now destruct (lookupRun lowerRuns cp).
Qed.

(** Lower-casing a lower-cased text changes nothing. *)
Lemma toLowerCase_idempotent s : toLowerCase (toLowerCase s) = toLowerCase s.
Proof.
  unfold toLowerCase. rewrite !lowerFrom_between.
  rewrite codePoints_units
    by (apply lower_normal, codePoints_normal).
  f_equal. apply lower_settled.
  apply forallb_forall. intros y. apply lower_elements_settled.
Qed.


Lemma dropWhile_split p s :
  exists a, s = a ++ dropWhile p s /\ forallb p a = true.
Proof.
  induction s as [|c r (a & E & F)]; [now exists []|].
  cbn [dropWhile]. destruct (p c) eqn:P.
  - exists (c :: a). cbn [app forallb]. now rewrite P, F, <- E.
  - now exists [].
Qed.

Lemma dropWhile_tight s : tight (dropWhile isWhiteSpace s) = true.
Proof.
  induction s as [|c r IH]; [reflexivity|].
  cbn [dropWhile]. destruct (isWhiteSpace c) eqn:W; [exact IH|].
  cbn [tight]. now rewrite W.
Qed.

(** A text is its trimmed form between white space, and the trimmed form
    begins and ends with no white space. *)
Lemma trim_decompose s :
  exists a b,
    s = a ++ trim s ++ b /\
    allWhiteSpace a = true /\ allWhiteSpace b = true /\
    tight (trim s) = true /\ tight (rev (trim s)) = true.
Proof.
  unfold trim, trimEnd, trimStart.
  destruct (dropWhile_split isWhiteSpace s) as (a & Ea & Fa).
  set (u := dropWhile isWhiteSpace s) in *.
  destruct (dropWhile_split isWhiteSpace (rev u)) as (b & Eb & Fb).
  set (v := dropWhile isWhiteSpace (rev u)) in *.
  assert (Eu : u = rev v ++ rev b).
  { rewrite <- rev_app_distr, <- Eb. symmetry. apply rev_involutive. }
  exists a, (rev b). split; [now rewrite <- Eu|]. split; [exact Fa|].
  split; [now apply allWhiteSpace_rev|]. split.
  - pose proof (dropWhile_tight s) as T. fold u in T. rewrite Eu in T.
    now destruct (rev v).
  - rewrite rev_involutive. apply dropWhile_tight.
Qed.

Lemma trim_tight t :
  tight t = true -> tight (rev t) = true -> trim t = t.
Proof.
  intros A B. unfold trim, trimEnd, trimStart.
  assert (D : forall l, tight l = true -> dropWhile isWhiteSpace l = l).
  { intros [|c l] H; [reflexivity|]. cbn [tight] in H.
    apply negb_true_iff in H. cbn [dropWhile]. now rewrite H. }
  rewrite (D t A), (D _ B). apply rev_involutive.
Qed.

Lemma simpleLower_space cp :
  isWhiteSpace cp = false -> isWhiteSpace (simpleLower cp) = false.
Proof.
  intros W. unfold simpleLower.
  destruct (lookupRun lowerRuns cp) as [l|] eqn:E; [|exact W].
  apply (lookupRun_checked runAvoidsSpace) in E as (run & C & R & ->);
    [|now vm_compute].
  destruct (isWhiteSpace (runTarget run + (cp - runFirst run))%N) eqn:S;
    [|reflexivity]. exfalso.
  rewrite isWhiteSpace_isSpace in S. unfold isSpace in S.
  apply existsb_exists in S as (w & I & Ew). apply N.eqb_eq in Ew. subst w.
  unfold runAvoidsSpace in C. rewrite forallb_forall in C.
  specialize (C _ I). apply negb_true_iff in C.
  unfold between in C. apply andb_false_iff in C as [C|C];
    apply N.leb_gt in C; lia.
Qed.

Lemma codeUnits_solid y :
  isWhiteSpace y = false ->
  exists u U, codeUnits y = u :: U /\
              forallb (fun c => negb (isWhiteSpace c)) (u :: U) = true.
Proof.
  intros W. unfold codeUnits.
  destruct (N.ltb_spec y 65536).
  { eexists _, _. split; [reflexivity|]. cbn [forallb]. now rewrite W. }
  destruct (N.ltb_spec y 1114112).
  - eexists _, _. split; [reflexivity|]. cbn [forallb].
    assert ((y - 65536) / 1024 < 1024)%N by (apply N.Div0.div_lt_upper_bound; lia).
    pose proof (N.mod_lt (y - 65536) 1024 ltac:(lia)).
    set (q := ((y - 65536) / 1024)%N) in *.
    set (m := ((y - 65536) mod 1024)%N) in *. clearbody q m.
    assert (isWhiteSpace (55296 + q)%N = false) as -> by (class_props; lia).
    assert (isWhiteSpace (56320 + m)%N = false) as -> by (class_props; lia).
    reflexivity.
  - eexists _, _. split; [reflexivity|]. cbn [forallb]. now rewrite W.
Qed.

(** What a character that is no white space becomes holds no white
    space. *)
Lemma block_solid before cp after :
  isWhiteSpace cp = false ->
  exists u U,
    fromCodePoints (lowerCodePoint before cp after) = u :: U /\
    forallb (fun c => negb (isWhiteSpace c)) (u :: U) = true.
Proof.
  intros W. unfold lowerCodePoint, fromCodePoints.
  destruct (N.eqb cp 931 && finalSigma before after).
  { eexists _, _. split; reflexivity. }
  destruct (N.eqb cp 304).
  { eexists _, _. split; reflexivity. }
  cbn [flat_map]. rewrite app_nil_r.
  now apply codeUnits_solid, simpleLower_space.
Qed.

Lemma codePoints_head (c : codeUnit) (r : jstring) :
  exists cp rest,
    codePoints (c :: r) = cp :: rest /\ (cp = c \/ (65536 <= cp)%N).
Proof.
  destruct r as [|d r']; [exists c, []; auto|].
  rewrite codePoints_step.
  destruct (isLeadSurrogate c && isTrailSurrogate d) eqn:E.
  - apply andb_true_iff in E as [L T].
    pose proof (surrogatePair_range c d L T).
    eexists _, _. split; [reflexivity|]. right. lia.
  - eexists _, _. split; [reflexivity|]. now left.
Qed.

Lemma codePoints_last (x : jstring) : forall c,
  exists L cp,
    codePoints (x ++ [c]) = L ++ [cp] /\ (cp = c \/ (65536 <= cp)%N).
Proof.
  induction x as [|a r IH1 IH2] using pair_step_ind; intros c.
  - exists [], c. auto.
  - destruct r as [|d r'].
    + cbn [app]. rewrite codePoints_step.
      destruct (isLeadSurrogate a && isTrailSurrogate c) eqn:E.
      * apply andb_true_iff in E as [L T].
        pose proof (surrogatePair_range a c L T).
        exists [], (surrogatePair a c). split; [reflexivity|]. right. lia.
      * exists [a], c. auto.
    + cbn [app]. rewrite codePoints_step.
      destruct (isLeadSurrogate a && isTrailSurrogate d).
      * destruct (IH2 d r' eq_refl c) as (L & cp & E & H).
        exists (surrogatePair a d :: L), cp. rewrite E. auto.
      * destruct (IH1 c) as (L & cp & E & H).
        exists (a :: L), cp. cbn [app] in E. rewrite E. auto.
Qed.

Lemma far_from_space cp c :
  isWhiteSpace c = false -> cp = c \/ (65536 <= cp)%N ->
  isWhiteSpace cp = false.
Proof. intros W [->|H]; [exact W|]. class_props. lia. Qed.

Lemma toLowerCase_tight x :
  tight x = true -> tight (toLowerCase x) = true.
Proof.
  destruct x as [|c r]; [reflexivity|]. cbn [tight]. intros W.
  apply negb_true_iff in W. unfold toLowerCase.
  destruct (codePoints_head c r) as (cp & rest & -> & H).
  cbn [lowerFrom]. rewrite fromCodePoints_app.
  destruct (block_solid [] cp rest (far_from_space _ _ W H))
    as (u & U & -> & S).
  cbn [forallb] in S. apply andb_true_iff in S as [S _]. exact S.
Qed.

Lemma toLowerCase_tight_end x :
  tight (rev x) = true -> tight (rev (toLowerCase x)) = true.
Proof.
  destruct (rev x) as [|c r] eqn:E.
  { apply (f_equal (@rev _)) in E. rewrite rev_involutive in E. now subst x. }
  cbn [tight]. intros W. apply negb_true_iff in W.
  apply (f_equal (@rev _)) in E. rewrite rev_involutive in E. cbn [rev] in E.
  subst x. unfold toLowerCase.
  destruct (codePoints_last (rev r) c) as (L & cp & -> & H).
  rewrite lowerFrom_between, lowerBetween_app, fromCodePoints_app.
  cbn [lowerBetween]. rewrite !app_nil_r.
  destruct (block_solid (rev L) cp [] (far_from_space _ _ W H))
    as (u & U & -> & S).
  rewrite rev_app_distr.
  assert (R : forallb (fun c => negb (isWhiteSpace c)) (rev (u :: U)) = true).
  { rewrite forallb_forall in *. intros y Hy. apply S. now apply in_rev. }
  destruct (rev (u :: U)) as [|y Y] eqn:Ey.
  - apply (f_equal (@length _)) in Ey. rewrite length_rev in Ey. discriminate.
  - cbn [app tight]. cbn [forallb] in R. now apply andb_true_iff in R as [R _].
Qed.

(** Trimming and lower-casing can be done in either order. *)
Lemma trim_toLowerCase s : trim (toLowerCase s) = toLowerCase (trim s).
Proof.
  destruct (trim_decompose s) as (a & b & E & Ha & Hb & T1 & T2).
  rewrite E at 1.
  rewrite toLowerCase_surrounded, trim_surrounded by assumption.
  apply trim_tight; auto using toLowerCase_tight, toLowerCase_tight_end.
Qed.

(** X5: letter case does not show in a slug: a text and its lower-case
    form have the same slug. *)
Theorem slugify_case : forall s, slugify (toLowerCase s) = slugify s.
Proof.
  intros s. unfold slugify.
  now rewrite trim_toLowerCase, toLowerCase_idempotent.
Qed.

Lemma slugify_case_witness :
  slugify (toLowerCase ([32; 927; 916; 927; 931; 32; 304]%N ++ lit "stanbul "))
  = slugify ([32; 927; 916; 927; 931; 32; 304]%N ++ lit "stanbul ").
Proof. apply slugify_case. Defined.

(** ** The heading extractor *)

Lemma scanHeadings_uri_error tokens : forall headings,
  scanHeadings tokens headings = Throw URIError ->
  headingsHaveSlugs tokens = false.
Proof.
  unfold headingsHaveSlugs.
  induction tokens as [|token rest IH]; intros headings H; [discriminate|].
  cbn [scanHeadings documentHeadings] in *.
  destruct (isHeadingOpen token).
  - destruct rest as [|following rest']; [discriminate|].
    cbn [forallb snd]. unfold hasSlug at 1.
    destruct (slugify (Token.content following)) as [id|e] eqn:E;
      [|reflexivity].
    cbn [bind] in H. apply IH in H. now rewrite H.
  - now apply IH in H.
Qed.

(** X6: [extractHeadings] returns exactly when every heading marker is
    followed by a token and every heading text has a slug, the texts of
    headings outside levels 2 and 3 included; [URIError] comes from a
    heading text without a slug. *)
Theorem extractHeadings_returns : forall tokens,
  ((exists hs, extractHeadings tokens = Ok hs) <->
   everyHeadingFollowed tokens = true /\ headingsHaveSlugs tokens = true) /\
  (extractHeadings tokens = Throw URIError -> headingsHaveSlugs tokens = false).
Proof.
  intros tokens. rewrite extractHeadings_scan. split; [split|].
  - intros [hs H]. now apply scanHeadings_inv in H.
  - intros [F S]. destruct (scanHeadings_ok tokens [] F S) as (hs & R & _).
    eauto.
  - apply scanHeadings_uri_error.
Qed.

Lemma extractHeadings_returns_witness :
  (exists hs, extractHeadings sampleDocument = Ok hs) /\
  headingsHaveSlugs
    [Token.mk (lit "heading_open") (lit "h1") [];
     Token.mk (lit "inline") [] [56832%N]] = false.
Proof.
  split.
  - apply (proj1 (extractHeadings_returns sampleDocument)). split; reflexivity.
  - apply (proj2 (extractHeadings_returns _)). reflexivity.
Defined.

Lemma scanHeadings_accumulates tokens : forall headings,
  scanHeadings tokens headings =
  (hs <- scanHeadings tokens [] ;; Ok (headings ++ hs)).
Proof.
  induction tokens as [|token rest IH]; intros headings.
  - cbn. now rewrite app_nil_r.
  - cbn [scanHeadings]. destruct (isHeadingOpen token); [|apply IH].
    destruct rest as [|following rest']; [reflexivity|].
    destruct (slugify (Token.content following)) as [id|e]; [|reflexivity].
    cbn [bind]. rewrite IH.
    rewrite (IH (pushHeading _ _ _ [])).
    destruct (scanHeadings (following :: rest') []) as [hs|e]; [|reflexivity].
    cbn [bind]. now rewrite pushHeading_app, app_assoc.
Qed.

Lemma scanHeadings_app a b : forall headings out,
  scanHeadings a headings = Ok out ->
  scanHeadings (a ++ b) headings = scanHeadings b out.
Proof.
  induction a as [|token rest IH]; intros headings out H.
  - injection H as <-. reflexivity.
  - cbn [scanHeadings app] in *. destruct (isHeadingOpen token); [|auto].
    destruct rest as [|following rest']; [discriminate|].
    cbn [app]. destruct (slugify (Token.content following)) as [id|e];
      [|discriminate].
    cbn [bind] in *. now apply IH.
Qed.

(** X7: the headings of a document that is followed by more tokens are
    the headings of the document and then those of the rest; an exception
    in the rest is the exception of the whole. *)
Theorem extractHeadings_append : forall a b ha,
  extractHeadings a = Ok ha ->
  extractHeadings (a ++ b) = (hb <- extractHeadings b ;; Ok (ha ++ hb)).
Proof.
  intros a b ha H. rewrite !extractHeadings_scan in *.
  rewrite (scanHeadings_app _ b _ _ H). apply scanHeadings_accumulates.
Qed.

Lemma extractHeadings_append_witness :
  extractHeadings (sampleDocument ++ sampleSections)
  = (hb <- extractHeadings sampleSections ;; Ok (sampleHeadings ++ hb)).
Proof.
  apply extractHeadings_append. reflexivity.
Defined.

(** X8: the table of contents of a document is the empty string exactly
    when the document has no heading of level 2 or 3. *)
Theorem toc_of_document_empty : forall tokens hs,
  extractHeadings tokens = Ok hs ->
  (generateTOC hs = [] <->
   existsb (fun h => isTocLevel (fst h)) (documentHeadings tokens) = false).
Proof.
  intros tokens hs H. rewrite extractHeadings_scan in H.
  destruct (scanHeadings_inv _ _ _ H) as [F S].
  destruct (scanHeadings_ok tokens [] F S) as (hs' & R & V & _).
  rewrite R in H. injection H as <-.
  assert (E : existsb (fun h => isTocLevel (fst h)) (documentHeadings tokens)
              = false <-> hs' = []).
  { destruct hs' as [|h hs'].
    - split; [reflexivity|]. intros _.
      destruct (existsb _ _) eqn:X; [|reflexivity].
      apply existsb_exists in X as (x & Hx & Tx).
      assert (In x (filter (fun h => isTocLevel (fst h))
                      (documentHeadings tokens)))
        by (apply filter_In; auto).
      rewrite <- V in *. contradiction.
    - split; [|discriminate]. intros X.
      assert (In (headingView h) (filter (fun h => isTocLevel (fst h))
                                    (documentHeadings tokens)))
        by (rewrite <- V; now left).
      apply filter_In in H as [Hin T].
      assert (existsb (fun h => isTocLevel (fst h)) (documentHeadings tokens)
              = true) by (apply existsb_exists; eauto).
      congruence. }
  rewrite E. destruct hs' as [|h hs']; [split; reflexivity|].
  split; [|discriminate]. intros X. exfalso.
  unfold generateTOC in X. cbn [length Nat.eqb] in X. cbv zeta in X.
  rewrite fold_left_append in X.
  apply app_eq_nil in X as [X _]. apply app_eq_nil in X as [X _].
  cbn in X. discriminate X.
Qed.

Lemma toc_of_document_empty_witness :
  extractHeadings (headingTokens "h1" "Tinqer") = Ok [] /\
  (generateTOC [] = [] <->
   existsb (fun h => isTocLevel (fst h))
     (documentHeadings (headingTokens "h1" "Tinqer")) = false).
Proof.
  split; [reflexivity|].
  apply (toc_of_document_empty (headingTokens "h1" "Tinqer")). reflexivity.
Defined.

Lemma parseDigits_stop x r acc :
  between 48 57 x = false -> parseDigits 10 (x :: r) acc = acc.
Proof.
  intros H. cbn [parseDigits]. unfold digitValue. rewrite H.
  destruct (between 97 122 x) eqn:A.
  - destruct (Z.ltb_spec (Z.of_N x - 87) 10); [|reflexivity].
    exfalso. class_props. lia.
  - destruct (between 65 90 x) eqn:B; [|reflexivity].
    destruct (Z.ltb_spec (Z.of_N x - 55) 10); [|reflexivity].
    exfalso. class_props. lia.
Qed.

(** X9: the level of a heading is read from the second character of its
    tag alone when that is a digit from 1 to 9 and no digit follows it:
    whatever the first character and whatever comes after, the heading is
    kept exactly when the digit is 2 or 3. *)
Theorem level_of_tag : forall c d rest,
  between 49 57 d = true ->
  match rest with [] => true | x :: _ => negb (between 48 57 x) end = true ->
  parseInt (substring1 (c :: d :: rest)) = Some (Z.of_N d - 48)%Z /\
  isTocLevel (parseInt (substring1 (c :: d :: rest)))
    = (N.eqb d 50 || N.eqb d 51).
Proof.
  intros c d rest D R.
  assert (P : parseInt (substring1 (c :: d :: rest)) = Some (Z.of_N d - 48)%Z).
  { unfold parseInt, substring1, tl, trimStart. cbn [dropWhile].
    assert (W : isWhiteSpace d = false) by (class_props; lia).
    assert (M : N.eqb d 45 = false) by (apply N.eqb_neq; class_props; lia).
    assert (Q : N.eqb d 43 = false) by (apply N.eqb_neq; class_props; lia).
    assert (Z0 : N.eqb d 48 = false) by (apply N.eqb_neq; class_props; lia).
    rewrite W, M, Q.
    assert (G : parseDigits 10 (d :: rest) None = Some (Z.of_N d - 48)%Z).
    { cbn [parseDigits]. unfold digitValue.
      assert (B : between 48 57 d = true) by (class_props; lia).
      rewrite B.
      destruct (Z.ltb_spec (Z.of_N d - 48) 10) as [_|X];
        [|exfalso; class_props; lia].
      destruct rest as [|x r]; [reflexivity|].
      apply parseDigits_stop. now apply negb_true_iff. }
    destruct rest as [|x r].
    - rewrite G. cbn [option_map]. f_equal. lia.
    - rewrite Z0. cbn [andb]. rewrite G. cbn [option_map]. f_equal. lia. }
  split; [exact P|]. rewrite P. unfold isTocLevel.
  destruct (N.eqb_spec d 50) as [->|A]; [reflexivity|].
  destruct (N.eqb_spec d 51) as [->|B]; [reflexivity|].
  cbn [orb]. apply not_true_iff_false. intros X.
  apply andb_true_iff in X as [X1 X2]. apply Z.leb_le in X1, X2. lia.
Qed.

Lemma level_of_tag_witness :
  parseInt (substring1 (lit "h3")) = Some 3%Z /\
  isTocLevel (parseInt (substring1 (lit "h3"))) = true /\
  isTocLevel (parseInt (substring1 (lit "x4-wide"))) = false.
Proof.
  split; [|split].
  - exact (proj1 (level_of_tag 104 51 [] eq_refl eq_refl)).
  - exact (proj2 (level_of_tag 104 51 [] eq_refl eq_refl)).
  - exact (proj2 (level_of_tag 120 52 (lit "-wide") eq_refl eq_refl)).
Defined.

(** ** Navigation list *)

Lemma jeqb_eq a b : jeqb a b = true <-> a = b.
Proof.
  revert b. induction a as [|x a IH]; intros [|y b]; cbn [jeqb];
    try (split; [discriminate | discriminate]); [tauto|].
  rewrite andb_true_iff, N.eqb_eq, IH. split.
  - intros [-> ->]. reflexivity.
  - intros H. injection H as -> ->. auto.
Qed.

Lemma generateNav_flat pages cur :
  generateNav pages cur = navOpen ++ flat_map (navItem cur) pages ++ navClose.
Proof.
  unfold generateNav. cbv zeta.
  rewrite (fold_left_append (navItem cur)). unfold navOpen, navClose.
  now rewrite <- !app_assoc.
Qed.

(** X10: the navigation list is the opening tag, one item per manifest
    entry in order and the closing tag; an item carries the active class
    exactly when its page is the current one, so that, destinations being
    distinct, on the page of entry [i] the item of entry [i] is the one
    marked item. *)
Theorem generateNav_active :
  (forall pages cur,
     generateNav pages cur = navOpen ++ flat_map (navItem cur) pages ++ navClose) /\
  (forall cur p,
     isPrefix (lit "  <li" ++ activeClass) (navItem cur p) = true
     <-> Page.dest p = cur) /\
  (forall pages i j p q,
     NoDup (map Page.dest pages) ->
     nth_error pages i = Some p -> nth_error pages j = Some q ->
     (isPrefix (lit "  <li" ++ activeClass) (navItem (Page.dest p) q) = true
      <-> j = i)).
Proof.
  assert (A : forall cur p,
    isPrefix (lit "  <li" ++ activeClass) (navItem cur p) = true
    <-> Page.dest p = cur).
  { intros cur p. unfold navItem. rewrite <- jeqb_eq.
    destruct (jeqb (Page.dest p) cur).
    - split; reflexivity.
    - split; intros H; [cbn in H|]; discriminate H. }
  split; [|split; [exact A|]].
  - apply generateNav_flat.
  - intros pages i j p q N Hi Hj. rewrite A. split.
    + intros E. rewrite NoDup_nth_error in N. symmetry. apply N.
      * rewrite length_map. apply nth_error_Some. congruence.
      * rewrite !nth_error_map, Hi, Hj. cbn. now rewrite E.
    + intros ->. congruence.
Qed.

Lemma generateNav_active_witness :
  NoDup (map Page.dest pages) /\
  (isPrefix (lit "  <li" ++ activeClass)
     (navItem (Page.dest guidePage) guidePage) = true <-> 1 = 1).
Proof.
  assert (N : NoDup (map Page.dest pages)).
  { cbn. repeat constructor; cbn; intuition discriminate. }
  split; [exact N|].
  exact (proj2 (proj2 generateNav_active) pages 1 1 guidePage guidePage
           N eq_refl eq_refl).
Defined.

(** ** Pager *)

Lemma generatePageNav_shape pages i :
  generatePageNav pages i =
  pagerOpen
    ++ match (if (i >? 0)%Z then item pages (i - 1) else None) with
       | Some p => prevLink p
       | None => emptySlot
       end
    ++ match (if (i <? Z.of_nat (length pages) - 1)%Z
              then item pages (i + 1) else None) with
       | Some p => nextLink p
       | None => emptySlot
       end
    ++ pagerClose.
Proof.
  unfold generatePageNav, pagerOpen, pagerClose. cbv zeta.
  destruct (if (i >? 0)%Z then item pages (i - 1) else None);
    destruct (if (i <? Z.of_nat (length pages) - 1)%Z
              then item pages (i + 1) else None);
    unfold prevLink, nextLink, emptySlot; now rewrite <- !app_assoc.
Qed.

Lemma item_bounds {A} (a : list A) i x :
  item a i = Some x -> (0 <= i < Z.of_nat (length a))%Z.
Proof.
  unfold item. destruct (Z.ltb_spec i 0); [discriminate|].
  intros E. assert (Z.to_nat i < length a)%nat
    by (apply nth_error_Some; congruence). lia.
Qed.

(** X11: the pager of a page links forward to the entry after it and the
    pager of that entry links back to the page: next and previous are
    inverse to each other along the manifest. *)
Theorem pager_there_and_back : forall pages i p q,
  item pages i = Some p -> item pages (i + 1) = Some q ->
  (exists slot,
     generatePageNav pages i = pagerOpen ++ slot ++ nextLink q ++ pagerClose) /\
  (exists slot,
     generatePageNav pages (i + 1)
       = pagerOpen ++ prevLink p ++ slot ++ pagerClose).
Proof.
  intros pages i p q Hp Hq.
  pose proof (item_bounds _ _ _ Hp). pose proof (item_bounds _ _ _ Hq).
  split; rewrite generatePageNav_shape.
  - destruct (Z.ltb_spec i (Z.of_nat (length pages) - 1)); [|lia].
    rewrite Hq. eauto.
  - destruct (Z.gtb_spec (i + 1) 0); [|lia].
    replace (i + 1 - 1)%Z with i by lia. rewrite Hp. eauto.
Qed.

Lemma pager_there_and_back_witness :
  (exists slot,
     generatePageNav pages 1
       = pagerOpen ++ slot
           ++ nextLink (Page.mk (lit "docs/api-reference.md")
                          (lit "api-reference.html")
                          (lit "API Reference") (lit "API Reference"))
           ++ pagerClose) /\
  (exists slot,
     generatePageNav pages (1 + 1)
       = pagerOpen ++ prevLink guidePage ++ slot ++ pagerClose).
Proof.
  apply (pager_there_and_back pages 1); reflexivity.
Defined.

(** X12: away from the manifest, for an index below -1 or above its
    length, the pager holds two empty placeholders and links nowhere. *)
Theorem generatePageNav_outside : forall pages i,
  (i < -1 \/ Z.of_nat (length pages) < i)%Z ->
  generatePageNav pages i = pagerOpen ++ emptySlot ++ emptySlot ++ pagerClose.
Proof.
  intros pages i H. rewrite generatePageNav_shape.
  assert (P : (if (i >? 0)%Z then item pages (i - 1) else None) = None).
  { destruct (Z.gtb_spec i 0); [|reflexivity].
    unfold item. destruct (Z.ltb_spec (i - 1) 0); [reflexivity|].
    apply nth_error_None. lia. }
  assert (Q : (if (i <? Z.of_nat (length pages) - 1)%Z
               then item pages (i + 1) else None) = None).
  { destruct (Z.ltb_spec i (Z.of_nat (length pages) - 1)); [|reflexivity].
    unfold item. destruct (Z.ltb_spec (i + 1) 0); [reflexivity|]. lia. }
  now rewrite P, Q.
Qed.

Lemma generatePageNav_outside_witness :
  generatePageNav pages 8 = pagerOpen ++ emptySlot ++ emptySlot ++ pagerClose.
Proof. apply generatePageNav_outside. cbn. lia. Defined.

(** ** Replacement *)

Lemma isPrefix_app pat b : isPrefix pat (pat ++ b) = true.
Proof.
  induction pat as [|x pat IH]; [reflexivity|].
  cbn [app isPrefix]. now rewrite N.eqb_refl, IH.
Qed.

Lemma indexOf_none pat s :
  indexOf pat s = None -> forall q, isPrefix pat (skipn q s) = false.
Proof.
  induction s as [|c r IH]; intros H q.
  - cbn [indexOf] in H. destruct (isPrefix pat []) eqn:E; [discriminate|].
    now destruct q.
  - cbn [indexOf] in H. destruct (isPrefix pat (c :: r)) eqn:E; [discriminate|].
    destruct (indexOf pat r); [discriminate|].
    destruct q as [|q]; [exact E | now apply IH].
Qed.

Lemma skipn_exact {A} (a b : list A) : skipn (length a) (a ++ b) = b.
Proof. induction a as [|x a IH]; [reflexivity | exact IH]. Qed.

Lemma firstn_exact {A} (a b : list A) : firstn (length a) (a ++ b) = a.
Proof. induction a as [|x a IH]; [reflexivity | cbn; now rewrite IH]. Qed.

(** X13: a replacement leaves the text as it is, whatever the fragment,
    exactly when the placeholder is no substring of the text: without the
    placeholder every fragment returns the text unchanged, and with it some
    fragment does not, the empty one for instance (a letter, when the
    placeholder itself is empty).  The search of [indexOf] finds nothing
    exactly then. *)
Theorem replace_absent : forall pat s,
  (indexOf pat s = None <-> ~ exists a b, s = a ++ pat ++ b) /\
  ((forall frag, replace s pat frag = s) <-> ~ exists a b, s = a ++ pat ++ b) /\
  ((exists a b, s = a ++ pat ++ b) ->
   replace s pat (match pat with [] => lit "A" | _ :: _ => [] end) <> s).
Proof.
  intros pat s.
  assert (E : indexOf pat s = None <-> ~ exists a b, s = a ++ pat ++ b).
  { split.
    - intros H (a & b & ->).
      pose proof (indexOf_none _ _ H (length a)) as X.
      now rewrite skipn_exact, isPrefix_app in X.
    - intros H. destruct (indexOf pat s) as [p|] eqn:I; [|reflexivity].
      exfalso. apply H. destruct (indexOf_first _ _ _ I) as [A _].
      apply isPrefix_split in A.
      exists (firstn p s), (skipn (length pat) (skipn p s)).
      rewrite <- A. symmetry. apply firstn_skipn. }
  assert (D : (exists a b, s = a ++ pat ++ b) ->
              replace s pat (match pat with [] => lit "A" | _ :: _ => [] end)
              <> s).
  { intros X. destruct (indexOf pat s) as [p|] eqn:I;
      [|exfalso; exact (proj1 E eq_refl X)].
    unfold replace. rewrite I. cbv zeta. intros R.
    assert (S : s = firstn p s ++ pat ++ skipn (p + length pat) s).
    { destruct (indexOf_first _ _ _ I) as [A _]. apply isPrefix_split in A.
      rewrite skipn_skipn in A. rewrite (Nat.add_comm p), <- A.
      symmetry. apply firstn_skipn. }
    remember (skipn (p + length pat) s) as after eqn:Ha.
    remember (firstn p s) as before eqn:Hb.
    apply (f_equal (@length _)) in R. rewrite S in R at 1. clear - R.
    rewrite !length_app in R.
    destruct pat as [|c pat]; cbn in R; lia. }
  split; [exact E|]. split; [|exact D]. split.
  - intros H X. exact (D X (H _)).
  - intros H frag. apply E in H. unfold replace. now rewrite H.
Qed.

Lemma replace_absent_witness :
  (~ exists a b, lit "<html></html>" = a ++ lit "{{TOC}}" ++ b) /\
  replace (lit "<html></html>") (lit "{{TOC}}") (lit "<nav/>")
    = lit "<html></html>" /\
  replace (lit "<html>{{TOC}}</html>") (lit "{{TOC}}") [] <> lit "<html>{{TOC}}</html>".
Proof.
  assert (N : ~ exists a b, lit "<html></html>" = a ++ lit "{{TOC}}" ++ b)
    by (apply (proj1 (replace_absent (lit "{{TOC}}") (lit "<html></html>")));
        reflexivity).
  split; [exact N|]. split.
  - exact (proj2 (proj1 (proj2 (replace_absent (lit "{{TOC}}")
                                  (lit "<html></html>")))) N _).
  - apply (proj2 (proj2 (replace_absent (lit "{{TOC}}")
                           (lit "<html>{{TOC}}</html>")))).
    exists (lit "<html>"), (lit "</html>"). reflexivity.
Defined.

(** X14: a fragment is read as a replacement pattern, so it is not always
    inserted as it is: the fragment [$&] puts the placeholder back, [$$]
    inserts one dollar sign, and [$`] and [$'] insert the text before and
    after the placeholder. *)
Theorem replace_dollar_patterns : forall s tok p,
  indexOf tok s = Some p ->
  replace s tok (lit "$&") = s /\
  replace s tok (lit "$$") = firstn p s ++ lit "$" ++ skipn (p + length tok) s /\
  replace s tok (lit "$`")
    = firstn p s ++ firstn p s ++ skipn (p + length tok) s /\
  replace s tok (lit "$'")
    = firstn p s ++ skipn (p + length tok) s ++ skipn (p + length tok) s.
Proof.
  intros s tok p H. unfold replace. rewrite H. cbv zeta.
  change (lit "$&") with [36%N; 38%N]. change (lit "$$") with [36%N; 36%N].
  change (lit "$`") with [36%N; 96%N]. change (lit "$'") with [36%N; 39%N].
  cbn [getSubstitution N.eqb Pos.eqb]. rewrite !app_nil_r.
  repeat split.
  destruct (indexOf_first _ _ _ H) as [A _]. apply isPrefix_split in A.
  rewrite skipn_skipn in A. rewrite (Nat.add_comm p), <- A.
  apply firstn_skipn.
Qed.

Lemma replace_dollar_patterns_witness :
  replace (lit "<main>{{CONTENT}}</main>") (lit "{{CONTENT}}") (lit "$&")
    = lit "<main>{{CONTENT}}</main>" /\
  replace (lit "<main>{{CONTENT}}</main>") (lit "{{CONTENT}}") (lit "$$")
    = lit "<main>$</main>".
Proof.
  destruct (replace_dollar_patterns (lit "<main>{{CONTENT}}</main>")
              (lit "{{CONTENT}}") 6 eq_refl) as (A & B & _).
  split; [exact A | exact B].
Defined.

(** ** Filling a template *)

Lemma indexOf_after_clean head c tok rest :
  braceFree head = true -> c = 123%N ->
  indexOf (c :: tok) (head ++ c :: tok ++ rest) = Some (length head).
Proof.
  intros B ->. induction head as [|x head IH].
  - cbn [app length indexOf]. change (123%N :: tok ++ rest)
      with ((123%N :: tok) ++ rest). now rewrite isPrefix_app.
  - cbn [braceFree noUnit forallb] in B. apply andb_true_iff in B as [Bx B].
    apply negb_true_iff in Bx.
    cbn [app length indexOf isPrefix]. rewrite N.eqb_sym, Bx. cbn [andb].
    unfold braceFree, noUnit in IH. now rewrite (IH B).
Qed.

Lemma indexOf_clean head c tok :
  braceFree head = true -> c = 123%N -> indexOf (c :: tok) head = None.
Proof.
  intros B ->. induction head as [|x head IH]; [reflexivity|].
  cbn [braceFree noUnit forallb] in B. apply andb_true_iff in B as [Bx B].
  apply negb_true_iff in Bx.
  cbn [indexOf isPrefix]. rewrite N.eqb_sym, Bx. cbn [andb].
  unfold braceFree, noUnit in IH. now rewrite (IH B).
Qed.

Lemma dollarFree_plain matched before after frag :
  dollarFree frag = true -> getSubstitution matched before after frag = frag.
Proof.
  intros D. apply getSubstitution_plain. intros H.
  unfold dollarFree, noUnit in D. rewrite forallb_forall in D.
  specialize (D _ H). now rewrite N.eqb_refl in D.
Qed.

Lemma noUnit_app u a b : noUnit u (a ++ b) = noUnit u a && noUnit u b.
Proof. apply forallb_app. Qed.

Lemma replace_clean head tok frag rest :
  braceFree head = true ->
  match tok with c :: _ => N.eqb c 123 | [] => false end = true ->
  dollarFree frag = true ->
  replace (head ++ tok ++ rest) tok frag = head ++ frag ++ rest.
Proof.
  intros B T D. destruct tok as [|c tok]; [discriminate|].
  apply N.eqb_eq in T. subst c. unfold replace.
  change ((123%N :: tok) ++ rest) with (123%N :: tok ++ rest).
  rewrite (indexOf_after_clean head 123 tok rest B eq_refl).
  cbv zeta. rewrite dollarFree_plain by assumption.
  rewrite firstn_exact.
  change (123%N :: tok ++ rest) with ((123%N :: tok) ++ rest).
  do 2 f_equal.
  rewrite Nat.add_comm, <- skipn_skipn, skipn_exact, skipn_exact. reflexivity.
Qed.

Lemma compose_clean_slots : forall slots head,
  braceFree head = true -> cleanSlots slots = true ->
  compose (templateOf head slots) (stepsOf slots) = pageOf head slots.
Proof.
  induction slots as [|[[tok frag] tail] rest IH]; intros head B C.
  - reflexivity.
  - cbn [cleanSlots slotToken slotFragment slotTail fst snd] in C.
    apply andb_true_iff in C as [C Crest].
    apply andb_true_iff in C as [C Cfrag].
    apply andb_true_iff in C as [C Ctail].
    apply andb_true_iff in C as [Ctok Cdollar].
    unfold templateOf, pageOf, stepsOf, compose in *.
    cbn [flat_map map fold_left slotToken slotFragment slotTail fst snd].
    rewrite <- !app_assoc, replace_clean by assumption.
    destruct rest as [|sl rest]; [reflexivity|].
    specialize (IH (head ++ frag ++ tail)).
    rewrite <- !app_assoc in IH. apply IH; [|assumption].
    unfold braceFree in *. now rewrite !noUnit_app, B, Cfrag, Ctail.
Qed.

(** X15: when the template is text without braces interleaved with
    placeholder tokens, in the order of the replacements, and the
    fragments hold no dollar sign and (but for the last) no brace, the
    replacements put every fragment in the place of its token and leave
    the text between them as it is. *)
Theorem compose_fills : forall slots head,
  braceFree head = true -> cleanSlots slots = true ->
  compose (templateOf head slots) (stepsOf slots) = pageOf head slots.
Proof. exact compose_clean_slots. Qed.

Lemma compose_fills_witness :
  compose (lit "<h1>{{TITLE}}</h1><main>{{CONTENT}}</main>")
    [(lit "{{TITLE}}", lit "Guide"); (lit "{{CONTENT}}", lit "<p>{x}</p>")]
  = lit "<h1>Guide</h1><main><p>{x}</p></main>".
Proof.
  apply (compose_fills
           [ (lit "{{TITLE}}", lit "Guide", lit "</h1><main>");
             (lit "{{CONTENT}}", lit "<p>{x}</p>", lit "</main>") ]
           (lit "<h1>")); reflexivity.
Defined.

(** X17: a template without braces has no placeholder: every page built
    from it is the template itself. *)
Theorem buildPage_plain_template : forall template tokens content page index hs,
  braceFree template = true ->
  extractHeadings tokens = Ok hs ->
  buildPage template tokens content page index = Ok template.
Proof.
  intros template tokens content page index hs B H.
  unfold buildPage. rewrite H. cbn [bind]. cbv zeta.
  assert (R : forall tok frag,
            replace template (123%N :: tok) frag = template).
  { intros tok frag. unfold replace.
    now rewrite (indexOf_clean template 123 tok B eq_refl). }
  change (lit "{{TITLE}}") with (123%N :: lit "{TITLE}}").
  change (lit "{{NAV}}") with (123%N :: lit "{NAV}}").
  change (lit "{{BREADCRUMB}}") with (123%N :: lit "{BREADCRUMB}}").
  change (lit "{{TOC}}") with (123%N :: lit "{TOC}}").
  change (lit "{{CONTENT}}") with (123%N :: lit "{CONTENT}}").
  change (lit "{{PAGE_NAV}}") with (123%N :: lit "{PAGE_NAV}}").
  now rewrite !R.
Qed.

Lemma buildPage_plain_template_witness :
  buildPage (lit "<html>under construction</html>") sampleDocument
    (lit "<p>body</p>") guidePage 1
  = Ok (lit "<html>under construction</html>").
Proof.
  apply (buildPage_plain_template _ _ _ _ _ sampleHeadings); reflexivity.
Defined.

(** ** Building a page from a full template *)

Lemma noUnit_flat_map {A} u (f : A -> jstring) l :
  (forall x, In x l -> noUnit u (f x) = true) ->
  noUnit u (flat_map f l) = true.
Proof.
  induction l as [|x l IH]; intros H; [reflexivity|].
  cbn [flat_map]. rewrite noUnit_app, H, IH; auto using in_eq, in_cons.
Qed.

Section MarkupUnits.

Variable u : codeUnit.
Hypothesis markup : u = 123%N \/ u = 36%N.

Lemma nav_noUnit cur : noUnit u (generateNav pages cur) = true.
Proof.
  rewrite generateNav_flat, !noUnit_app.
  assert (I : noUnit u (flat_map (navItem cur) pages) = true).
  { apply noUnit_flat_map. intros p Hp. unfold navItem.
    cbn in Hp. destruct markup as [-> | ->];
      repeat (destruct Hp as [<-|Hp];
              [destruct (jeqb _ cur); reflexivity|]); destruct Hp. }
  rewrite I. destruct markup as [-> | ->]; reflexivity.
Qed.

Lemma crumb_noUnit title :
  noUnit u title = true -> noUnit u (generateBreadcrumb title) = true.
Proof.
  intros T. unfold generateBreadcrumb.
  destruct (jeqb title (lit "Getting Started")).
  - destruct markup as [-> | ->]; reflexivity.
  - rewrite !noUnit_app, T. destruct markup as [-> | ->]; reflexivity.
Qed.

Lemma pager_noUnit i : noUnit u (generatePageNav pages i) = true.
Proof.
  assert (L : forall p, In p pages ->
            noUnit u (prevLink p) = true /\ noUnit u (nextLink p) = true).
  { intros p Hp. cbn in Hp. destruct markup as [-> | ->];
      repeat (destruct Hp as [<-|Hp]; [split; reflexivity|]); destruct Hp. }
  assert (E : noUnit u emptySlot = true)
    by (destruct markup as [-> | ->]; reflexivity).
  assert (I : forall j p, item pages j = Some p -> In p pages).
  { intros j p. unfold item. destruct (j <? 0)%Z; [discriminate|].
    apply nth_error_In. }
  rewrite generatePageNav_shape, !noUnit_app.
  assert (P : noUnit u match (if (i >? 0)%Z then item pages (i - 1) else None) with
                       | Some p => prevLink p
                       | None => emptySlot
                       end = true).
  { destruct (i >? 0)%Z; [|exact E].
    destruct (item pages (i - 1)) as [p|] eqn:X; [|exact E].
    exact (proj1 (L p (I _ _ X))). }
  assert (Q : noUnit u match (if (i <? Z.of_nat (length pages) - 1)%Z
                              then item pages (i + 1) else None) with
                       | Some p => nextLink p
                       | None => emptySlot
                       end = true).
  { destruct (i <? Z.of_nat (length pages) - 1)%Z; [|exact E].
    destruct (item pages (i + 1)) as [p|] eqn:X; [|exact E].
    exact (proj2 (L p (I _ _ X))). }
  apply andb_true_iff. split; [destruct markup as [-> | ->]; reflexivity|].
  apply andb_true_iff. split; [exact P|].
  apply andb_true_iff. split; [exact Q|].
  destruct markup as [-> | ->]; reflexivity.
Qed.

Lemma slug_noUnit s t : slugify s = Ok t -> noUnit u t = true.
Proof.
  intros H. apply slug_units in H. unfold noUnit.
  rewrite forallb_forall in *. intros c Hc. specialize (H c Hc).
  apply negb_true_iff, N.eqb_neq. intros ->.
  destruct markup as [-> | ->]; discriminate H.
Qed.

Lemma toc_noUnit hs :
  (forall h, In h hs ->
     noUnit u (Heading.content h) = true /\ noUnit u (Heading.id h) = true) ->
  noUnit u (generateTOC hs) = true.
Proof.
  intros H. unfold generateTOC.
  destruct (Nat.eqb (length hs) 0); [reflexivity|]. cbv zeta.
  rewrite fold_left_append, !noUnit_app.
  assert (I : noUnit u (flat_map tocItem hs) = true).
  { apply noUnit_flat_map. intros h Hh. destruct (H h Hh) as [C D].
    unfold tocItem, quoted. cbv zeta. rewrite !noUnit_app, C, D.
    destruct (Heading.level h =? 3)%Z;
      destruct markup as [-> | ->]; reflexivity. }
  rewrite I. destruct markup as [-> | ->]; reflexivity.
Qed.

End MarkupUnits.

Lemma clean_units s : clean s = true ->
  noUnit 123%N s = true /\ noUnit 36%N s = true.
Proof. unfold clean, braceFree, dollarFree. apply andb_true_iff. Qed.

(** X16: from a template in which the six placeholders stand in the order
    of their replacements between texts without braces, and for a page
    title, heading texts and a body without braces and dollar signs,
    [buildPage] returns the template with the title, the navigation list,
    the breadcrumb, the table of contents, the body and the pager in the
    places of their placeholders. *)
Theorem buildPage_fills :
  forall t0 t1 t2 t3 t4 t5 t6 tokens content page index hs,
  forallb braceFree [t0; t1; t2; t3; t4; t5; t6] = true ->
  clean (Page.title page) = true ->
  forallb (fun h => clean (snd h)) (documentHeadings tokens) = true ->
  clean content = true ->
  extractHeadings tokens = Ok hs ->
  buildPage
    (t0 ++ lit "{{TITLE}}" ++ t1 ++ lit "{{NAV}}" ++ t2
        ++ lit "{{BREADCRUMB}}" ++ t3 ++ lit "{{TOC}}" ++ t4
        ++ lit "{{CONTENT}}" ++ t5 ++ lit "{{PAGE_NAV}}" ++ t6)
    tokens content page index
  = Ok (t0 ++ Page.title page ++ t1 ++ generateNav pages (Page.dest page) ++ t2
           ++ generateBreadcrumb (Page.title page) ++ t3 ++ generateTOC hs ++ t4
           ++ content ++ t5 ++ generatePageNav pages index ++ t6).
Proof.
  intros t0 t1 t2 t3 t4 t5 t6 tokens content page index hs B T D C H.
  cbn [forallb] in B. repeat (apply andb_true_iff in B as [?B B]).
  apply clean_units in T as [T1 T2]. apply clean_units in C as [C1 C2].
  assert (K : forall u, u = 123%N \/ u = 36%N ->
            noUnit u (generateTOC hs) = true).
  { intros u Hu. apply toc_noUnit; [exact Hu|]. intros h Hh.
    rewrite extractHeadings_scan in H.
    destruct (scanHeadings_inv _ _ _ H) as [F S].
    destruct (scanHeadings_ok tokens [] F S) as (hs' & R & V & I).
    rewrite R in H. injection H as <-. split.
    - apply (in_map headingView) in Hh. rewrite V in Hh.
      apply filter_In in Hh as [Hh _].
      rewrite forallb_forall in D. specialize (D _ Hh). cbn in D.
      apply clean_units in D. destruct Hu as [-> | ->]; tauto.
    - rewrite Forall_forall in I. eapply slug_noUnit; eauto. }
  unfold buildPage. rewrite H. cbn [bind]. cbv zeta. f_equal.
  pose proof (compose_clean_slots
    [ (lit "{{TITLE}}", Page.title page, t1);
      (lit "{{NAV}}", generateNav pages (Page.dest page), t2);
      (lit "{{BREADCRUMB}}", generateBreadcrumb (Page.title page), t3);
      (lit "{{TOC}}", generateTOC hs, t4);
      (lit "{{CONTENT}}", content, t5);
      (lit "{{PAGE_NAV}}", generatePageNav pages index, t6) ] t0 B0) as X.
  unfold templateOf, pageOf, stepsOf, compose in X.
  cbn [flat_map map fold_left slotToken slotFragment slotTail fst snd] in X.
  rewrite <- (app_assoc (lit "{{TITLE}}") t1),
    <- (app_assoc (lit "{{NAV}}") t2), <- (app_assoc (lit "{{BREADCRUMB}}") t3),
    <- (app_assoc (lit "{{TOC}}") t4), <- (app_assoc (lit "{{CONTENT}}") t5),
    <- (app_assoc (lit "{{PAGE_NAV}}") t6), (app_nil_r t6),
    <- (app_assoc (Page.title page) t1),
    <- (app_assoc (generateNav pages (Page.dest page)) t2),
    <- (app_assoc (generateBreadcrumb (Page.title page)) t3),
    <- (app_assoc (generateTOC hs) t4), <- (app_assoc content t5),
    <- (app_assoc (generatePageNav pages index) t6), (app_nil_r t6) in X.
  apply X. clear X.
  cbn [cleanSlots slotToken slotFragment slotTail fst snd].
  unfold braceFree, dollarFree in *.
  rewrite T1, T2, C1, C2, B1, B2, B3, B4, B5, B6.
  rewrite !nav_noUnit, !crumb_noUnit, !K, pager_noUnit by auto.
  reflexivity.
Qed.

Lemma buildPage_fills_witness :
  exists html,
    buildPage
      (lit "<title>" ++ lit "{{TITLE}}" ++ lit "</title>" ++ lit "{{NAV}}"
         ++ lit "<hr>" ++ lit "{{BREADCRUMB}}" ++ lit "<aside>" ++ lit "{{TOC}}"
         ++ lit "</aside><main>" ++ lit "{{CONTENT}}" ++ lit "</main>"
         ++ lit "{{PAGE_NAV}}" ++ lit "<!-- end -->")
      sampleDocument (lit "<p>body</p>") guidePage 1
    = Ok html /\
    html = lit "<title>" ++ lit "Guide" ++ lit "</title>"
             ++ generateNav pages (lit "guide.html") ++ lit "<hr>"
             ++ generateBreadcrumb (lit "Guide") ++ lit "<aside>"
             ++ generateTOC sampleHeadings ++ lit "</aside><main>"
             ++ lit "<p>body</p>" ++ lit "</main>"
             ++ generatePageNav pages 1 ++ lit "<!-- end -->".
Proof.
  eexists. split; [|reflexivity].
  apply (buildPage_fills (lit "<title>") (lit "</title>") (lit "<hr>")
           (lit "<aside>") (lit "</aside><main>") (lit "</main>")
           (lit "<!-- end -->") sampleDocument (lit "<p>body</p>") guidePage 1
           sampleHeadings); reflexivity.
Defined.

(** ** A run of the script *)

Lemma lookup_app_other path written fs :
  Forall (fun x => jeqb path (fst x) = false) written ->
  Run.lookup path (written ++ fs) = Run.lookup path fs.
Proof.
  induction 1 as [|[p text] written H _ IH]; [reflexivity|].
  cbn [app Run.lookup]. cbn [fst] in H. now rewrite H.
Qed.

Lemma buildPage_returns template tokens content page index hs :
  extractHeadings tokens = Ok hs ->
  exists html, buildPage template tokens content page index = Ok html.
Proof. intros H. unfold buildPage. rewrite H. cbn [bind]. eauto. Qed.

(** The console does not bear on a read or a write. *)
Lemma read_console w c path :
  Run.read (Run.World (Run.files w) (Run.dirs w) (Run.locked w) c) path
  = Run.read w path.
Proof. reflexivity. Qed.

Lemma writeFailure_console w c path :
  Run.writeFailure (Run.World (Run.files w) (Run.dirs w) (Run.locked w) c) path
  = Run.writeFailure w path.
Proof. reflexivity. Qed.

(** One page of a run, by the text it renders and the write of it. *)
Lemma buildPageRun_render e page index w :
  buildPageRun e page index w =
  match renderPage e w page index with
  | Run.Done html =>
    match Run.writeFailure w (outputPath e page) with
    | None =>
      (Run.Done tt,
       Run.World ((outputPath e page, html) :: Run.files w) (Run.dirs w)
         (Run.locked w)
         (Run.console w
            ++ [lit "Building " ++ Page.dest page ++ lit "..."]
            ++ [lit "  " ++ check ++ lit " Created " ++ Page.dest page]))
    | Some f =>
      (Run.Failed f,
       Run.World (Run.files w) (Run.dirs w) (Run.locked w)
         (Run.console w ++ [lit "Building " ++ Page.dest page ++ lit "..."]))
    end
  | Run.Failed f =>
    (Run.Failed f,
     Run.World (Run.files w) (Run.dirs w) (Run.locked w)
       (Run.console w ++ [lit "Building " ++ Page.dest page ++ lit "..."]))
  end.
Proof.
  unfold buildPageRun, renderPage, Run.bind, Run.log, Run.readFileSync,
    Run.lift, Run.writeFileSync, sourcePath, outputPath.
  rewrite read_console.
  destruct (Run.read w (Run.join e (Run.tinqerRepo e) (Page.src page)))
    as [markdown|f]; [|reflexivity].
  cbv zeta. unfold buildPage.
  destruct (extractHeadings (Run.mdParse e markdown)) as [hs|x]; [|reflexivity].
  cbn [bind]. rewrite read_console.
  destruct (Run.read w (Run.templatePath e)) as [template|f]; [|reflexivity].
  cbv zeta. rewrite writeFailure_console.
  destruct (Run.writeFailure w _) as [f|]; [reflexivity|].
  cbn [Run.files Run.dirs Run.locked Run.console].
  now rewrite <- app_assoc.
Qed.

Lemma canWrite_ok w path :
  canWrite w path = true -> Run.writeFailure w path = None.
Proof.
  unfold canWrite, Run.writeFailure. intros H.
  apply andb_true_iff in H as [H D]. apply andb_true_iff in H as [L P].
  apply negb_true_iff in L, P. now rewrite L, P, D.
Qed.

Lemma existsb_incl {A} (f : A -> bool) l l' :
  incl l' l -> existsb f l = false -> existsb f l' = false.
Proof.
  intros I H. destruct (existsb f l') eqn:E; [|reflexivity].
  apply existsb_exists in E as (x & Hx & Fx).
  assert (existsb f l = true) by (apply existsb_exists; eauto). congruence.
Qed.

(** Once the build directory is there, every output can be written. *)
Lemma outputs_writable e w w1 :
  outputsFree e w = true ->
  Run.locked w1 = Run.locked w ->
  incl (Run.dirs w1)
       (Run.buildDir e :: Run.ancestors (Run.buildDir e) ++ Run.dirs w) ->
  Run.isDirectory w1 (Run.buildDir e) = true ->
  forall out, In out (outputPaths e) -> canWrite w1 out = true.
Proof.
  intros F L I D out Hout. unfold outputsFree in F.
  rewrite forallb_forall in F. specialize (F out Hout).
  apply andb_true_iff in F as [F N]. apply andb_true_iff in F as [P K].
  apply jeqb_eq in P. apply negb_true_iff in N, K.
  unfold canWrite. rewrite P, D, andb_true_r.
  unfold Run.isLocked in *. rewrite L, K. cbn [negb andb].
  apply negb_true_iff. unfold Run.isDirectory.
  destruct out as [|c out].
  - exfalso. cbn in P. rewrite <- P in N. cbn in N. discriminate.
  - exact (existsb_incl _ _ _ I N).
Qed.

Section Separate.

Variable e : Run.env.
Hypothesis apart : separate e = true.

Lemma input_not_output i o :
  In i (inputPaths e) -> In o (outputPaths e) -> jeqb i o = false.
Proof.
  intros Hi Ho. unfold separate in apart.
  rewrite forallb_forall in apart. specialize (apart i Hi).
  rewrite forallb_forall in apart. specialize (apart o Ho).
  now apply negb_true_iff.
Qed.

Lemma lookup_input i written fs :
  In i (inputPaths e) ->
  Forall (fun x => In (fst x) (outputPaths e)) written ->
  Run.lookup i (written ++ fs) = Run.lookup i fs.
Proof.
  intros Hi W. apply lookup_app_other.
  eapply Forall_impl; [|exact W]. intros x Hx. now apply input_not_output.
Qed.

(** A read of an input is not disturbed by writes to the outputs. *)
Lemma read_input i written w w' :
  In i (inputPaths e) ->
  Forall (fun x => In (fst x) (outputPaths e)) written ->
  Run.files w' = written ++ Run.files w ->
  Run.locked w' = Run.locked w ->
  Run.read w' i = Run.read w i.
Proof.
  intros Hi W F L. unfold Run.read, Run.isLocked.
  now rewrite F, L, lookup_input.
Qed.

Lemma renderPage_stable written w w' page index :
  In page pages ->
  Forall (fun x => In (fst x) (outputPaths e)) written ->
  Run.files w' = written ++ Run.files w ->
  Run.locked w' = Run.locked w ->
  renderPage e w' page index = renderPage e w page index.
Proof.
  intros Hp W F L. unfold renderPage.
  rewrite !(read_input _ written w w'); auto.
  - now left.
  - right. right. now apply in_map.
Qed.

(** The pages of a run are the planned ones, when the outputs can be
    written. *)
Lemma forEachPage_plan w0 ps : forall index w written,
  incl ps pages ->
  Run.files w = written ++ Run.files w0 ->
  Run.locked w = Run.locked w0 ->
  Forall (fun x => In (fst x) (outputPaths e)) written ->
  (forall out, In out (outputPaths e) -> canWrite w out = true) ->
  exists w',
    forEachPage e ps index w
      = (outcomeOf (snd (planPages e w0 ps index)), w') /\
    Run.files w' = rev (fst (planPages e w0 ps index)) ++ Run.files w /\
    Run.dirs w' = Run.dirs w.
Proof.
  induction ps as [|page rest IH]; intros index w written I F L W C.
  - exists w. repeat split; reflexivity.
  - assert (Hp : In page pages) by (apply I; now left).
    assert (Ho : In (outputPath e page) (outputPaths e)).
    { right. right. unfold outputPath.
      now apply (in_map (fun p => Run.join e (Run.buildDir e) (Page.dest p))). }
    cbn [forEachPage planPages]. unfold Run.bind at 1.
    rewrite buildPageRun_render.
    rewrite (renderPage_stable written w0 w) by assumption.
    destruct (renderPage e w0 page index) as [html|f].
    + rewrite (canWrite_ok _ _ (C _ Ho)).
      edestruct (IH (index + 1)%Z
                   (Run.World ((outputPath e page, html) :: Run.files w)
                      (Run.dirs w) (Run.locked w)
                      (Run.console w
                         ++ [lit "Building " ++ Page.dest page ++ lit "..."]
                         ++ [lit "  " ++ check ++ lit " Created "
                               ++ Page.dest page]))
                   ((outputPath e page, html) :: written))
        as (w' & R & Fw & Dw).
      * intros x Hx. apply I. now right.
      * cbn [Run.files]. now rewrite F.
      * exact L.
      * constructor; [exact Ho | assumption].
      * exact C.
      * exists w'. rewrite R.
        destruct (planPages e w0 rest (index + 1)) as [ws fl].
        cbn [fst snd] in *. split; [reflexivity|]. split; [|exact Dw].
        rewrite Fw. cbn [Run.files rev]. now rewrite <- app_assoc.
    + eexists. repeat split; reflexivity.
Qed.

Lemma bind_done {A B} (m : Run.io A) (k : A -> Run.io B) w a w1 :
  m w = (Run.Done a, w1) -> Run.bind m k w = k a w1.
Proof. intros H. unfold Run.bind. now rewrite H. Qed.

Lemma bind_failed {A B} (m : Run.io A) (k : A -> Run.io B) w f w1 :
  m w = (Run.Failed f, w1) -> Run.bind m k w = (Run.Failed f, w1).
Proof. intros H. unfold Run.bind. now rewrite H. Qed.

Lemma copy_ok from to text w :
  Run.read w from = Run.Done text ->
  canWrite w to = true ->
  Run.copyFileSync from to w =
  (Run.Done tt,
   Run.World ((to, text) :: Run.files w) (Run.dirs w) (Run.locked w)
     (Run.console w)).
Proof.
  intros R C. unfold Run.copyFileSync, Run.bind, Run.readFileSync,
    Run.writeFileSync.
  now rewrite R, (canWrite_ok _ _ C).
Qed.

Lemma makeDirs_console w c chain : forall made,
  Run.makeDirs (Run.World (Run.files w) (Run.dirs w) (Run.locked w) c) chain made
  = Run.makeDirs w chain made.
Proof.
  induction chain as [|d chain IH]; intros made; [reflexivity|].
  cbn [Run.makeDirs]. rewrite !IH. reflexivity.
Qed.

Lemma mkdirFailure_console w c path :
  Run.mkdirFailure (Run.World (Run.files w) (Run.dirs w) (Run.locked w) c) path
  = Run.mkdirFailure w path.
Proof. unfold Run.mkdirFailure. now rewrite makeDirs_console. Qed.

Lemma makeDirs_made w chain : forall made,
  fst (Run.makeDirs w chain made) = None ->
  incl (snd (Run.makeDirs w chain made)) (chain ++ made) /\
  incl made (snd (Run.makeDirs w chain made)) /\
  (forall d, In d chain -> Run.isDirectory w d = false ->
     In d (snd (Run.makeDirs w chain made))).
Proof.
  induction chain as [|c chain IH]; intros made H; cbn [Run.makeDirs] in *.
  - repeat split; auto using incl_refl. intros d [].
  - destruct (Run.isDirectory w c) eqn:D.
    + destruct (IH made H) as (A & B & C). split; [|split].
      * intros x Hx. apply A in Hx. now right.
      * exact B.
      * intros d [<-|Hd] N; [congruence | auto].
    + destruct (Run.isFile w c || Run.isLocked w c); [discriminate|].
      destruct (IH (c :: made) H) as (A & B & C). split; [|split].
      * intros x Hx. apply A in Hx. apply in_app_or in Hx as [Hx|[<-|Hx]].
        -- right. apply in_or_app. now left.
        -- now left.
        -- right. apply in_or_app. now right.
      * intros x Hx. apply B. now right.
      * intros d [<-|Hd] N; [apply B; now left | auto].
Qed.

(** The directories once the build directory is seen to. *)
Lemma mkdir_made w path :
  Run.mkdirFailure w path = None ->
  exists ds,
    (if negb (Run.isDirectory w path || Run.isFile w path)
     then Run.mkdirSync path else Run.ret tt) w
    = (Run.Done tt, Run.World (Run.files w) ds (Run.locked w) (Run.console w)) /\
    incl ds (path :: Run.ancestors path ++ Run.dirs w) /\
    (forall fs lk c, Run.isDirectory (Run.World fs ds lk c) path = true).
Proof.
  intros M. unfold Run.mkdirFailure in M.
  destruct (Run.isDirectory w path) eqn:D.
  - cbn [orb negb]. exists (Run.dirs w). split; [now destruct w|]. split.
    + intros x Hx. right. apply in_or_app. now right.
    + intros fs lk c. exact D.
  - destruct (makeDirs_made w (rev (path :: Run.ancestors path)) [] M)
      as (A & _ & C).
    assert (F : Run.isFile w path = false).
    { destruct (Run.isFile w path) eqn:F; [|reflexivity]. exfalso.
      clear A C. revert M. generalize (@nil jstring).
      assert (I : In path (rev (path :: Run.ancestors path)))
        by (apply in_rev; rewrite rev_involutive; now left).
      induction (rev (path :: Run.ancestors path)) as [|c chain IH];
        [destruct I|]. intros made. cbn [Run.makeDirs].
      destruct I as [->|I].
      - now rewrite D, F.
      - destruct (Run.isDirectory w c); [now apply IH|].
        destruct (Run.isFile w c || Run.isLocked w c); [discriminate|].
        now apply IH. }
    rewrite F. cbn [orb negb]. unfold Run.mkdirSync. rewrite D.
    destruct (Run.makeDirs w (rev (path :: Run.ancestors path)) []) as [fl made].
    cbn [fst snd] in *. subst fl. eexists. split; [reflexivity|]. split.
    + intros x Hx. apply in_app_or in Hx as [Hx|Hx].
      * apply A in Hx. rewrite app_nil_r in Hx. apply in_rev in Hx.
        destruct Hx as [<-|Hx]; [now left|]. right. apply in_or_app. now left.
      * right. apply in_or_app. now right.
    + intros fs lk c. unfold Run.isDirectory in *.
      destruct path as [|c0 p]; [reflexivity|]. cbn [Run.dirs].
      apply existsb_exists. exists (c0 :: p). split; [|now apply jeqb_eq].
      apply in_or_app. left. apply C; [|exact D].
      apply in_rev. rewrite rev_involutive. now left.
Qed.

(** The whole run. *)
Lemma build_plan w styles logo :
  Run.read w (Run.stylesPath e) = Run.Done styles ->
  Run.read w (Run.logoPath e) = Run.Done logo ->
  Run.mkdirFailure w (Run.buildDir e) = None ->
  outputsFree e w = true ->
  exists w',
    build e w = (outcomeOf (snd (planPages e w pages 0)), w') /\
    Run.files w' =
      rev (fst (planPages e w pages 0))
        ++ (Run.join e (Run.buildDir e) (lit "logo.svg"), logo)
        :: (Run.join e (Run.buildDir e) (lit "styles.css"), styles)
        :: Run.files w /\
    Run.isDirectory w' (Run.buildDir e) = true.
Proof.
  intros S L M F.
  set (w0 := Run.World (Run.files w) (Run.dirs w) (Run.locked w)
               (Run.console w ++ [lit "Building Tinqer documentation..." ++ nl])).
  assert (M0 : Run.mkdirFailure w0 (Run.buildDir e) = None)
    by (unfold w0; now rewrite mkdirFailure_console).
  destruct (mkdir_made w0 (Run.buildDir e) M0) as (ds & Mk & I & D).
  cbn [Run.files Run.dirs Run.locked Run.console w0] in Mk, I.
  assert (C : forall fs c out, In out (outputPaths e) ->
                canWrite (Run.World fs ds (Run.locked w) c) out = true).
  { intros fs c. apply (outputs_writable e w); [exact F | reflexivity | exact I |].
    apply D. }
  unfold build.
  erewrite bind_done by reflexivity.
  erewrite bind_done by reflexivity.
  erewrite bind_done by exact Mk.
  erewrite bind_done by reflexivity.
  erewrite bind_done.
  2:{ apply copy_ok; [exact S|]. apply C. now left. }
  erewrite bind_done by reflexivity.
  erewrite bind_done by reflexivity.
  erewrite bind_done.
  2:{ apply copy_ok; [|apply C; right; now left].
      rewrite <- L.
      apply (read_input _ [(Run.join e (Run.buildDir e) (lit "styles.css"), styles)] w);
        [right; now left | repeat constructor | reflexivity | reflexivity]. }
  erewrite bind_done by reflexivity.
  cbn [Run.files Run.dirs Run.locked Run.console].
  match goal with
  | |- context [Run.bind (forEachPage e pages 0) _ ?w3] =>
    destruct (forEachPage_plan w pages 0 w3
                [(Run.join e (Run.buildDir e) (lit "logo.svg"), logo);
                 (Run.join e (Run.buildDir e) (lit "styles.css"), styles)])
      as (w' & R & Fw & Dw)
  end.
  - apply incl_refl.
  - reflexivity.
  - reflexivity.
  - constructor; [cbn [fst]; right; now left|].
    constructor; [cbn [fst]; now left|]. constructor.
  - intros out Ho. now apply C.
  - cbn [Run.files Run.dirs] in Fw, Dw.
    destruct (planPages e w pages 0) as [ws [f|]]; cbn [outcomeOf snd fst] in *.
    + erewrite bind_failed by exact R. exists w'. split; [reflexivity|].
      split; [exact Fw|]. destruct w' as [fs' ds' lk' c']. cbn [Run.dirs] in Dw.
      subst ds'. apply D.
    + erewrite bind_done by exact R. eexists. split; [reflexivity|].
      cbn [Run.files]. split; [exact Fw|].
      destruct w' as [fs' ds' lk' c']. cbn [Run.dirs] in Dw. subst ds'. apply D.
Qed.

End Separate.

Lemma ready_renders e w page :
  pageReady e w page = true ->
  forall index, exists html, renderPage e w page index = Run.Done html.
Proof.
  unfold pageReady, renderPage. intros R index.
  destruct (Run.read w (sourcePath e page)) as [markdown|]; [|discriminate].
  cbv zeta.
  destruct (extractHeadings (Run.mdParse e markdown)) as [hs|] eqn:X;
    [|discriminate].
  destruct (Run.read w (Run.templatePath e)) as [template|]; [|discriminate].
  destruct (buildPage_returns template (Run.mdParse e markdown)
              (Run.mdRender e (Run.mdParse e markdown)) page index hs X)
    as [html ->].
  eauto.
Qed.

Lemma unready_fails e w page :
  pageReady e w page = false ->
  forall index, exists f, renderPage e w page index = Run.Failed f.
Proof.
  unfold pageReady, renderPage. intros R index.
  destruct (Run.read w (sourcePath e page)) as [markdown|]; [|eauto].
  cbv zeta.
  destruct (extractHeadings (Run.mdParse e markdown)) as [hs|]; [|eauto].
  destruct (Run.read w (Run.templatePath e)) as [template|]; [|eauto].
  discriminate.
Qed.

Lemma plan_ready e w ps : forall index,
  forallb (pageReady e w) ps = true ->
  snd (planPages e w ps index) = None /\
  map fst (fst (planPages e w ps index)) = map (outputPath e) ps /\
  (forall i page, nth_error ps i = Some page ->
     exists html,
       renderPage e w page (index + Z.of_nat i) = Run.Done html /\
       In (outputPath e page, html) (fst (planPages e w ps index))).
Proof.
  induction ps as [|page rest IH]; intros index R.
  - repeat split. intros [|i] page; discriminate.
  - cbn [forallb] in R. apply andb_true_iff in R as [Rp Rr].
    destruct (ready_renders e w page Rp index) as [html E].
    destruct (IH (index + 1)%Z Rr) as (A & B & C).
    cbn [planPages]. rewrite E.
    destruct (planPages e w rest (index + 1)) as [ws fl].
    cbn [fst snd map] in *. split; [exact A|]. split; [now rewrite B|].
    intros [|i] q Hq.
    + injection Hq as <-. exists html. rewrite Z.add_0_r. split; [exact E|].
      now left.
    + destruct (C i q Hq) as (h & Eh & Ih). exists h. split; [|now right].
      rewrite <- Eh. f_equal. lia.
Qed.

Lemma plan_stops e w page after before : forall index,
  forallb (pageReady e w) before = true ->
  pageReady e w page = false ->
  exists f,
    snd (planPages e w (before ++ page :: after) index) = Some f /\
    renderPage e w page (index + Z.of_nat (length before)) = Run.Failed f /\
    map fst (fst (planPages e w (before ++ page :: after) index))
      = map (outputPath e) before.
Proof.
  induction before as [|b before IH]; intros index R U.
  - destruct (unready_fails e w page U index) as [f E].
    exists f. cbn [app planPages length]. rewrite Z.add_0_r, E. auto.
  - cbn [forallb] in R. apply andb_true_iff in R as [Rb Rr].
    destruct (ready_renders e w b Rb index) as [html E].
    destruct (IH (index + 1)%Z Rr U) as (f & A & B & C).
    exists f. cbn [app planPages]. rewrite E.
    destruct (planPages e w (before ++ page :: after) (index + 1)) as [ws fl].
    cbn [fst snd map length] in *. split; [exact A|]. split.
    + rewrite <- B. f_equal. lia.
    + now rewrite C.
Qed.

(** X18: a run ends without a failure when no path read after the first
    write is an output path, the style sheet and the logo can be read, the
    build directory is there or can be made, every output path lies in the
    build directory and can be written, and every manifest entry has a
    readable source with extractable headings and a readable template.
    The build directory is there afterwards; the run writes the style sheet,
    the logo and then one file per entry, in manifest order, at the entry's
    destination in the build directory, the text being the page rendered at
    the entry's own index. *)
Theorem build_succeeds : forall e w styles logo,
  separate e = true ->
  Run.read w (Run.stylesPath e) = Run.Done styles ->
  Run.read w (Run.logoPath e) = Run.Done logo ->
  Run.mkdirFailure w (Run.buildDir e) = None ->
  outputsFree e w = true ->
  forallb (pageReady e w) pages = true ->
  exists w',
    build e w = (Run.Done tt, w') /\
    Run.isDirectory w' (Run.buildDir e) = true /\
    map fst (Run.files w') =
      rev (map (outputPath e) pages)
        ++ Run.join e (Run.buildDir e) (lit "logo.svg")
        :: Run.join e (Run.buildDir e) (lit "styles.css")
        :: map fst (Run.files w) /\
    (forall i page, nth_error pages i = Some page ->
       exists html,
         renderPage e w page (Z.of_nat i) = Run.Done html /\
         In (outputPath e page, html) (Run.files w')).
Proof.
  intros e w styles logo A S L M O R.
  destruct (build_plan e A w styles logo S L M O) as (w' & B & F & D).
  destruct (plan_ready e w pages 0 R) as (N & P & I).
  exists w'. rewrite N in B. split; [exact B|]. split; [exact D|].
  rewrite F. split.
  - rewrite map_app, map_rev, P. reflexivity.
  - intros i page Hi. destruct (I i page Hi) as (html & E & In').
    exists html. split; [exact E|].
    apply in_or_app. left. now apply in_rev in In'.
Qed.

(** X19: under the same conditions on the paths, the style sheet, the logo
    and the build directory, when the entries before some entry are ready
    and that entry is not, the run fails with the failure of that entry;
    the files of the entries before it are written, in order, and nothing
    is written for it or for any entry after it. *)
Theorem build_fails_fast : forall e w styles logo before page after,
  separate e = true ->
  Run.read w (Run.stylesPath e) = Run.Done styles ->
  Run.read w (Run.logoPath e) = Run.Done logo ->
  Run.mkdirFailure w (Run.buildDir e) = None ->
  outputsFree e w = true ->
  pages = before ++ page :: after ->
  forallb (pageReady e w) before = true ->
  pageReady e w page = false ->
  exists f w',
    build e w = (Run.Failed f, w') /\
    renderPage e w page (Z.of_nat (length before)) = Run.Failed f /\
    map fst (Run.files w') =
      rev (map (outputPath e) before)
        ++ Run.join e (Run.buildDir e) (lit "logo.svg")
        :: Run.join e (Run.buildDir e) (lit "styles.css")
        :: map fst (Run.files w).
Proof.
  intros e w styles logo before page after A S L M O P R U.
  destruct (build_plan e A w styles logo S L M O) as (w' & B & F & _).
  rewrite P in B, F.
  destruct (plan_stops e w page after before 0 R U) as (f & N & E & Q).
  exists f, w'. rewrite N in B. split; [exact B|]. split; [exact E|].
  rewrite F, map_app, map_rev, Q. reflexivity.
Qed.

(** A copy whose write is refused fails and changes nothing. *)
Lemma copy_blocked from to w f0 :
  Run.writeFailure w to = Some f0 ->
  exists f,
    Run.copyFileSync from to w = (Run.Failed f, w) /\
    (f = f0 \/ Run.read w from = Run.Failed f).
Proof.
  intros W. unfold Run.copyFileSync, Run.bind, Run.readFileSync,
    Run.writeFileSync.
  destruct (Run.read w from) as [text|f] eqn:R.
  - rewrite W. exists f0. split; [reflexivity | now left].
  - exists f. split; [reflexivity | now right].
Qed.

(** X22: with a file where the build directory should be, the directory is
    not made and the run fails at its first copy: nothing is written and no
    directory is made, and when the style sheet can be read the failure is
    the refusal of its destination. *)
Theorem build_blocked : forall e w,
  Run.isFile w (Run.buildDir e) = true ->
  Run.isDirectory w (Run.buildDir e) = false ->
  Run.dirname (Run.join e (Run.buildDir e) (lit "styles.css"))
    = Run.buildDir e ->
  exists f w',
    build e w = (Run.Failed f, w') /\
    Run.files w' = Run.files w /\
    Run.dirs w' = Run.dirs w /\
    Run.console w' =
      Run.console w ++ [lit "Building Tinqer documentation..." ++ nl;
                        lit "Copying styles.css..."] /\
    (f = Run.Refused (Run.join e (Run.buildDir e) (lit "styles.css")) \/
     Run.read w (Run.stylesPath e) = Run.Failed f).
Proof.
  intros e w F D P.
  assert (W : Run.writeFailure w (Run.join e (Run.buildDir e) (lit "styles.css"))
              = Some (Run.Refused (Run.join e (Run.buildDir e) (lit "styles.css")))).
  { unfold Run.writeFailure. rewrite P, D, F.
    destruct (Run.isLocked w _); [reflexivity|].
    destruct (Run.isDirectory w (Run.join e (Run.buildDir e) (lit "styles.css")));
      reflexivity. }
  unfold build.
  erewrite bind_done by reflexivity.
  erewrite bind_done by reflexivity.
  cbn [Run.files Run.dirs Run.locked Run.console].
  change (Run.isFile (Run.World (Run.files w) (Run.dirs w) (Run.locked w) ?c)
            (Run.buildDir e)) with (Run.isFile w (Run.buildDir e)).
  rewrite F, orb_true_r. cbn [negb].
  erewrite bind_done by reflexivity.
  erewrite bind_done by reflexivity.
  cbn [Run.files Run.dirs Run.locked Run.console].
  rewrite <- app_assoc. cbn [app].
  match goal with
  | |- context [Run.bind (Run.copyFileSync ?from ?to) _ ?w2] =>
    destruct (copy_blocked from to w2 _ W) as (f & Cp & Ef);
    exists f, w2; erewrite bind_failed by exact Cp
  end.
  repeat split. exact Ef.
Qed.

Section Confined.

Variable outs : list jstring.

Lemma within_same w w' : Run.files w' = Run.files w -> writesWithin outs w w'.
Proof. intros H. exists []. split; [exact H | constructor]. Qed.

Lemma within_write w w' path data :
  In path outs -> Run.files w' = (path, data) :: Run.files w ->
  writesWithin outs w w'.
Proof.
  intros I H. exists [(path, data)]. split; [exact H|].
  constructor; [exact I | constructor].
Qed.

Lemma within_trans w1 w2 w3 :
  writesWithin outs w1 w2 -> writesWithin outs w2 w3 -> writesWithin outs w1 w3.
Proof.
  intros (a & Ha & Fa) (b & Hb & Fb). exists (b ++ a). split.
  - now rewrite Hb, Ha, app_assoc.
  - apply Forall_app. auto.
Qed.

Lemma bind_within {A B} (m : Run.io A) (k : A -> Run.io B) :
  (forall w o w', m w = (o, w') -> writesWithin outs w w') ->
  (forall a w o w', k a w = (o, w') -> writesWithin outs w w') ->
  forall w o w', Run.bind m k w = (o, w') -> writesWithin outs w w'.
Proof.
  intros Hm Hk w o w' H. unfold Run.bind in H.
  destruct (m w) as [[a|f] w1] eqn:E.
  - eapply within_trans; [eapply Hm | eapply Hk]; eauto.
  - injection H as <- <-. eapply Hm; eauto.
Qed.

Lemma log_within line w o w' :
  Run.log line w = (o, w') -> writesWithin outs w w'.
Proof. intros H. injection H as <- <-. now apply within_same. Qed.

Lemma write_within path data w o w' :
  In path outs -> Run.writeFileSync path data w = (o, w') ->
  writesWithin outs w w'.
Proof.
  intros I H. unfold Run.writeFileSync in H.
  destruct (Run.writeFailure w path); injection H as <- <-.
  - now apply within_same.
  - eapply within_write; [exact I | reflexivity].
Qed.

Lemma copy_within from to w o w' :
  In to outs -> Run.copyFileSync from to w = (o, w') -> writesWithin outs w w'.
Proof.
  intros I. unfold Run.copyFileSync. apply bind_within.
  - intros w0 o0 w0' H. injection H as <- <-. now apply within_same.
  - intros data w0 o0 w0'. now apply write_within.
Qed.

Lemma mkdir_within path w o w' :
  Run.mkdirSync path w = (o, w') -> writesWithin outs w w'.
Proof.
  unfold Run.mkdirSync. intros H.
  destruct (Run.isDirectory w path); [|destruct (Run.makeDirs _ _ _)];
    injection H as <- <-; now apply within_same.
Qed.

End Confined.

Lemma forEachPage_within e ps : forall index w o w',
  incl ps pages ->
  forEachPage e ps index w = (o, w') -> writesWithin (outputPaths e) w w'.
Proof.
  induction ps as [|page rest IH]; intros index w o w' I H.
  - injection H as <- <-. now apply within_same.
  - cbn [forEachPage] in H. revert H. apply bind_within.
    + intros w0 o0 w0' H. rewrite buildPageRun_render in H.
      destruct (renderPage e w0 page index);
        [destruct (Run.writeFailure w0 (outputPath e page))|];
        injection H as <- <-; try (now apply within_same).
      eapply within_write; [|reflexivity]. right. right.
      apply (in_map (fun p => Run.join e (Run.buildDir e) (Page.dest p))).
      apply I. now left.
    + intros _ w0 o0 w0' H. eapply IH; [|exact H].
      intros x Hx. apply I. now right.
Qed.

(** X20: whatever the world and however the run ends, a run writes to no
    path but the style sheet, the logo and the page destinations in the
    build directory: every other file keeps its text. *)
Theorem build_confined : forall e w o w',
  build e w = (o, w') ->
  writesWithin (outputPaths e) w w' /\
  (forall path,
     forallb (fun out => negb (jeqb path out)) (outputPaths e) = true ->
     Run.lookup path (Run.files w') = Run.lookup path (Run.files w)).
Proof.
  intros e w o w' H.
  assert (W : writesWithin (outputPaths e) w w').
  { revert H. unfold build.
    apply bind_within; [apply log_within | intros _].
    apply bind_within.
    { intros w0 o0 w0' H. injection H as <- <-. now apply within_same. }
    intros present. apply bind_within.
    { intros w0 o0 w0' H. destruct (negb present);
        [exact (mkdir_within _ _ _ _ _ H)|].
      injection H as <- <-. now apply within_same. }
    intros _. apply bind_within; [apply log_within | intros _].
    apply bind_within; [intros w0 o0 w0'; apply copy_within; now left | intros _].
    apply bind_within; [apply log_within | intros _].
    apply bind_within; [apply log_within | intros _].
    apply bind_within;
      [intros w0 o0 w0'; apply copy_within; right; now left | intros _].
    apply bind_within; [apply log_within | intros _].
    apply bind_within; [|intros _; apply log_within].
    intros w0 o0 w0'. apply forEachPage_within, incl_refl. }
  split; [exact W|].
  intros path P. destruct W as (written & -> & F).
  apply lookup_app_other. eapply Forall_impl; [|exact F].
  intros x Hx. rewrite forallb_forall in P. now apply negb_true_iff, P.
Qed.

(** ** The run at concrete worlds *)

Lemma build_succeeds_witness :
  exists w',
    build sampleEnv sampleWorld = (Run.Done tt, w') /\
    Run.isDirectory w' (lit "/site/build") = true /\
    map fst (Run.files w') =
      rev (map (outputPath sampleEnv) pages)
        ++ lit "/site/build/logo.svg" :: lit "/site/build/styles.css"
        :: map fst sampleFiles.
Proof.
  destruct (build_succeeds sampleEnv sampleWorld (lit "body{}") (lit "<svg/>")
              eq_refl eq_refl eq_refl eq_refl eq_refl eq_refl)
    as (w' & B & D & F & _).
  exists w'. split; [exact B|]. split; [exact D | exact F].
Defined.

Lemma build_fails_fast_witness :
  exists f w',
    build sampleEnv brokenWorld = (Run.Failed f, w') /\
    f = Run.NoEntry (lit "/tinqer/docs/api-reference.md") /\
    map fst (Run.files w') =
      [ lit "/site/build/guide.html"; lit "/site/build/index.html";
        lit "/site/build/logo.svg"; lit "/site/build/styles.css" ]
        ++ map fst (Run.files brokenWorld).
Proof.
  destruct (build_fails_fast sampleEnv brokenWorld (lit "body{}") (lit "<svg/>")
              (firstn 2 pages) (Page.mk (lit "docs/api-reference.md")
                                  (lit "api-reference.html")
                                  (lit "API Reference") (lit "API Reference"))
              (skipn 3 pages)
              eq_refl eq_refl eq_refl eq_refl eq_refl eq_refl eq_refl eq_refl)
    as (f & w' & B & E & F).
  exists f, w'. split; [exact B|]. split; [|exact F].
  cbv in E. now injection E as <-.
Defined.

Lemma build_blocked_witness :
  exists f w',
    build sampleEnv blockedWorld = (Run.Failed f, w') /\
    Run.files w' = Run.files blockedWorld /\
    Run.dirs w' = sampleDirs /\
    f = Run.Refused (lit "/site/build/styles.css").
Proof.
  destruct (build_blocked sampleEnv blockedWorld eq_refl eq_refl eq_refl)
    as (f & w' & B & F & D & _ & [E|E]).
  - exists f, w'. auto.
  - cbv in E. discriminate E.
Defined.

Lemma build_confined_witness :
  forallb (fun out => negb (jeqb (lit "/tinqer/README.md") out))
          (outputPaths sampleEnv) = true /\
  Run.lookup (lit "/tinqer/README.md")
    (Run.files (snd (build sampleEnv brokenWorld)))
  = Run.lookup (lit "/tinqer/README.md") (Run.files brokenWorld).
Proof.
  split; [reflexivity|].
  apply (proj2 (build_confined sampleEnv brokenWorld
                  (fst (build sampleEnv brokenWorld))
                  (snd (build sampleEnv brokenWorld))
                  (surjective_pairing _))).
  reflexivity.
Defined.

(** ** Slugs collide in the normal form only *)

Lemma hexDigit_inj d d' :
  (d < 16)%N -> (d' < 16)%N -> hexDigit d = hexDigit d' -> d = d'.
Proof.
  unfold hexDigit. intros H H'.
  destruct (N.ltb_spec d 10); destruct (N.ltb_spec d' 10); lia.
Qed.

Lemma escapeByte_inj b b' t t' :
  (b < 256)%N -> (b' < 256)%N ->
  escapeByte b ++ t = escapeByte b' ++ t' -> b = b' /\ t = t'.
Proof.
  intros H H' E. unfold escapeByte in E. cbn [app] in E.
  injection E as E1 E2 E3. split; [|exact E3].
  assert (b / 16 < 16)%N by (apply N.Div0.div_lt_upper_bound; lia).
  assert (b' / 16 < 16)%N by (apply N.Div0.div_lt_upper_bound; lia).
  pose proof (N.mod_lt b 16 ltac:(lia)). pose proof (N.mod_lt b' 16 ltac:(lia)).
  apply hexDigit_inj in E1, E2; try assumption.
  rewrite (N.div_mod b 16), (N.div_mod b' 16) by lia. now rewrite E1, E2.
Qed.

Ltac split_bytes :=
  repeat match goal with
  | E : escapeByte _ ++ _ = escapeByte _ ++ _ |- _ =>
    apply escapeByte_inj in E; [destruct E as [? E] | lia | lia]
  end.

Lemma escapeCodePoint_inj cp cp' t t' :
  (cp < 2097152)%N -> (cp' < 2097152)%N ->
  escapeCodePoint cp ++ t = escapeCodePoint cp' ++ t' -> cp = cp' /\ t = t'.
Proof.
  intros H H'. unfold escapeCodePoint, utf8.
  pose proof (N.div_mod cp 64 ltac:(lia)) as D1.
  pose proof (N.div_mod (cp / 64) 64 ltac:(lia)) as D2.
  pose proof (N.div_mod (cp / 4096) 64 ltac:(lia)) as D3.
  pose proof (N.div_mod cp' 64 ltac:(lia)) as D1'.
  pose proof (N.div_mod (cp' / 64) 64 ltac:(lia)) as D2'.
  pose proof (N.div_mod (cp' / 4096) 64 ltac:(lia)) as D3'.
  rewrite N.Div0.div_div in D2, D2', D3, D3'.
  change (64 * 64)%N with 4096%N in D2, D2'.
  change (4096 * 64)%N with 262144%N in D3, D3'.
  pose proof (N.mod_lt cp 64 ltac:(lia)).
  pose proof (N.mod_lt (cp / 64) 64 ltac:(lia)).
  pose proof (N.mod_lt (cp / 4096) 64 ltac:(lia)).
  pose proof (N.mod_lt cp' 64 ltac:(lia)).
  pose proof (N.mod_lt (cp' / 64) 64 ltac:(lia)).
  pose proof (N.mod_lt (cp' / 4096) 64 ltac:(lia)).
  assert (S : (cp / 262144 < 8)%N) by (apply N.Div0.div_lt_upper_bound; lia).
  assert (S' : (cp' / 262144 < 8)%N) by (apply N.Div0.div_lt_upper_bound; lia).
  rewrite <- (N.mod_small (cp / 262144) 8) in D3 by assumption.
  rewrite <- (N.mod_small (cp' / 262144) 8) in D3' by assumption.
  pose proof (N.mod_lt (cp / 262144) 8 ltac:(lia)).
  pose proof (N.mod_lt (cp' / 262144) 8 ltac:(lia)).
  clear S S'.
  set (a4 := ((cp / 262144) mod 8)%N) in *.
  set (a3 := ((cp / 4096) mod 64)%N) in *.
  set (a2 := ((cp / 64) mod 64)%N) in *.
  set (a1 := (cp mod 64)%N) in *.
  set (q3 := (cp / 4096)%N) in *. set (q2 := (cp / 64)%N) in *.
  set (b4 := ((cp' / 262144) mod 8)%N) in *.
  set (b3 := ((cp' / 4096) mod 64)%N) in *.
  set (b2 := ((cp' / 64) mod 64)%N) in *.
  set (b1 := (cp' mod 64)%N) in *.
  set (r3 := (cp' / 4096)%N) in *. set (r2 := (cp' / 64)%N) in *.
  clearbody a4 a3 a2 a1 q3 q2 b4 b3 b2 b1 r3 r2.
  destruct (N.ltb_spec cp 128); [|destruct (N.ltb_spec cp 2048);
                                   [|destruct (N.ltb_spec cp 65536)]];
    (destruct (N.ltb_spec cp' 128); [|destruct (N.ltb_spec cp' 2048);
                                       [|destruct (N.ltb_spec cp' 65536)]]);
    cbn [flat_map]; rewrite <- ?app_assoc; cbn [app]; intros E;
    split_bytes;
    (split; [lia | first [exact E | exfalso; lia]]).
Qed.

Lemma Ok_inj {A} (a b : A) : Ok a = Ok b -> a = b.
Proof. now intros [= ->]. Qed.

Ltac bind_eq H :=
  match type of H with
  | bind ?m _ = Ok _ =>
    let t := fresh "t" in let E := fresh "E" in
    destruct m as [t|] eqn:E; cbn [bind] in H;
    [apply Ok_inj in H | discriminate H]
  | Throw _ = Ok _ => discriminate H
  end.

Lemma surrogatePair_inj c d c' d' :
  isLeadSurrogate c = true -> isTrailSurrogate d = true ->
  isLeadSurrogate c' = true -> isTrailSurrogate d' = true ->
  surrogatePair c d = surrogatePair c' d' -> c = c' /\ d = d'.
Proof. intros L T L' T'. unfold surrogatePair. class_props. lia. Qed.

Lemma escape_not_unreserved cp c t u :
  escapeCodePoint cp ++ t = c :: u -> isUnreserved c = false.
Proof.
  destruct (escapeCodePoint_shape cp) as (x & y & r & ->).
  cbn [app]. now intros [= <- _].
Qed.

(** The encoder is one to one on strings of 16-bit code units. *)
Lemma encode_inj x : forall y t,
  sixteenBit x = true -> sixteenBit y = true ->
  encodeURIComponent x = Ok t -> encodeURIComponent y = Ok t -> x = y.
Proof.
  unfold sixteenBit.
  induction x as [|c r IH1 IH2] using pair_step_ind; intros y t Wx Wy Hx Hy.
  - apply Ok_inj in Hx. subst t. destruct y as [|c' r2]; [reflexivity|].
    exfalso. revert Hy. encode_cases c' r2 d' r2'; intros Hy; bind_eq Hy;
      try discriminate Hy;
      match type of Hy with
      | escapeCodePoint ?cp ++ _ = [] =>
        destruct (escapeCodePoint_shape cp) as (? & ? & ? & S);
        rewrite S in Hy; discriminate Hy
      end.
  - cbn [forallb] in Wx. apply andb_true_iff in Wx as [Wc Wr].
    apply N.ltb_lt in Wc.
    destruct y as [|c' r2].
    { exfalso. apply Ok_inj in Hy. subst t. revert Hx.
      encode_cases c r d r'; intros Hx; bind_eq Hx; try discriminate Hx;
        match type of Hx with
        | escapeCodePoint ?cp ++ _ = [] =>
          destruct (escapeCodePoint_shape cp) as (? & ? & ? & S);
          rewrite S in Hx; discriminate Hx
        end. }
    cbn [forallb] in Wy. apply andb_true_iff in Wy as [Wc' Wr2].
    apply N.ltb_lt in Wc'.
    revert Hx. encode_cases c r d r'; intros Hx; bind_eq Hx; subst t;
      revert Hy; encode_cases c' r2 d' r2'; intros Hy; bind_eq Hy.
    + (* both copied *)
      injection Hy as -> ->. f_equal. eapply IH1; eauto.
    + apply escape_not_unreserved in Hy. congruence.
    + apply escape_not_unreserved in Hy. congruence.
    + symmetry in Hy. apply escape_not_unreserved in Hy. congruence.
    + (* both pairs *)
      cbn [forallb] in Wr, Wr2.
      apply andb_true_iff in Wr as [_ Wr]. apply andb_true_iff in Wr2 as [_ Wr2].
      apply escapeCodePoint_inj in Hy;
        try (eapply surrogatePair_range; eassumption).
      destruct Hy as [Hp ->].
      apply surrogatePair_inj in Hp as [-> ->]; try assumption.
      do 2 f_equal. eapply IH2; eauto.
    + exfalso. apply escapeCodePoint_inj in Hy;
        [| lia | eapply surrogatePair_range; eassumption].
      destruct Hy as [Hp _].
      pose proof (surrogatePair_range c d ltac:(assumption) ltac:(assumption)).
      lia.
    + symmetry in Hy. apply escape_not_unreserved in Hy. congruence.
    + exfalso. apply escapeCodePoint_inj in Hy;
        [| eapply surrogatePair_range; eassumption | lia].
      destruct Hy as [Hp _].
      pose proof (surrogatePair_range c' d' ltac:(assumption) ltac:(assumption)).
      lia.
    + apply escapeCodePoint_inj in Hy; [|lia|lia].
      destruct Hy as [-> ->]. f_equal. eapply IH1; eauto.
Qed.

Lemma normalise_sixteenBit s :
  sixteenBit s = true -> sixteenBit (normalise s) = true.
Proof.
  intros H. unfold sixteenBit. apply forallb_forall. intros c Hc.
  unfold normalise in Hc.
  apply replaceClassG_units in Hc as [[<-|[]]|[Hc _]]; [reflexivity|].
  apply replaceClassG_units in Hc as [[]|[Hc _]].
  assert (T : sixteenBit (trim s) = true).
  { unfold sixteenBit in *. rewrite forallb_forall in *.
    intros a Ha. now apply H, trim_incl. }
  apply toLowerCase_sixteenBit in T. unfold sixteenBit in T.
  rewrite forallb_forall in T. now apply T.
Qed.

(** X21: percent-encoding never makes two slugs collide: two texts have
    the same slug exactly when trimming, lower-casing, removing the
    periods and hyphenating the white space makes them the same text. *)
Theorem slug_collisions : forall s s' t,
  sixteenBit s = true -> sixteenBit s' = true ->
  slugify s = Ok t ->
  (slugify s' = Ok t <-> normalise s' = normalise s).
Proof.
  intros s s' t W W' H. rewrite slugify_normalise in *. split.
  - intros H'. eapply encode_inj; eauto using normalise_sixteenBit.
  - intros ->. exact H.
Qed.

Lemma slug_collisions_witness :
  slugify (lit "  getting   started. ") = Ok (lit "getting-started") <->
  normalise (lit "  getting   started. ") = normalise (lit "Getting Started").
Proof.
  apply (slug_collisions (lit "Getting Started") (lit "  getting   started. "));
    reflexivity.
Defined.
